(** * The collections editor of Spyder: model, table view and sort proxy

    A shallow embedding of [spyder/widgets/collectionseditor.py]:
    the natural-order key [natsort], the attribute proxy [ProxyObject],
    the table models [ReadOnlyCollectionsModel] / [CollectionsModel],
    the local table view [CollectionsEditorTableView] with the editing
    entry points of [BaseTableView], and the sort/filter proxy
    [CollectionsCustomSortFilterProxy].

    Python values are a small universe [pyval]; mutable containers live in
    a heap and are handled by reference, so that aliasing between the
    caller's object, [self._data] and [self.showndata] is kept.  Methods
    are computations in a state monad that can raise: a raised exception
    keeps the mutations done before it, as in Python. *)

From Stdlib Require Import ZArith List String Ascii Bool Lia Permutation.
Import ListNotations.

#[local] Set Warnings "-register-all".
Local Open Scope Z_scope.

(** ** Exceptions *)

Inductive exc_class : Type :=
| BaseException
| KeyboardInterrupt
| Exception
| TypeError
| ValueError
| AttributeError
| RuntimeError
| NotImplementedError
| LookupError
| KeyError
| IndexError
| ArithmeticError
| ZeroDivisionError
| UserError (name : string).

(** Proper ancestors of a class, nearest first.  [UserError n] is a class
    that derives directly from [Exception]. *)
Definition exc_bases (c : exc_class) : list exc_class :=
  match c with
  | BaseException => []
  | KeyboardInterrupt => [BaseException]
  | Exception => [BaseException]
  | NotImplementedError => [RuntimeError; Exception; BaseException]
  | KeyError | IndexError => [LookupError; Exception; BaseException]
  | ZeroDivisionError => [ArithmeticError; Exception; BaseException]
  | _ => [Exception; BaseException]
  end.

Definition exc_class_eq_dec (a b : exc_class) : {a = b} + {a <> b}.
Proof. decide equality. apply string_dec. Defined.

Definition exc_class_eqb (a b : exc_class) : bool :=
  if exc_class_eq_dec a b then true else false.

Definition issubclass (c t : exc_class) : bool :=
  exc_class_eqb c t || existsb (fun b => exc_class_eqb b t) (exc_bases c).

Record exn : Type := mkExn { exn_class : exc_class; exn_msg : string }.

(** [except (t1, ..., tn):] catches [e] when it is an instance of one of
    the listed classes. *)
Definition caught_by (e : exn) (ts : list exc_class) : bool :=
  existsb (issubclass (exn_class e)) ts.

Inductive res (A : Type) : Type :=
| Ok (a : A)
| Raise (e : exn).
Arguments Ok {A} a.
Arguments Raise {A} e.

Definition res_bind {A B} (r : res A) (k : A -> res B) : res B :=
  match r with
  | Ok a => k a
  | Raise e => Raise e
  end.

Notation "'do' x <- r ; k" := (res_bind r (fun x => k))
  (at level 10, x name, r at level 100, k at level 200).

Fixpoint res_map {A B} (f : A -> res B) (l : list A) : res (list B) :=
  match l with
  | [] => Ok []
  | x :: xs => do y <- f x; do ys <- res_map f xs; Ok (y :: ys)
  end.

Definition type_error (msg : string) : exn := mkExn TypeError msg.
Definition value_error (msg : string) : exn := mkExn ValueError msg.

(** ** Python values

    Text ([str]) is a [string] whose characters are read as the code
    points U+0000..U+00FF; [bytes] is a [string] of bytes.  [VRemote] is
    the dictionary a kernel sends for one variable in remote mode (its
    ['size'], ['type'] and ['view'] entries).  [VObj] is any other object,
    known only by its identity. *)
Inductive pyval : Type :=
| VNone
| VInt (z : Z)
| VStr (s : string)
| VBytes (b : string)
| VTuple (l : list pyval)
| VList (l : list pyval)
| VRemote (size : pyval) (type : string) (view : pyval)
| VObj (id : nat).

Section pyval_induction.
Variable P : pyval -> Prop.
Hypothesis HNone : P VNone.
Hypothesis HInt : forall z, P (VInt z).
Hypothesis HStr : forall s, P (VStr s).
Hypothesis HBytes : forall b, P (VBytes b).
Hypothesis HTuple : forall l, Forall P l -> P (VTuple l).
Hypothesis HList : forall l, Forall P l -> P (VList l).
Hypothesis HRemote : forall s t v, P s -> P v -> P (VRemote s t v).
Hypothesis HObj : forall n, P (VObj n).

Fixpoint pyval_nested_ind (v : pyval) : P v :=
  match v with
  | VNone => HNone
  | VInt z => HInt z
  | VStr s => HStr s
  | VBytes b => HBytes b
  | VTuple l =>
      HTuple l ((fix go (l : list pyval) : Forall P l :=
                   match l with
                   | [] => Forall_nil P
                   | x :: xs => Forall_cons x (pyval_nested_ind x) (go xs)
                   end) l)
  | VList l =>
      HList l ((fix go (l : list pyval) : Forall P l :=
                  match l with
                  | [] => Forall_nil P
                  | x :: xs => Forall_cons x (pyval_nested_ind x) (go xs)
                  end) l)
  | VRemote s t v => HRemote s t v (pyval_nested_ind s) (pyval_nested_ind v)
  | VObj n => HObj n
  end.
End pyval_induction.

(** [a == b] on this universe. *)
Fixpoint pyval_eqb (a b : pyval) : bool :=
  match a, b with
  | VNone, VNone => true
  | VInt x, VInt y => x =? y
  | VStr x, VStr y => String.eqb x y
  | VBytes x, VBytes y => String.eqb x y
  | VTuple l1, VTuple l2 | VList l1, VList l2 =>
      (fix go (l1 l2 : list pyval) : bool :=
         match l1, l2 with
         | [], [] => true
         | x :: xs, y :: ys => pyval_eqb x y && go xs ys
         | _, _ => false
         end) l1 l2
  | VRemote s1 t1 v1, VRemote s2 t2 v2 =>
      pyval_eqb s1 s2 && String.eqb t1 t2 && pyval_eqb v1 v2
  | VObj n, VObj m => Nat.eqb n m
  | _, _ => false
  end.

Definition seq_eqb (l1 l2 : list pyval) : bool :=
  (fix go (l1 l2 : list pyval) : bool :=
     match l1, l2 with
     | [] , [] => true
     | x :: xs, y :: ys => pyval_eqb x y && go xs ys
     | _, _ => false
     end) l1 l2.

Definition unorderable : exn :=
  type_error "'<' not supported between instances".

(** [a < b].  Sequences compare lexicographically: the first pair of
    items that differ under [==] decides, with [<] on that pair. *)
Fixpoint py_lt (a b : pyval) : res bool :=
  match a, b with
  | VInt x, VInt y => Ok (x <? y)
  | VStr x, VStr y => Ok (String.ltb x y)
  | VBytes x, VBytes y => Ok (String.ltb x y)
  | VTuple l1, VTuple l2 | VList l1, VList l2 =>
      (fix go (l1 l2 : list pyval) : res bool :=
         match l1, l2 with
         | [], [] => Ok false
         | [], _ :: _ => Ok true
         | _ :: _, [] => Ok false
         | x :: xs, y :: ys => if pyval_eqb x y then go xs ys else py_lt x y
         end) l1 l2
  | _, _ => Raise unorderable
  end.

Definition seq_lt (l1 l2 : list pyval) : res bool :=
  (fix go (l1 l2 : list pyval) : res bool :=
     match l1, l2 with
     | [], [] => Ok false
     | [], _ :: _ => Ok true
     | _ :: _, [] => Ok false
     | x :: xs, y :: ys => if pyval_eqb x y then go xs ys else py_lt x y
     end) l1 l2.

Definition is_str (v : pyval) : bool :=
  match v with VStr _ => true | _ => false end.

Definition is_int (v : pyval) : bool :=
  match v with VInt _ => true | _ => false end.

(** ** Text primitives used by [natsort] *)

Definition code (c : ascii) : N := N_of_ascii c.

(** The class [[0-9]] of the regular expression. *)
Definition is_ascii_digit (c : ascii) : bool :=
  ((48 <=? code c) && (code c <=? 57))%N.

(** Characters with the Unicode digit property below U+0100: the decimal
    digits and the superscripts U+00B2, U+00B3 and U+00B9. *)
Definition is_digit_char (c : ascii) : bool :=
  is_ascii_digit c
  || ((code c =? 178) || (code c =? 179) || (code c =? 185))%N.

Fixpoint forallb_string (p : ascii -> bool) (s : string) : bool :=
  match s with
  | EmptyString => true
  | String c s' => p c && forallb_string p s'
  end.

(** [t.isdigit()]: at least one character, all of them digits. *)
Definition str_isdigit (t : string) : bool :=
  match t with
  | EmptyString => false
  | _ => forallb_string is_digit_char t
  end.

Definition lower_char (c : ascii) : ascii :=
  let n := code c in
  if (((65 <=? n) && (n <=? 90))
      || ((192 <=? n) && (n <=? 222) && negb (n =? 215)))%N
  then ascii_of_N (n + 32)
  else c.

(** [t.lower()] *)
Fixpoint str_lower (t : string) : string :=
  match t with
  | EmptyString => EmptyString
  | String c t' => String (lower_char c) (str_lower t')
  end.

Fixpoint decimal_value (acc : Z) (t : string) : Z :=
  match t with
  | EmptyString => acc
  | String c t' => decimal_value (10 * acc + (Z.of_N (code c) - 48)) t'
  end.

(** The default of [sys.get_int_max_str_digits()]. *)
Definition int_max_str_digits : Z := 4300.

(** The number of decimal digits at the start of [t]. *)
Fixpoint leading_digits (t : string) : Z :=
  match t with
  | EmptyString => 0
  | String c t' => if is_ascii_digit c then 1 + leading_digits t' else 0
  end.

(** [int(t)] for a [t] that passed [isdigit]: decimal digits give their
    value, unless there are more of them than [int_max_str_digits], which
    [int] refuses; a superscript digit is a digit but not a decimal, and
    [int] rejects it. *)
Definition py_int (t : string) : res pyval :=
  if int_max_str_digits <? leading_digits t
  then Raise (value_error
                "Exceeds the limit (4300 digits) for integer string conversion")
  else if forallb_string is_ascii_digit t && negb (String.eqb t EmptyString)
  then Ok (VInt (decimal_value 0 t))
  else Raise (value_error "invalid literal for int() with base 10").

Definition snoc (s : string) (c : ascii) : string :=
  String.append s (String c EmptyString).

(** [re.split('([0-9]+)', s)]: the text between the maximal runs of ASCII
    digits, with the runs themselves (the group) in between.  [cur] is
    the piece being read and [in_run] tells whether it is a digit run. *)
Fixpoint re_split_digits (cur : string) (in_run : bool) (s : string)
  : list string :=
  match s with
  | EmptyString => if in_run then [cur; EmptyString] else [cur]
  | String c s' =>
      if Bool.eqb (is_ascii_digit c) in_run
      then re_split_digits (snoc cur c) in_run s'
      else cur :: re_split_digits (String c EmptyString) (negb in_run) s'
  end.

(** ** natsort *)

Definition natsort_piece (t : string) : res pyval :=
  if str_isdigit t then py_int t else Ok (VStr (str_lower t)).

Definition natsort (s : pyval) : res pyval :=
  match s with
  | VStr t =>
      do x <- res_map natsort_piece (re_split_digits EmptyString false t);
      Ok (VList x)
  | VBytes _ =>
      (* the pattern is text: re.split refuses a bytes subject *)
      Raise (type_error "cannot use a string pattern on a bytes-like object")
  | _ => Ok s
  end.

(** ** CollectionsCustomSortFilterProxy.lessThan

    [leftData] and [rightData] are what the source model's [data] returned
    for the two indexes. *)
Definition try_except {A} (body : res A) (classes : list exc_class)
  (handler : exn -> res A) : res A :=
  match body with
  | Ok a => Ok a
  | Raise e => if caught_by e classes then handler e else Raise e
  end.

Definition lessThan_body (leftData rightData : pyval) : res bool :=
  if is_str leftData && is_str rightData
  then do l <- natsort leftData; do r <- natsort rightData; py_lt l r
  else py_lt leftData rightData.

Definition lessThan (leftData rightData : pyval) : res bool :=
  try_except (lessThan_body leftData rightData) [TypeError]
    (fun _ => Ok true).


(** ** Sorting

    [sorted] and [list.sort] are stable and use [<] only.  The model
    inserts the items one by one, left to right, into the sorted prefix,
    each after the items it is not smaller than; with [reverse=True] the
    list is reversed before and after, which keeps the original order of
    equal items.  A comparison that raises aborts the sort. *)
Section Sorting.
Context {A : Type}.
Variable lt : A -> A -> res bool.

Fixpoint insert_sorted (x : A) (s : list A) : res (list A) :=
  match s with
  | [] => Ok [x]
  | y :: ys =>
      do b <- lt x y;
      if b then Ok (x :: y :: ys)
      else do r <- insert_sorted x ys; Ok (y :: r)
  end.

Fixpoint sort_into (acc : list A) (l : list A) : res (list A) :=
  match l with
  | [] => Ok acc
  | x :: xs => do acc' <- insert_sorted x acc; sort_into acc' xs
  end.

Definition stable_sort (l : list A) : res (list A) := sort_into [] l.

Definition sort_reverse (reverse : bool) (l : list A) : res (list A) :=
  if reverse
  then do r <- stable_sort (rev l); Ok (rev r)
  else stable_sort l.
End Sorting.

(** [sorted(l, key=key, reverse=reverse)]: the keys are computed first,
    in order, then the items are sorted by their keys. *)
Definition py_sorted {A} (l : list A) (key : A -> res pyval) (reverse : bool)
  : res (list A) :=
  do ks <- res_map key l;
  do r <- sort_reverse (fun p q => py_lt (fst p) (fst q)) reverse
            (combine ks l);
  Ok (map snd r).

Definition identity_key (v : pyval) : res pyval := Ok v.

(** [sort_against] of [spyder_kernels.utils.nsview], a dependency of this
    repository: the items of [list1] in the order that sorts [list2].
    [zip] stops at the shorter list; on any exception [list1] is returned
    as it is. *)
Definition sort_against {A} (list1 : list A) (list2 : list pyval)
  (reverse : bool) (sort_key : option (pyval -> res pyval)) : list A :=
  let key := fun x : pyval * A =>
               match sort_key with
               | None => Ok (fst x)
               | Some f => f (fst x)
               end in
  match py_sorted (combine list2 list1) key reverse with
  | Ok r => map snd r
  | Raise _ => list1
  end.

(** The different items of [l] that are not in [seen], each once, in
    the order of their first occurrence: the items of [set(l)]. *)
Fixpoint distinct (seen : list Z) (l : list Z) : list Z :=
  match l with
  | [] => []
  | x :: xs =>
      if existsb (Z.eqb x) seen then distinct seen xs
      else x :: distinct (x :: seen) xs
  end.

(** ** Sequences with Python indexing *)

Definition len {A} (l : list A) : Z := Z.of_nat (List.length l).

(** [range(start, stop)] *)
Definition range (start stop : Z) : list Z :=
  map (fun i => start + Z.of_nat i) (seq 0 (Z.to_nat (stop - start))).

Definition index_error : exn := mkExn IndexError "index out of range".

(** Position meant by index [i] in a sequence of length [n]: a negative
    index counts from the end. *)
Definition norm_index (n i : Z) : option nat :=
  let j := if i <? 0 then i + n else i in
  if (0 <=? j) && (j <? n) then Some (Z.to_nat j) else None.

Definition seq_get {A} (l : list A) (i : Z) : res A :=
  match norm_index (len l) i with
  | Some j =>
      match nth_error l j with
      | Some x => Ok x
      | None => Raise index_error
      end
  | None => Raise index_error
  end.

Fixpoint replace_nth {A} (j : nat) (x : A) (l : list A) : list A :=
  match l, j with
  | [], _ => []
  | _ :: t, O => x :: t
  | h :: t, S j' => h :: replace_nth j' x t
  end.

Fixpoint remove_nth {A} (j : nat) (l : list A) : list A :=
  match l, j with
  | [], _ => []
  | _ :: t, O => t
  | h :: t, S j' => h :: remove_nth j' t
  end.

(** [l[i] = x] *)
Definition seq_set {A} (l : list A) (i : Z) (x : A) : res (list A) :=
  match norm_index (len l) i with
  | Some j => Ok (replace_nth j x l)
  | None => Raise index_error
  end.

(** [l[:n] = new] *)
Definition assign_prefix {A} (l : list A) (n : Z) (new : list A) : list A :=
  let k := if n <? 0 then Z.max 0 (n + len l) else Z.min n (len l) in
  new ++ skipn (Z.to_nat k) l.

(** [l.insert(i, x)]: the position is clamped to the list. *)
Definition seq_insert {A} (l : list A) (i : Z) (x : A) : list A :=
  let k := if i <? 0 then Z.max 0 (i + len l) else Z.min i (len l) in
  firstn (Z.to_nat k) l ++ x :: skipn (Z.to_nat k) l.

(** ** Dictionaries: association lists in insertion order *)

Fixpoint hashable (v : pyval) : bool :=
  match v with
  | VList _ | VRemote _ _ _ => false
  | VTuple l => forallb hashable l
  | _ => true
  end.

Fixpoint dict_get (d : list (pyval * pyval)) (k : pyval) : option pyval :=
  match d with
  | [] => None
  | (k', v) :: d' => if pyval_eqb k' k then Some v else dict_get d' k
  end.

Fixpoint dict_set (d : list (pyval * pyval)) (k v : pyval)
  : list (pyval * pyval) :=
  match d with
  | [] => [(k, v)]
  | (k', v') :: d' =>
      if pyval_eqb k' k then (k', v) :: d' else (k', v') :: dict_set d' k v
  end.

Fixpoint dict_del (d : list (pyval * pyval)) (k : pyval)
  : list (pyval * pyval) :=
  match d with
  | [] => []
  | (k', v') :: d' =>
      if pyval_eqb k' k then d' else (k', v') :: dict_del d' k
  end.

(** ** Heap objects *)

(** An attribute of a generic object: what reading it gives, and the
    exception that assigning to it raises, if any. *)
Record slot : Type := mkSlot { slot_read : res pyval; slot_write : option exn }.

Definition loc := nat.

Inductive pyobj : Type :=
| OTuple (l : list pyval)
| OList (l : list pyval)
| OSet (l : list pyval)            (* in iteration order *)
| OFrozenset (l : list pyval)
| ODict (d : list (pyval * pyval))
| OInstance (attrs : list (string * slot))
| OProxy (target : loc).           (* ProxyObject(obj): self.__obj__ *)

Definition is_tuple o := match o with OTuple _ => true | _ => false end.
Definition is_list o := match o with OList _ => true | _ => false end.
Definition is_set o := match o with OSet _ => true | _ => false end.
Definition is_frozenset o := match o with OFrozenset _ => true | _ => false end.
Definition is_dict o := match o with ODict _ => true | _ => false end.
Definition is_proxy o := match o with OProxy _ => true | _ => false end.

(** ** Functions imported from other modules

    [get_size], [get_human_readable_type], [get_type_string],
    [get_object_attrs], [try_to_eval] and [unsorted_unique] come from
    [spyder_kernels.utils.nsview], [to_text_string] from
    [spyder.py3compat], [get_search_scores] from
    [spyder.utils.stringmatching].

    [try_to_eval] is [eval] with NameError, SyntaxError and ImportError
    caught, the text itself being returned then; any other exception of
    the evaluation is raised.  [unsorted_unique] is [list(set(l))]: the
    different items of [l], in the order in which CPython iterates the
    set.  [sort_residue] is the order in which CPython leaves a list
    whose in-place sort was aborted by an exception: some rearrangement
    of the same items. *)
Class Externals : Type := {
  get_size : pyval -> pyval;
  get_human_readable_type : pyval -> string;
  get_type_string : pyobj -> string;
  get_object_attrs : pyobj -> list pyval;
  try_to_eval : string -> res pyval;
  unsorted_unique : list Z -> list Z;
  unsorted_unique_perm :
    forall l, Permutation (distinct [] l) (unsorted_unique l);
  to_text_string : pyval -> string;
  get_search_scores : string -> list string -> list (string * pyval);
  sort_residue : list pyval -> list pyval;
  sort_residue_perm : forall l, Permutation l (sort_residue l)
}.

(** ** The state of one editor *)

Inductive SortOrder : Type := AscendingOrder | DescendingOrder.

Definition SortOrder_eqb (a b : SortOrder) : bool :=
  match a, b with
  | AscendingOrder, AscendingOrder | DescendingOrder, DescendingOrder => true
  | _, _ => false
  end.

(** A [QModelIndex], as far as it is read here. *)
Record QModelIndex : Type :=
  mkIndex { row : Z; column : Z; isValid : bool }.

(** Calls made on Qt objects and on the kernel, in order. *)
Inductive event : Type :=
| sig_setting_data
| ResetModel                                  (* beginResetModel/endResetModel *)
| InsertRows (first last : Z)                 (* beginInsertRows/endInsertRows *)
| setSortIndicator (section : Z) (order : SortOrder)
| setSortingEnabled (enable : bool)
| sortByColumn (section : Z) (order : SortOrder)
| hideSection (section : Z)
| invalidateFilter
| warning (text : string)                     (* QMessageBox.warning *)
| deselect_index (index : QModelIndex)
| shell_remove_value (name : pyval)
| shell_copy_value (orig new : pyval)
| shell_set_value (name value : pyval)
| refresh_namespacebrowser.

Inductive model_class : Type :=
| ReadOnlyCollectionsModel
| CollectionsModel.

Inductive view_class : Type :=
| CollectionsEditorTableView
| RemoteCollectionsEditorTableView.

Record world : Type := mkWorld {
  heap : list pyobj;
  log : list event;
  (* the source model *)
  source_model : model_class;
  names : bool;
  remote : bool;
  title : string;
  header0 : string;
  previous_sort : Z;
  _data : loc;
  showndata : loc;
  total_rows : Z;
  rows_loaded : Z;
  keys : list pyval;
  sizes : list pyval;
  types : list pyval;
  letters : string;
  scores : list pyval;
  (* the view that owns the model *)
  view : view_class;
  readonly : bool;
  dictfilter : option (pyobj -> pyobj);
  horizontalHeader : bool;       (* the parent has a header *)
  (* the sort/filter proxy, when there is one *)
  proxy_model : option (Z -> Z); (* mapToSource on rows *)
  pattern : string -> bool       (* re.search(pattern, s) is not None *)
}.

Definition set_heap v (w : world) : world :=
  mkWorld v (log w) (source_model w) (names w) (remote w) (title w) (header0
    w) (previous_sort w) (_data w) (showndata w) (total_rows w) (rows_loaded
    w) (keys w) (sizes w) (types w) (letters w) (scores w) (view w)
    (readonly w) (dictfilter w) (horizontalHeader w) (proxy_model w)
    (pattern w).
Definition set_log v (w : world) : world :=
  mkWorld (heap w) v (source_model w) (names w) (remote w) (title w)
    (header0 w) (previous_sort w) (_data w) (showndata w) (total_rows w)
    (rows_loaded w) (keys w) (sizes w) (types w) (letters w) (scores w)
    (view w) (readonly w) (dictfilter w) (horizontalHeader w) (proxy_model
    w) (pattern w).
Definition set_source_model v (w : world) : world :=
  mkWorld (heap w) (log w) v (names w) (remote w) (title w) (header0 w)
    (previous_sort w) (_data w) (showndata w) (total_rows w) (rows_loaded w)
    (keys w) (sizes w) (types w) (letters w) (scores w) (view w) (readonly
    w) (dictfilter w) (horizontalHeader w) (proxy_model w) (pattern w).
Definition set_names v (w : world) : world :=
  mkWorld (heap w) (log w) (source_model w) v (remote w) (title w) (header0
    w) (previous_sort w) (_data w) (showndata w) (total_rows w) (rows_loaded
    w) (keys w) (sizes w) (types w) (letters w) (scores w) (view w)
    (readonly w) (dictfilter w) (horizontalHeader w) (proxy_model w)
    (pattern w).
Definition set_remote v (w : world) : world :=
  mkWorld (heap w) (log w) (source_model w) (names w) v (title w) (header0
    w) (previous_sort w) (_data w) (showndata w) (total_rows w) (rows_loaded
    w) (keys w) (sizes w) (types w) (letters w) (scores w) (view w)
    (readonly w) (dictfilter w) (horizontalHeader w) (proxy_model w)
    (pattern w).
Definition set_title v (w : world) : world :=
  mkWorld (heap w) (log w) (source_model w) (names w) (remote w) v (header0
    w) (previous_sort w) (_data w) (showndata w) (total_rows w) (rows_loaded
    w) (keys w) (sizes w) (types w) (letters w) (scores w) (view w)
    (readonly w) (dictfilter w) (horizontalHeader w) (proxy_model w)
    (pattern w).
Definition set_header0 v (w : world) : world :=
  mkWorld (heap w) (log w) (source_model w) (names w) (remote w) (title w) v
    (previous_sort w) (_data w) (showndata w) (total_rows w) (rows_loaded w)
    (keys w) (sizes w) (types w) (letters w) (scores w) (view w) (readonly
    w) (dictfilter w) (horizontalHeader w) (proxy_model w) (pattern w).
Definition set_previous_sort v (w : world) : world :=
  mkWorld (heap w) (log w) (source_model w) (names w) (remote w) (title w)
    (header0 w) v (_data w) (showndata w) (total_rows w) (rows_loaded w)
    (keys w) (sizes w) (types w) (letters w) (scores w) (view w) (readonly
    w) (dictfilter w) (horizontalHeader w) (proxy_model w) (pattern w).
Definition set__data v (w : world) : world :=
  mkWorld (heap w) (log w) (source_model w) (names w) (remote w) (title w)
    (header0 w) (previous_sort w) v (showndata w) (total_rows w)
    (rows_loaded w) (keys w) (sizes w) (types w) (letters w) (scores w)
    (view w) (readonly w) (dictfilter w) (horizontalHeader w) (proxy_model
    w) (pattern w).
Definition set_showndata v (w : world) : world :=
  mkWorld (heap w) (log w) (source_model w) (names w) (remote w) (title w)
    (header0 w) (previous_sort w) (_data w) v (total_rows w) (rows_loaded w)
    (keys w) (sizes w) (types w) (letters w) (scores w) (view w) (readonly
    w) (dictfilter w) (horizontalHeader w) (proxy_model w) (pattern w).
Definition set_total_rows v (w : world) : world :=
  mkWorld (heap w) (log w) (source_model w) (names w) (remote w) (title w)
    (header0 w) (previous_sort w) (_data w) (showndata w) v (rows_loaded w)
    (keys w) (sizes w) (types w) (letters w) (scores w) (view w) (readonly
    w) (dictfilter w) (horizontalHeader w) (proxy_model w) (pattern w).
Definition set_rows_loaded v (w : world) : world :=
  mkWorld (heap w) (log w) (source_model w) (names w) (remote w) (title w)
    (header0 w) (previous_sort w) (_data w) (showndata w) (total_rows w) v
    (keys w) (sizes w) (types w) (letters w) (scores w) (view w) (readonly
    w) (dictfilter w) (horizontalHeader w) (proxy_model w) (pattern w).
Definition set_keys v (w : world) : world :=
  mkWorld (heap w) (log w) (source_model w) (names w) (remote w) (title w)
    (header0 w) (previous_sort w) (_data w) (showndata w) (total_rows w)
    (rows_loaded w) v (sizes w) (types w) (letters w) (scores w) (view w)
    (readonly w) (dictfilter w) (horizontalHeader w) (proxy_model w)
    (pattern w).
Definition set_sizes v (w : world) : world :=
  mkWorld (heap w) (log w) (source_model w) (names w) (remote w) (title w)
    (header0 w) (previous_sort w) (_data w) (showndata w) (total_rows w)
    (rows_loaded w) (keys w) v (types w) (letters w) (scores w) (view w)
    (readonly w) (dictfilter w) (horizontalHeader w) (proxy_model w)
    (pattern w).
Definition set_types v (w : world) : world :=
  mkWorld (heap w) (log w) (source_model w) (names w) (remote w) (title w)
    (header0 w) (previous_sort w) (_data w) (showndata w) (total_rows w)
    (rows_loaded w) (keys w) (sizes w) v (letters w) (scores w) (view w)
    (readonly w) (dictfilter w) (horizontalHeader w) (proxy_model w)
    (pattern w).
Definition set_letters v (w : world) : world :=
  mkWorld (heap w) (log w) (source_model w) (names w) (remote w) (title w)
    (header0 w) (previous_sort w) (_data w) (showndata w) (total_rows w)
    (rows_loaded w) (keys w) (sizes w) (types w) v (scores w) (view w)
    (readonly w) (dictfilter w) (horizontalHeader w) (proxy_model w)
    (pattern w).
Definition set_scores v (w : world) : world :=
  mkWorld (heap w) (log w) (source_model w) (names w) (remote w) (title w)
    (header0 w) (previous_sort w) (_data w) (showndata w) (total_rows w)
    (rows_loaded w) (keys w) (sizes w) (types w) (letters w) v (view w)
    (readonly w) (dictfilter w) (horizontalHeader w) (proxy_model w)
    (pattern w).
Definition set_view v (w : world) : world :=
  mkWorld (heap w) (log w) (source_model w) (names w) (remote w) (title w)
    (header0 w) (previous_sort w) (_data w) (showndata w) (total_rows w)
    (rows_loaded w) (keys w) (sizes w) (types w) (letters w) (scores w) v
    (readonly w) (dictfilter w) (horizontalHeader w) (proxy_model w)
    (pattern w).
Definition set_readonly v (w : world) : world :=
  mkWorld (heap w) (log w) (source_model w) (names w) (remote w) (title w)
    (header0 w) (previous_sort w) (_data w) (showndata w) (total_rows w)
    (rows_loaded w) (keys w) (sizes w) (types w) (letters w) (scores w)
    (view w) v (dictfilter w) (horizontalHeader w) (proxy_model w) (pattern
    w).
Definition set_dictfilter v (w : world) : world :=
  mkWorld (heap w) (log w) (source_model w) (names w) (remote w) (title w)
    (header0 w) (previous_sort w) (_data w) (showndata w) (total_rows w)
    (rows_loaded w) (keys w) (sizes w) (types w) (letters w) (scores w)
    (view w) (readonly w) v (horizontalHeader w) (proxy_model w) (pattern w).
Definition set_pattern v (w : world) : world :=
  mkWorld (heap w) (log w) (source_model w) (names w) (remote w) (title w)
    (header0 w) (previous_sort w) (_data w) (showndata w) (total_rows w)
    (rows_loaded w) (keys w) (sizes w) (types w) (letters w) (scores w)
    (view w) (readonly w) (dictfilter w) (horizontalHeader w) (proxy_model
    w) v.

(** ** Computations *)

Definition M (A : Type) : Type := world -> res A * world.

Definition ret {A} (a : A) : M A := fun w => (Ok a, w).

Definition bind {A B} (m : M A) (k : A -> M B) : M B :=
  fun w =>
    match m w with
    | (Ok a, w') => k a w'
    | (Raise e, w') => (Raise e, w')
    end.

Definition raise {A} (e : exn) : M A := fun w => (Raise e, w).

Definition lift {A} (r : res A) : M A := fun w => (r, w).

Definition gets {A} (f : world -> A) : M A := fun w => (Ok (f w), w).

Definition modify (f : world -> world) : M unit := fun w => (Ok tt, f w).

Declare Scope monad_scope.
Delimit Scope monad_scope with M.
Notation "x <- m ;; k" := (bind m (fun x => k))
  (at level 61, m at next level, right associativity) : monad_scope.
Notation "m ;; k" := (bind m (fun _ => k))
  (at level 61, right associativity) : monad_scope.
Local Open Scope monad_scope.

(** [try: body  except (classes): handler] *)
Definition try_catch {A} (body : M A) (classes : list exc_class)
  (handler : exn -> M A) : M A :=
  fun w =>
    match body w with
    | (Ok a, w') => (Ok a, w')
    | (Raise e, w') =>
        if caught_by e classes then handler e w' else (Raise e, w')
    end.

(** [try: body  except: pass] *)
Definition try_pass (body : M unit) : M unit :=
  fun w =>
    match body w with
    | (Ok a, w') => (Ok a, w')
    | (Raise _, w') => (Ok tt, w')
    end.

Fixpoint mapM {A B} (f : A -> M B) (l : list A) : M (list B) :=
  match l with
  | [] => ret []
  | x :: xs => y <- f x ;; ys <- mapM f xs ;; ret (y :: ys)
  end.

Fixpoint forM_ {A} (l : list A) (f : A -> M unit) : M unit :=
  match l with
  | [] => ret tt
  | x :: xs => f x ;; forM_ xs f
  end.

Definition when (b : bool) (m : M unit) : M unit := if b then m else ret tt.

Definition emit (ev : event) : M unit :=
  modify (fun w => set_log (log w ++ [ev]) w).

(** [try: body  except c1: h1  except c2: h2 ...]: the first clause whose
    classes match handles the exception. *)
Fixpoint select_handler {A} (e : exn)
  (clauses : list (list exc_class * (exn -> M A))) : option (M A) :=
  match clauses with
  | [] => None
  | (classes, h) :: rest =>
      if caught_by e classes then Some (h e) else select_handler e rest
  end.

Definition try_clauses {A} (body : M A)
  (clauses : list (list exc_class * (exn -> M A))) : M A :=
  fun w =>
    match body w with
    | (Ok a, w') => (Ok a, w')
    | (Raise e, w') =>
        match select_handler e clauses with
        | Some h => h w'
        | None => (Raise e, w')
        end
    end.

(** [needle in hay] on text *)
Fixpoint str_prefix (p s : string) : bool :=
  match p, s with
  | EmptyString, _ => true
  | String a p', String b s' => Ascii.eqb a b && str_prefix p' s'
  | String _ _, EmptyString => false
  end.

Fixpoint str_contains (needle hay : string) : bool :=
  str_prefix needle hay
  || match hay with
     | EmptyString => false
     | String _ hay' => str_contains needle hay'
     end.

(** ** The heap *)

(** The model never holds a reference to no object; [dangling] marks the
    states that no Python program reaches. *)
Definition dangling : exn := mkExn RuntimeError "reference to no object".

Definition deref (l : loc) : M pyobj :=
  fun w =>
    match nth_error (heap w) l with
    | Some o => (Ok o, w)
    | None => (Raise dangling, w)
    end.

Definition alloc (o : pyobj) : M loc :=
  fun w => (Ok (List.length (heap w)), set_heap (heap w ++ [o]) w).

Definition store (l : loc) (o : pyobj) : M unit :=
  modify (fun w => set_heap (replace_nth l o (heap w)) w).

Definition attribute_error : exn :=
  mkExn AttributeError "object has no such attribute".
Definition not_subscriptable : exn :=
  type_error "object is not subscriptable".
Definition no_item_assignment : exn :=
  type_error "object does not support item assignment".
Definition bad_index_type : exn :=
  type_error "indices must be integers".
Definition unhashable : exn := type_error "unhashable type".
Definition key_error : exn := mkExn KeyError "key".

Fixpoint find_slot (attrs : list (string * slot)) (name : string)
  : option slot :=
  match attrs with
  | [] => None
  | (n, s) :: rest => if String.eqb n name then Some s else find_slot rest name
  end.

Fixpoint write_slot (attrs : list (string * slot)) (name : string)
  (v : pyval) : list (string * slot) :=
  match attrs with
  | [] => [(name, mkSlot (Ok v) None)]
  | (n, s) :: rest =>
      if String.eqb n name then (n, mkSlot (Ok v) (slot_write s)) :: rest
      else (n, s) :: write_slot rest name v
  end.

(** [getattr(obj, key)].  Only generic objects carry attributes here; the
    methods of the built-in containers are not part of the model. *)
Definition py_getattr (obj : loc) (key : pyval) : M pyval :=
  match key with
  | VStr name =>
      o <- deref obj ;;
      match o with
      | OInstance attrs =>
          match find_slot attrs name with
          | Some s => lift (slot_read s)
          | None => raise attribute_error
          end
      | _ => raise attribute_error
      end
  | _ => raise (type_error "attribute name must be string")
  end.

(** [setattr(obj, key, value)] *)
Definition py_setattr (obj : loc) (key value : pyval) : M unit :=
  match key with
  | VStr name =>
      o <- deref obj ;;
      match o with
      | OInstance attrs =>
          match find_slot attrs name with
          | Some (mkSlot _ (Some e)) => raise e
          | _ => store obj (OInstance (write_slot attrs name value))
          end
      | _ => raise attribute_error
      end
  | _ => raise (type_error "attribute name must be string")
  end.

Section Editor.
Context {ext : Externals}.

(** ** ProxyObject *)

Definition ProxyObject_len (self_obj : loc) : M Z :=
  o <- deref self_obj ;;
  ret (len (get_object_attrs o)).

Definition ProxyObject_getitem (self_obj : loc) (key : pyval) : M pyval :=
  try_clauses (py_getattr self_obj key)
    [([NotImplementedError; AttributeError; TypeError; ValueError],
      fun _ => ret VNone)].

Definition ProxyObject_setitem (self_obj : loc) (key value : pyval)
  : M unit :=
  try_clauses (py_setattr self_obj key value)
    [([TypeError; AttributeError; NotImplementedError], fun _ => ret tt);
     ([Exception],
      fun e =>
        if negb (str_contains "cannot set values for" (exn_msg e))
        then raise e
        else ret tt)].

(** ** Operations on the object behind a reference *)

(** [len(data)] *)
Definition py_len (data : loc) : M Z :=
  o <- deref data ;;
  match o with
  | OTuple l | OList l | OSet l | OFrozenset l => ret (len l)
  | ODict d => ret (len d)
  | OProxy target => ProxyObject_len target
  | OInstance _ => raise (type_error "object has no len()")
  end.

Definition seq_getitem (l : list pyval) (key : pyval) : res pyval :=
  match key with
  | VInt i => seq_get l i
  | _ => Raise bad_index_type
  end.

(** [data[key]] *)
Definition py_getitem (data : loc) (key : pyval) : M pyval :=
  o <- deref data ;;
  match o with
  | OTuple l | OList l => lift (seq_getitem l key)
  | ODict d =>
      if hashable key
      then match dict_get d key with
           | Some v => ret v
           | None => raise key_error
           end
      else raise unhashable
  | OProxy target => ProxyObject_getitem target key
  | OSet _ | OFrozenset _ | OInstance _ => raise not_subscriptable
  end.

(** [data[key] = value] *)
Definition py_setitem (data : loc) (key value : pyval) : M unit :=
  o <- deref data ;;
  match o with
  | OList l =>
      match key with
      | VInt i => l' <- lift (seq_set l i value) ;; store data (OList l')
      | _ => raise bad_index_type
      end
  | ODict d =>
      if hashable key
      then store data (ODict (dict_set d key value))
      else raise unhashable
  | OProxy target => ProxyObject_setitem target key value
  | OTuple _ | OSet _ | OFrozenset _ | OInstance _ =>
      raise no_item_assignment
  end.

(** [data.pop(key)] *)
Definition py_pop (data : loc) (key : pyval) : M pyval :=
  o <- deref data ;;
  match o with
  | OList l =>
      match key with
      | VInt i =>
          match norm_index (len l) i with
          | Some j =>
              v <- lift (seq_get l i) ;;
              store data (OList (remove_nth j l)) ;;
              ret v
          | None => raise index_error
          end
      | _ => raise bad_index_type
      end
  | ODict d =>
      if hashable key
      then match dict_get d key with
           | Some v => store data (ODict (dict_del d key)) ;; ret v
           | None => raise key_error
           end
      else raise unhashable
  | OSet _ => raise (type_error "pop() takes no arguments")
  | OTuple _ | OFrozenset _ | OInstance _ | OProxy _ =>
      raise attribute_error
  end.

(** [data.keys()], as a list *)
Definition py_keys (data : loc) : M (list pyval) :=
  o <- deref data ;;
  match o with
  | ODict d => ret (map fst d)
  | _ => raise attribute_error
  end.

(** [data.append(value)] on a list *)
Definition list_append (data : loc) (value : pyval) : M unit :=
  o <- deref data ;;
  match o with
  | OList l => store data (OList (l ++ [value]))
  | _ => raise attribute_error
  end.

(** [data.insert(row, value)] on a list *)
Definition list_insert (data : loc) (i : Z) (value : pyval) : M unit :=
  o <- deref data ;;
  match o with
  | OList l => store data (OList (seq_insert l i value))
  | _ => raise attribute_error
  end.

(** [data.add(value)] on a set *)
Definition set_add (data : loc) (value : pyval) : M unit :=
  o <- deref data ;;
  match o with
  | OSet l =>
      if hashable value
      then if existsb (pyval_eqb value) l then ret tt
           else store data (OSet (l ++ [value]))
      else raise unhashable
  | _ => raise attribute_error
  end.

Definition isinstance (data : loc) (p : pyobj -> bool) : M bool :=
  o <- deref data ;; ret (p o).

(** ** ReadOnlyCollectionsModel *)

(** To handle large collections *)
Definition LARGE_NROWS : Z := 100.
Definition ROWS_TO_LOAD : Z := 50.

Definition reset : M unit := emit ResetModel.

Definition get_data : M loc := gets _data.

Definition append_title (s : string) : M unit :=
  modify (fun w => set_title (String.append (title w) s) w).

Definition is_collection (o : pyobj) : bool :=
  is_tuple o || is_list o || is_dict o || is_set o || is_frozenset o.

(** [data[key]['size']] and [data[key]['type']] of a remote view *)
Definition remote_size (v : pyval) : res pyval :=
  match v with
  | VRemote s _ _ => Ok s
  | _ => Raise not_subscriptable
  end.

Definition remote_type (v : pyval) : res pyval :=
  match v with
  | VRemote _ t _ => Ok (VStr t)
  | _ => Raise not_subscriptable
  end.

Definition set_size_and_type (start stop : option Z) : M unit :=
  data <- gets _data ;;
  bounds <-
    match start, stop with
    | None, None =>
        n <- gets rows_loaded ;; ret (0, n, false)
    | Some a, Some b => ret (a, b, true)
    | _, _ => raise (type_error "range() needs integers")
    end ;;
  let '(start, stop, fetch_more) := bounds in
  rm <- gets remote ;;
  ks <- gets keys ;;
  new_sizes <-
    mapM (fun index =>
            k <- lift (seq_get ks index) ;;
            v <- py_getitem data k ;;
            if rm then lift (remote_size v) else ret (get_size v))
         (range start stop) ;;
  new_types <-
    mapM (fun index =>
            k <- lift (seq_get ks index) ;;
            v <- py_getitem data k ;;
            if rm then lift (remote_type v)
            else ret (VStr (get_human_readable_type v)))
         (range start stop) ;;
  if fetch_more
  then modify (fun w => set_sizes (sizes w ++ new_sizes) w) ;;
       modify (fun w => set_types (types w ++ new_types) w)
  else modify (set_sizes new_sizes) ;;
       modify (set_types new_types).

(** The marked-up names that [get_search_scores] also returns are only
    displayed and are not kept. *)
Definition update_search_letters (text : string) : M unit :=
  modify (set_letters text) ;;
  ks <- gets keys ;;
  let results := get_search_scores text (map to_text_string ks) in
  match results with
  | [] => ret tt
  | _ => modify (set_scores (map snd results)) ;; reset
  end.

Definition set_data (data : loc) (coll_filter : option (pyobj -> pyobj))
  : M unit :=
  modify (set__data data) ;;
  rm <- gets remote ;;
  o <- deref data ;;
  data <-
    match coll_filter with
    | Some f => if negb rm && is_collection o then alloc (f o) else ret data
    | None => ret data
    end ;;
  modify (set_showndata data) ;;
  modify (set_header0 "Index") ;;
  nm <- gets names ;;
  when nm (modify (set_header0 "Name")) ;;
  o <- deref data ;;
  data <-
    match o with
    | OTuple l =>
        modify (set_keys (map VInt (range 0 (len l)))) ;;
        append_title "Tuple" ;; ret data
    | OList l =>
        modify (set_keys (map VInt (range 0 (len l)))) ;;
        append_title "List" ;; ret data
    | OSet l =>
        modify (set_keys (map VInt (range 0 (len l)))) ;;
        append_title "Set" ;;
        copy <- alloc (OList l) ;;
        modify (set__data copy) ;; ret data
    | OFrozenset l =>
        modify (set_keys (map VInt (range 0 (len l)))) ;;
        append_title "Frozenset" ;;
        copy <- alloc (OList l) ;;
        modify (set__data copy) ;; ret data
    | ODict d =>
        modify (set_keys (map fst d)) ;;
        append_title "Dictionary" ;;
        when (negb nm) (modify (set_header0 "Key")) ;; ret data
    | _ =>
        modify (set_keys (get_object_attrs o)) ;;
        proxy <- alloc (OProxy data) ;;
        modify (set__data proxy) ;;
        modify (set_showndata proxy) ;;
        when (negb nm) (modify (set_header0 "Attribute")) ;; ret proxy
    end ;;
  d <- gets _data ;;
  od <- deref d ;;
  ks <- gets keys ;;
  (if negb (is_proxy od)
   then
     let elements := (if len ks >? 1 then "elements" else "element")%string in
     append_title (String.append " ("
                     (String.append (to_text_string (VInt (len ks)))
                        (String.append " " (String.append elements ")"))))
   else
     op <- deref data ;;
     append_title (get_type_string op)) ;;
  modify (set_total_rows (len ks)) ;;
  total <- gets total_rows ;;
  (if total >? LARGE_NROWS
   then modify (set_rows_loaded ROWS_TO_LOAD)
   else modify (set_rows_loaded total)) ;;
  emit sig_setting_data ;;
  set_size_and_type None None ;;
  ks <- gets keys ;;
  when (negb (len ks =? 0)) (update_search_letters EmptyString) ;;
  reset.

Definition fetchMore (number_to_fetch : option Z) : M unit :=
  total <- gets total_rows ;;
  loaded <- gets rows_loaded ;;
  let reminder := total - loaded in
  if reminder <=? 0
  then ret tt                  (* everything is loaded *)
  else
    let items_to_fetch :=
      match number_to_fetch with
      | Some n => Z.min reminder n
      | None => Z.min reminder ROWS_TO_LOAD
      end in
    set_size_and_type (Some loaded) (Some (loaded + items_to_fetch)) ;;
    emit (InsertRows loaded (loaded + items_to_fetch - 1)) ;;
    modify (fun w => set_rows_loaded (rows_loaded w + items_to_fetch) w).

Definition load_all : M unit :=
  total <- gets total_rows ;;
  fetchMore (Some total).

Definition rowCount : M Z :=
  total <- gets total_rows ;;
  loaded <- gets rows_loaded ;;
  ret (if total <=? loaded then total else loaded).

Definition canFetchMore : M bool :=
  total <- gets total_rows ;;
  loaded <- gets rows_loaded ;;
  ret (total >? loaded).

Definition all_string (listlike : list pyval) : bool :=
  forallb is_str listlike.

(** [l.sort(key=key, reverse=reverse)] on one of the model's lists.
    When the sort is aborted the list is left rearranged. *)
Definition sort_in_place (get : world -> list pyval)
  (set : list pyval -> world -> world)
  (key : pyval -> res pyval) (reverse : bool) : M unit :=
  l <- gets get ;;
  match py_sorted l key reverse with
  | Ok r => modify (set r)
  | Raise e => modify (set (sort_residue l)) ;; raise e
  end.

Definition sort (column : Z) (order : SortOrder) : M unit :=
  header <- gets horizontalHeader ;;
  previous <- gets previous_sort ;;
  d <- gets _data ;;
  dict <- isinstance d is_dict ;;
  if header
     && SortOrder_eqb order AscendingOrder
     && negb (column =? -1)
     && (previous =? column)
     && dict
  then emit (setSortIndicator (-1) AscendingOrder)
  else
    modify (set_previous_sort column) ;;
    let reverse := SortOrder_eqb order DescendingOrder in
    ks <- gets keys ;;
    let sort_key := if all_string ks then natsort else identity_key in
    (if column =? -1 then
       ks' <- py_keys d ;;
       modify (set_keys ks') ;;
       set_size_and_type None None
     else if column =? 0 then
       modify (fun w => set_sizes
                 (sort_against (sizes w) (keys w) reverse (Some natsort)) w) ;;
       modify (fun w => set_types
                 (sort_against (types w) (keys w) reverse (Some natsort)) w) ;;
       try_pass (sort_in_place keys set_keys sort_key reverse)
     else if column =? 1 then
       modify (fun w => set_keys
                 (assign_prefix (keys w) (rows_loaded w)
                    (sort_against (keys w) (types w) reverse None)) w) ;;
       modify (fun w => set_sizes
                 (sort_against (sizes w) (types w) reverse None) w) ;;
       try_pass (sort_in_place types set_types identity_key reverse)
     else if column =? 2 then
       modify (fun w => set_keys
                 (assign_prefix (keys w) (rows_loaded w)
                    (sort_against (keys w) (sizes w) reverse None)) w) ;;
       modify (fun w => set_types
                 (sort_against (types w) (sizes w) reverse None) w) ;;
       try_pass (sort_in_place sizes set_sizes identity_key reverse)
     else if (column =? 3) || (column =? 4) then
       ks <- gets keys ;;
       values <- mapM (fun key => py_getitem d key) ks ;;
       modify (fun w => set_keys
                 (sort_against (keys w) values reverse None) w) ;;
       modify (fun w => set_sizes
                 (sort_against (sizes w) values reverse None) w) ;;
       modify (fun w => set_types
                 (sort_against (types w) values reverse None) w)
     else ret tt) ;;
    reset.

Definition get_key (index : QModelIndex) : M pyval :=
  ks <- gets keys ;; lift (seq_get ks (row index)).

Definition get_value (index : QModelIndex) : M pyval :=
  if column index =? 0 then
    ks <- gets keys ;; lift (seq_get ks (row index))
  else if column index =? 1 then
    ts <- gets types ;; lift (seq_get ts (row index))
  else if column index =? 2 then
    ss <- gets sizes ;; lift (seq_get ss (row index))
  else
    ks <- gets keys ;;
    k <- lift (seq_get ks (row index)) ;;
    d <- gets _data ;;
    py_getitem d k.

Definition row_key (row_num : Z) : M pyval :=
  ks <- gets keys ;; lift (seq_get ks row_num).

Definition row_type (row_num : Z) : M pyval :=
  ts <- gets types ;; lift (seq_get ts row_num).

(** ** CollectionsModel *)

Definition set_value (index : QModelIndex) (value : pyval) : M unit :=
  ks <- gets keys ;;
  k <- lift (seq_get ks (row index)) ;;
  d <- gets _data ;;
  py_setitem d k value ;;
  ks <- gets keys ;;
  k <- lift (seq_get ks (row index)) ;;
  shown <- gets showndata ;;
  py_setitem shown k value ;;
  ss <- gets sizes ;;
  ss' <- lift (seq_set ss (row index) (get_size value)) ;;
  modify (set_sizes ss') ;;
  ts <- gets types ;;
  ts' <- lift (seq_set ts (row index)
                 (VStr (get_human_readable_type value))) ;;
  modify (set_types ts') ;;
  emit sig_setting_data.

(** [self.source_model.set_value(index, value)]: only [CollectionsModel]
    defines the method. *)
Definition source_model_set_value (index : QModelIndex) (value : pyval)
  : M unit :=
  cls <- gets source_model ;;
  match cls with
  | CollectionsModel => set_value index value
  | ReadOnlyCollectionsModel => raise attribute_error
  end.

(** [ReadOnlyCollectionsModel.__init__]; [fresh] is the state before any
    attribute is set, and [data = None] stands for an absent argument. *)
Definition model_init (data : option loc) (title_arg : string)
  (names_arg remote_arg : bool) : M unit :=
  data <- match data with
          | Some d => ret d
          | None => alloc (ODict [])
          end ;;
  modify (set_scores []) ;;
  modify (set_names names_arg) ;;
  modify (set_remote remote_arg) ;;
  modify (set_previous_sort (-1)) ;;
  modify (set_title title_arg) ;;
  when (negb (String.eqb title_arg EmptyString)) (append_title " - ") ;;
  modify (set_sizes []) ;;
  modify (set_types []) ;;
  set_data data None.

(** ** BaseTableView and CollectionsEditorTableView *)

(** What the user has selected, and the current index. *)
Record selection : Type :=
  mkSelection { currentIndex : QModelIndex;
                selectedIndexes : list QModelIndex }.

Definition isinstance_opt (data : option loc) (p : pyobj -> bool) : M bool :=
  match data with
  | Some d => isinstance d p
  | None => ret false
  end.

Definition CollectionsEditorTableView_init (data : option loc)
  (readonly_arg : bool) (title_arg : string) (names_arg : bool) : M unit :=
  modify (set_dictfilter None) ;;
  fixed <- isinstance_opt data
             (fun o => is_tuple o || is_set o || is_frozenset o) ;;
  modify (set_readonly (readonly_arg || fixed)) ;;
  ro <- gets readonly ;;
  modify (set_source_model
            (if ro then ReadOnlyCollectionsModel else CollectionsModel)) ;;
  model_init data title_arg names_arg false ;;
  (* Leave unsorted if dict, sort by column 0 otherwise *)
  dict <- isinstance_opt data is_dict ;;
  (if dict then emit (setSortIndicator (-1) AscendingOrder)
   else emit (setSortIndicator 0 AscendingOrder)) ;;
  emit (setSortingEnabled true) ;;
  unordered <- isinstance_opt data (fun o => is_set o || is_frozenset o) ;;
  when unordered (emit (hideSection 0)).

Definition BaseTableView_set_data (data : option loc) : M unit :=
  match data with
  | Some d =>
      f <- gets dictfilter ;;
      set_data d f ;;
      reset ;;
      (* Sort table using current sort column and order *)
      emit (setSortingEnabled true)
  | None => ret tt
  end.

Definition remove_values (ks : list pyval) : M unit :=
  v <- gets view ;;
  match v with
  | CollectionsEditorTableView =>
      data <- get_data ;;
      sorted_keys <- lift (py_sorted ks identity_key true) ;;
      forM_ sorted_keys (fun key => py_pop data key ;; ret tt) ;;
      BaseTableView_set_data (Some data)
  | RemoteCollectionsEditorTableView =>
      forM_ ks (fun name => emit (shell_remove_value name)) ;;
      emit refresh_namespacebrowser
  end.

Definition copy_value (orig_key new_key : pyval) : M unit :=
  v <- gets view ;;
  match v with
  | CollectionsEditorTableView =>
      data <- get_data ;;
      o <- deref data ;;
      when (is_list o)
        (x <- py_getitem data orig_key ;; list_append data x) ;;
      o <- deref data ;;
      (if is_set o || is_frozenset o
       then x <- py_getitem data orig_key ;; set_add data x
       else x <- py_getitem data orig_key ;; py_setitem data new_key x) ;;
      BaseTableView_set_data (Some data)
  | RemoteCollectionsEditorTableView =>
      emit (shell_copy_value orig_key new_key) ;;
      emit refresh_namespacebrowser
  end.

Definition new_value (sel : selection) (key value : pyval) : M unit :=
  v <- gets view ;;
  match v with
  | CollectionsEditorTableView =>
      let index := currentIndex sel in
      data <- get_data ;;
      py_setitem data key value ;;
      BaseTableView_set_data (Some data) ;;
      emit (deselect_index index)
  | RemoteCollectionsEditorTableView =>
      emit (shell_set_value key value) ;;
      emit refresh_namespacebrowser
  end.

(** Source rows of the selected indexes, without repetition. *)
Definition selected_source_rows (indexes : list QModelIndex) : M (list Z) :=
  pm <- gets proxy_model ;;
  ret (unsorted_unique
         (map (fun idx => match pm with
                          | Some mapToSource => mapToSource (row idx)
                          | None => row idx
                          end) indexes)).

(** [answer_yes] is the user's reply to the confirmation dialog. *)
Definition remove_item (sel : selection) (force answer_yes : bool)
  (running_under_pytest : bool) : M unit :=
  let current_index := currentIndex sel in
  let indexes := selectedIndexes sel in
  match indexes with
  | [] => ret tt
  | _ =>
      if negb (forallb isValid indexes) then ret tt
      else
        when (force || answer_yes)
          (idx_rows <- selected_source_rows indexes ;;
           all_keys <- gets keys ;;
           ks <- mapM (fun r => lift (seq_get all_keys r)) idx_rows ;;
           remove_values ks) ;;
        when (negb running_under_pytest)
          (emit (deselect_index current_index))
  end.

(** [dialog] is what [QInputDialog.getText] returns: the text and
    whether the user accepted. *)
Definition copy_item (sel : selection) (erase_original : bool)
  (new_name : option pyval) (dialog : pyval * bool) : M unit :=
  let current_index := currentIndex sel in
  let indexes := selectedIndexes sel in
  match indexes with
  | [] => ret tt
  | first :: _ =>
      idx_rows <- selected_source_rows indexes ;;
      if (len idx_rows >? 1) || negb (isValid first) then ret tt
      else
        all_keys <- gets keys ;;
        r0 <- lift (seq_get idx_rows 0) ;;
        orig_key <- lift (seq_get all_keys r0) ;;
        if erase_original && negb (is_str orig_key)
        then emit (warning "You can only rename keys that are strings")
        else
          data <- get_data ;;
          o <- deref data ;;
          answer <-
            (if is_list o || is_set o || is_frozenset o
             then n <- py_len data ;; ret (VInt n, true)
             else match new_name with
                  | Some n => ret (n, true)
                  | None => ret dialog
                  end) ;;
          let '(new_key, valid) := answer in
          if valid
             && negb (String.eqb (to_text_string new_key) EmptyString)
          then
            new_key <- lift (try_to_eval (to_text_string new_key)) ;;
            if pyval_eqb new_key orig_key then ret tt
            else
              copy_value orig_key new_key ;;
              when erase_original (remove_values [orig_key]) ;;
              emit (deselect_index current_index)
          else emit (deselect_index current_index)
  end.

Definition duplicate_item (sel : selection) (dialog : pyval * bool)
  : M unit :=
  copy_item sel false None dialog.

Definition rename_item (sel : selection) (new_name : option pyval)
  (dialog : pyval * bool) : M unit :=
  copy_item sel true new_name dialog.

(** [key_dialog] and [value_dialog] are the answers to the two input
    dialogs. *)
Definition insert_item (sel : selection) (below : bool)
  (key_dialog value_dialog : pyval * bool) : M unit :=
  let index := currentIndex sel in
  pm <- gets proxy_model ;;
  r <- (if negb (isValid index) then rowCount
        else
          let source_row := match pm with
                            | Some mapToSource => mapToSource (row index)
                            | None => row index
                            end in
          ret (if below then source_row + 1 else source_row)) ;;
  data <- get_data ;;
  o <- deref data ;;
  let ask_value (key : pyval) : M unit :=
    let '(value, valid) := value_dialog in
    when (valid && negb (String.eqb (to_text_string value) EmptyString))
      (v <- lift (try_to_eval (to_text_string value)) ;;
       new_value sel key v) in
  if is_list o then
    list_insert data r (VStr EmptyString) ;;
    ask_value (VInt r)
  else if is_dict o then
    let '(key, valid) := key_dialog in
    if valid && negb (String.eqb (to_text_string key) EmptyString)
    then key <- lift (try_to_eval (to_text_string key)) ;;
         ask_value key
    else ret tt
  else ret tt.

(** The actions that [refresh_menu] enables or disables. *)
Record menu : Type := mkMenu {
  edit_action : bool;
  insert_action_above : bool;
  insert_action_below : bool;
  duplicate_action : bool;
  rename_action : bool;
  plot_action : bool;
  hist_action : bool;
  imshow_action : bool;
  save_array_action : bool;
  view_action : bool;
  copy_action : bool;
  remove_action : bool;
  insert_action : bool;
  paste_action : bool
}.

Definition indexes_in_same_row (indexes : list QModelIndex) : bool :=
  if len indexes >? 1
  then len (distinct [] (map row indexes)) =? 1
  else true.

(** The enabling part of [refresh_menu]; which actions are shown is not
    modelled. *)
Definition refresh_menu (sel : selection) : M menu :=
  let index := currentIndex sel in
  data <- get_data ;;
  o <- deref data ;;
  ro <- gets readonly ;;
  let is_dict_instance := is_dict o in
  let condition_edit :=
    negb (is_tuple o || is_set o || is_frozenset o)
    && isValid index
    && (len (selectedIndexes sel) >? 0)
    && indexes_in_same_row (selectedIndexes sel)
    && negb ro in
  let condition_select :=
    isValid index && (len (selectedIndexes sel) >? 0) in
  let condition_remove :=
    negb (is_tuple o || is_set o || is_frozenset o)
    && isValid index
    && (len (selectedIndexes sel) >? 0)
    && negb ro in
  ret {| edit_action := condition_edit;
         insert_action_above := condition_edit;
         insert_action_below := condition_edit;
         duplicate_action := condition_edit;
         rename_action := condition_edit;
         plot_action := condition_edit;
         hist_action := condition_edit;
         imshow_action := condition_edit;
         save_array_action := condition_edit;
         view_action :=
           condition_select && indexes_in_same_row (selectedIndexes sel);
         copy_action := condition_select;
         remove_action := condition_remove;
         insert_action := is_dict_instance && negb ro;
         paste_action := is_dict_instance && negb ro |}.

(** ** CollectionsCustomSortFilterProxy *)

(** Modelled from the spec: [get_search_regex] of
    [spyder.utils.stringmatching] is not among the sources; the spec
    describes the filter as a case-insensitive substring match, and an
    empty text passes everything.  The pattern is represented by the
    test [re.search(pattern, s) is not None]. *)
Definition get_search_regex (text : string) : string -> bool :=
  fun s => str_contains (str_lower text) (str_lower s).

Definition set_filter (text : string) : M unit :=
  modify (set_pattern (get_search_regex text)) ;;
  emit invalidateFilter.

Definition filterAcceptsRow (row_num : Z) : M bool :=
  k <- row_key row_num ;;
  let name := to_text_string k in
  t <- row_type row_num ;;
  let variable_type := to_text_string t in
  p <- gets pattern ;;
  let r_name := p name in
  let r_type := p variable_type in
  if negb r_name && negb r_type then ret false else ret true.

Definition proxy_set_value (index : QModelIndex) (value : pyval) : M unit :=
  try_clauses
    (pm <- gets proxy_model ;;
     let source_index :=
       match pm with
       | Some mapToSource =>
           mkIndex (mapToSource (row index)) (column index) (isValid index)
       | None => index
       end in
     source_model_set_value source_index value)
    [([AttributeError], fun _ => ret tt)].

Fixpoint remove_spaces (s : string) : string :=
  match s with
  | EmptyString => EmptyString
  | String c s' =>
      if Ascii.eqb c " " then remove_spaces s'
      else String c (remove_spaces s')
  end.

(** [RemoteCollectionsEditorTableView.do_find] *)
Definition do_find (text : string) : M unit :=
  let text := str_lower (remove_spaces text) in
  (* Make sure everything is loaded *)
  load_all ;;
  set_filter text ;;
  update_search_letters text ;;
  when (negb (String.eqb text EmptyString))
    (emit (sortByColumn 4 DescendingOrder)).

End Editor.

(** The state before a view and its model are built: [h] holds the
    caller's objects, [header] tells whether the model's parent has a
    header.  The proxy's pattern starts as one that matches all. *)
Definition fresh (h : list pyobj) (v : view_class) (header : bool)
  (proxy : option (Z -> Z)) : world :=
  mkWorld h [] ReadOnlyCollectionsModel false false EmptyString EmptyString
    (-1) 0%nat 0%nat 0 0 [] [] [] EmptyString [] v false None header proxy
    (fun _ => true).

Definition run {A} (m : M A) (w : world) : res A * world := m w.

(** ** Properties of states *)

(** The arrays that are paged ([sizes], [types]) follow [rows_loaded];
    [keys] holds every entry. *)
Definition lockstep (w : world) : Prop :=
  len (sizes w) = rows_loaded w
  /\ len (types w) = rows_loaded w
  /\ rows_loaded w <= total_rows w
  /\ len (keys w) = total_rows w.

(** Every pair of items of [l] can be compared with [<]. *)
Definition orderable (l : list pyval) : bool :=
  forallb (fun x =>
             forallb (fun y => match py_lt x y with
                               | Ok _ => true
                               | Raise _ => false
                               end) l) l.

(** The operations of the model after [set_data]. *)
Inductive operation : Type :=
| FetchMore (number_to_fetch : option Z)
| Sort (column : Z) (order : SortOrder)
| SetValue (index : QModelIndex) (value : pyval).

Definition run_operation {ext : Externals} (o : operation) : M unit :=
  match o with
  | FetchMore n => fetchMore n
  | Sort c ord => sort c ord
  | SetValue i v => set_value i v
  end.

Definition dict_size_is (w : world) (n : Z) : Prop :=
  forall d, nth_error (heap w) (_data w) = Some (ODict d) -> len d = n.

(** The calls for which the arrays are known to stay in step: a count to
    fetch is not negative; sorting by size while rows are still unloaded
    needs sizes that can be ordered; returning to the unsorted state needs
    a dictionary that still has [total_rows] entries. *)
Definition admissible (o : operation) (w : world) : Prop :=
  match o with
  | FetchMore (Some n) => 0 <= n
  | FetchMore None => True
  | Sort c _ =>
      (c = 2 -> rows_loaded w = total_rows w \/ orderable (sizes w) = true)
      /\ (c = -1 -> dict_size_is w (total_rows w))
  | SetValue _ _ => True
  end.

(** [steps w ops w']: the operations [ops], each admissible and each
    returning normally, lead from [w] to [w']. *)
Inductive steps {ext : Externals} : world -> list operation -> world -> Prop :=
| steps_nil : forall w, steps w [] w
| steps_cons : forall w o w' os w'',
    admissible o w ->
    run (run_operation o) w = (Ok tt, w') ->
    steps w' os w'' ->
    steps w (o :: os) w''.

(** The entry points of the editor through which a user, or a caller,
    can ask for a change. *)
Inductive request : Type :=
| RemoveItem (sel : selection) (force answer_yes under_pytest : bool)
| RenameItem (sel : selection) (new_name : option pyval)
    (dialog : pyval * bool)
| DuplicateItem (sel : selection) (dialog : pyval * bool)
| InsertItem (sel : selection) (below : bool)
    (key_dialog value_dialog : pyval * bool)
| RemoveValues (ks : list pyval)
| CopyValue (orig_key new_key : pyval)
| NewValue (sel : selection) (key value : pyval)
| EditValue (index : QModelIndex) (value : pyval)
| ProxyEditValue (index : QModelIndex) (value : pyval)
| SortBy (column : Z) (order : SortOrder)
| Fetch (number_to_fetch : option Z).

Definition serve {ext : Externals} (r : request) : M unit :=
  match r with
  | RemoveItem sel force yes pytest => remove_item sel force yes pytest
  | RenameItem sel new_name dialog => rename_item sel new_name dialog
  | DuplicateItem sel dialog => duplicate_item sel dialog
  | InsertItem sel below kd vd => insert_item sel below kd vd
  | RemoveValues ks => remove_values ks
  | CopyValue a b => copy_value a b
  | NewValue sel k v => new_value sel k v
  | EditValue i v => source_model_set_value i v
  | ProxyEditValue i v => proxy_set_value i v
  | SortBy c o => sort c o
  | Fetch n => fetchMore n
  end.

(** The state after serving the requests in turn, whether they return or
    raise. *)
Fixpoint serve_all {ext : Externals} (rs : list request) (w : world)
  : world :=
  match rs with
  | [] => w
  | r :: rs' => serve_all rs' (snd (run (serve r) w))
  end.

(** ** A concrete choice of the imported functions, for examples *)

Definition example_size (v : pyval) : pyval :=
  match v with
  | VTuple l | VList l => VInt (len l)
  | _ => VInt 1
  end.

Definition example_type (v : pyval) : string :=
  match v with
  | VNone => "NoneType"
  | VInt _ => "int"
  | VStr _ => "str"
  | VBytes _ => "bytes"
  | VTuple _ => "tuple"
  | VList _ => "list"
  | VRemote _ _ _ => "dict"
  | VObj _ => "object"
  end.

Definition example_attrs (o : pyobj) : list pyval :=
  match o with
  | OInstance attrs => map (fun a => VStr (fst a)) attrs
  | _ => []
  end.

(** The evaluation of a decimal number without a leading zero and of
    the quotient [1/0]; any other text is taken for a name that is not
    defined. *)
Definition example_eval (t : string) : res pyval :=
  if String.eqb t "1/0"
  then Raise (mkExn ZeroDivisionError "division by zero")
  else if forallb_string is_ascii_digit t
          && negb (String.eqb t EmptyString)
          && (String.eqb t "0" || negb (prefix "0" t))
  then Ok (VInt (decimal_value 0 t))
  else Ok (VStr t).

Fixpoint digits_of (fuel : nat) (n : Z) (acc : string) : string :=
  match fuel with
  | O => acc
  | S fuel' =>
      let acc' := String (ascii_of_N (Z.to_N (48 + n mod 10))) acc in
      if n / 10 =? 0 then acc' else digits_of fuel' (n / 10) acc'
  end.

Definition example_text (v : pyval) : string :=
  match v with
  | VStr s => s
  | VInt z =>
      if z <? 0
      then String "-" (digits_of (Z.to_nat (- z)) (- z) EmptyString)
      else digits_of (S (Z.to_nat z)) z EmptyString
  | VNone => "None"
  | _ => "<object>"
  end.

#[local] Instance example_externals : Externals := {|
  get_size := example_size;
  get_human_readable_type := example_type;
  get_type_string := fun _ => "object"%string;
  get_object_attrs := example_attrs;
  try_to_eval := example_eval;
  unsorted_unique := distinct [];
  unsorted_unique_perm := fun l => Permutation_refl (distinct [] l);
  to_text_string := example_text;
  get_search_scores := fun _ ns => map (fun n => (n, VInt 0)) ns;
  sort_residue := fun l => l;
  sort_residue_perm := fun l => Permutation_refl l
|}.

(** The superscript two, a digit that is not a decimal. *)
Definition superscript_two : string := String (ascii_of_N 178) EmptyString.

Definition index_at (r : Z) : QModelIndex := mkIndex r 0 true.

Definition select_row (r : Z) : selection :=
  mkSelection (index_at r) [index_at r].


(** An object whose attribute [freq] cannot be read or assigned: both
    attempts raise ValueError. *)
Definition offset_like : pyobj :=
  OInstance [("freq"%string,
              mkSlot (Raise (value_error "unreadable"))
                     (Some (value_error "bad value")))].

(** An object whose attribute [values] refuses assignment with a
    library-defined exception. *)
Definition index_like : pyobj :=
  OInstance [("values"%string,
              mkSlot (Ok VNone)
                     (Some (mkExn (UserError "CustomError")
                              "cannot set values for [values]")))].

(** [wp m Q w]: running [m] from [w] ends, with a result or an
    exception, in a state that satisfies [Q]. *)
Definition wp {A} (m : M A) (Q : res A -> world -> Prop) (w : world) : Prop :=
  Q (fst (m w)) (snd (m w)).

(** A postcondition for normal return only. *)
Definition returning {A} (P : A -> world -> Prop) : res A -> world -> Prop :=
  fun r w => match r with Ok a => P a w | Raise _ => True end.

(** The paged arrays are in step and every loaded type is a text. *)
Definition in_step (w : world) : Prop :=
  lockstep w /\ all_string (types w) = true.

(** A computation that changes nothing but the heap. *)
Definition heap_only {A} (m : M A) : Prop :=
  forall w, snd (m w) = set_heap (heap (snd (m w))) w.

(** A list of one hundred and one entries. *)
Definition large_list : pyobj := OList (repeat (VInt 7) 101).

(** The model of [large_list] right after [set_data]. *)
Definition large_model : world :=
  snd (run (set_data 0%nat None)
         (fresh [large_list] CollectionsEditorTableView true None)).

(** The first [n] keys can be read from the object at [d] in heap [h]. *)
Definition readable {ext : Externals} (h : list pyobj) (d : loc)
  (ks : list pyval) (n : Z) : Prop :=
  forall i, 0 <= i < n ->
    exists k v, seq_get ks i = Ok k
                /\ forall w, heap w = h -> fst (py_getitem d k w) = Ok v.

(** What does not change when the model is filled or sorted. *)
Definition same_setup (w w' : world) : Prop :=
  remote w' = remote w
  /\ names w' = names w
  /\ horizontalHeader w' = horizontalHeader w
  /\ view w' = view w
  /\ readonly w' = readonly w
  /\ dictfilter w' = dictfilter w
  /\ source_model w' = source_model w
  /\ proxy_model w' = proxy_model w.

(** [w'] is [w] with its rows loaded anew from the keys of [w]. *)
Definition loaded_from (w w' : world) : Prop :=
  in_step w'
  /\ keys w' = keys w
  /\ total_rows w' = len (keys w)
  /\ rows_loaded w' =
       (if len (keys w) >? LARGE_NROWS then ROWS_TO_LOAD else len (keys w))
  /\ _data w' = _data w
  /\ heap w' = heap w
  /\ showndata w' = showndata w
  /\ previous_sort w' = previous_sort w
  /\ same_setup w w'.

(** The keys that [set_data] gives to a built-in collection. *)
Definition keys_of (o : pyobj) : list pyval :=
  match o with
  | OTuple l | OList l | OSet l | OFrozenset l => map VInt (range 0 (len l))
  | ODict d => map fst d
  | _ => []
  end.

(** [len(o)] for a built-in collection. *)
Definition size_of (o : pyobj) : Z :=
  match o with
  | OTuple l | OList l | OSet l | OFrozenset l => len l
  | ODict d => len d
  | _ => 0
  end.

(** A built-in collection; the keys of a dictionary are hashable. *)
Definition plain_collection (o : pyobj) : Prop :=
  match o with
  | OTuple _ | OList _ | OSet _ | OFrozenset _ => True
  | ODict d => forallb hashable (map fst d) = true
  | _ => False
  end.

(** Where [set_data] leaves [_data] and the heap: a set is copied into a
    new list, any other collection is kept by reference. *)
Definition data_after (w : world) (data : loc) (o : pyobj) (w' : world)
  : Prop :=
  match o with
  | OSet l | OFrozenset l =>
      _data w' = List.length (heap w) /\ heap w' = heap w ++ [OList l]
  | _ => _data w' = data /\ heap w' = heap w
  end.

(** A dictionary whose insertion order is not the sorted order. *)
Definition unsorted_dict : pyobj :=
  ODict [(VStr "b", VInt 1); (VStr "a", VInt 2)].

(** Two keys that [remove_values] can take out of [o]: two different
    positions of a list, or two different keys present in a dictionary
    that [<] can compare. *)
Definition removable (o : pyobj) (k1 k2 : pyval) : Prop :=
  match o with
  | OList l =>
      exists i j, k1 = VInt i /\ k2 = VInt j
                  /\ 0 <= i < len l /\ 0 <= j < len l /\ i <> j
  | ODict d =>
      forallb hashable (map fst d) = true
      /\ hashable k1 = true /\ hashable k2 = true
      /\ pyval_eqb k1 k2 = false
      /\ (exists b, py_lt k1 k2 = Ok b)
      /\ (exists v, dict_get d k1 = Some v)
      /\ (exists v, dict_get d k2 = Some v)
  | _ => False
  end.

(** The same, for keys already in the order in which they are popped. *)
Definition poppable (o : pyobj) (a b : pyval) : Prop :=
  match o with
  | OList l =>
      exists i j, a = VInt i /\ b = VInt j /\ 0 <= j /\ j < i /\ i < len l
  | ODict d =>
      forallb hashable (map fst d) = true
      /\ hashable a = true /\ hashable b = true
      /\ pyval_eqb a b = false
      /\ (exists v, dict_get d a = Some v)
      /\ (exists v, dict_get d b = Some v)
  | _ => False
  end.

(** A list and a dictionary of four entries, and a tuple. *)
Definition four_list : pyobj := OList [VInt 10; VInt 11; VInt 12; VInt 13].
Definition four_dict : pyobj :=
  ODict [(VStr "d", VInt 1); (VStr "a", VInt 2); (VStr "c", VInt 3);
         (VStr "b", VInt 4)].
Definition three_tuple : pyobj := OTuple [VInt 10; VInt 11; VInt 12].
Definition mixed_dict : pyobj := ODict [(VInt 1, VInt 11); (VStr "a", VInt 12)].

(** The local editor built over [o], the only object of the heap. *)
Definition editor_of {ext : Externals} (o : pyobj) (readonly_arg : bool)
  : world :=
  snd (run (CollectionsEditorTableView_init (Some 0%nat) readonly_arg
              EmptyString false)
         (fresh [o] CollectionsEditorTableView true None)).

(** Source rows of the selected indexes, as [selected_source_rows]
    computes them in state [w]. *)
Definition source_rows {ext : Externals} (w : world)
  (indexes : list QModelIndex) : list Z :=
  unsorted_unique
    (map (fun idx => match proxy_model w with
                     | Some mapToSource => mapToSource (row idx)
                     | None => row idx
                     end) indexes).

(** A dictionary whose one key is the text of a number. *)
Definition numbered_dict : pyobj := ODict [(VStr "1", VInt 5)].

(** A dictionary with a text key and a number key. *)
Definition named_dict : pyobj :=
  ODict [(VStr "alpha", VInt 1); (VInt 7, VInt 2)].

Definition rename_warning : event :=
  warning "You can only rename keys that are strings".

(** [guarded data o d w]: in [w] the caller's object [o] is still at
    [data], the editor is a read-only local one, and its model works on
    [d], which is either the caller's tuple itself or a list that is
    another object. *)
Definition guarded (data : loc) (o : pyobj) (d : loc) (w : world) : Prop :=
  nth_error (heap w) data = Some o
  /\ source_model w = ReadOnlyCollectionsModel
  /\ view w = CollectionsEditorTableView
  /\ dictfilter w = None
  /\ remote w = false
  /\ readonly w = true
  /\ _data w = d
  /\ ((d = data /\ is_tuple o = true)
      \/ (d <> data /\ exists l, nth_error (heap w) d = Some (OList l))).

(** [m] leaves guarded states guarded, whether it returns or raises. *)
Definition keeps (data : loc) (o : pyobj) (d : loc) {A} (m : M A) : Prop :=
  forall w, guarded data o d w -> guarded data o d (snd (m w)).

(** An object the model of a guarded editor can work on. *)
Definition tuple_or_list (o : pyobj) : Prop :=
  is_tuple o = true \/ exists l, o = OList l.

(** Where the model of an editor over [o] at [data] works: on a copy at
    the end of the heap [h] for a set, on [data] itself otherwise. *)
Definition working_loc (h : list pyobj) (data : loc) (o : pyobj) : loc :=
  if is_set o || is_frozenset o then List.length h else data.

(** A set of three entries. *)
Definition three_set : pyobj := OSet [VInt 10; VInt 11; VInt 12].

(** The actions of the context menu that change the collection are all
    disabled in [m]. *)
Definition editing_disabled (m : menu) : Prop :=
  edit_action m = false
  /\ insert_action_above m = false
  /\ insert_action_below m = false
  /\ duplicate_action m = false
  /\ rename_action m = false
  /\ remove_action m = false
  /\ insert_action m = false
  /\ paste_action m = false.

(** What holds of an editor [w0] built over the object [o] at [data]
    when it is read-only for good: the read-only model is in place, its
    [set_value] is missing, and whatever is asked of the editor, [o] stays
    at [data] and the menu keeps its editing actions disabled. *)
Definition read_only_for_good {ext : Externals} (data : loc) (o : pyobj)
  (w0 : world) : Prop :=
  readonly w0 = true
  /\ source_model w0 = ReadOnlyCollectionsModel
  /\ (forall index value,
        run (source_model_set_value index value) w0
        = (Raise attribute_error, w0))
  /\ (forall index value,
        run (proxy_set_value index value) w0 = (Ok tt, w0))
  /\ (forall requests,
        let w1 := serve_all requests w0 in
        nth_error (heap w1) data = Some o
        /\ readonly w1 = true
        /\ source_model w1 = ReadOnlyCollectionsModel
        /\ forall sel m,
             fst (run (refresh_menu sel) w1) = Ok m -> editing_disabled m).

(** ** Text that [natsort] handles *)

Definition is_ascii (c : ascii) : bool := (code c <? 128)%N.

(** Text whose characters are all below U+0080. *)
Definition ascii_text (t : string) : bool := forallb_string is_ascii t.

(** Text without a decimal digit. *)
Definition no_digit (t : string) : bool :=
  forallb_string (fun c => negb (is_ascii_digit c)) t.

(** One decimal digit or more. *)
Definition digit_run (t : string) : bool :=
  forallb_string is_ascii_digit t && negb (String.eqb t EmptyString).

(** No run of decimal digits in [t] is longer than [int_max_str_digits];
    [run] is the number of digits read just before [t]. *)
Fixpoint short_runs (run : Z) (t : string) : bool :=
  match t with
  | EmptyString => true
  | String c t' =>
      if is_ascii_digit c
      then (run + 1 <=? int_max_str_digits) && short_runs (run + 1) t'
      else short_runs 0 t'
  end.

(** A piece of a key that is a number, or a text in lower case. *)
Definition lower_case (v : pyval) : Prop :=
  match v with
  | VStr s => str_lower s = s
  | _ => True
  end.

(** A list whose items are in turn texts and numbers; [number] tells
    what the first one is. *)
Fixpoint alternating (number : bool) (l : list pyval) : bool :=
  match l with
  | [] => true
  | x :: l' =>
      (if number then is_int x else is_str x) && alternating (negb number) l'
  end.

(** ** The order of the names *)

(** Whether [a] comes before [b] in the order in which [sort] puts the
    names: the order of their [natsort] keys. *)
Definition natural_less (a b : pyval) : res bool :=
  do ka <- natsort a; do kb <- natsort b; py_lt ka kb.

(** No item of [l] comes before an item that precedes it in [l]. *)
Fixpoint naturally_sorted (l : list pyval) : Prop :=
  match l with
  | [] => True
  | x :: l' =>
      Forall (fun y => natural_less y x = Ok false) l' /\ naturally_sorted l'
  end.

(** A text of ASCII characters without a run of more than
    [int_max_str_digits] digits. *)
Definition plain_text (k : pyval) : bool :=
  match k with
  | VStr t => ascii_text t && short_runs 0 t
  | _ => false
  end.

(** Names that are all numbers, or all plain texts. *)
Definition plain_names (ks : list pyval) : bool :=
  forallb is_int ks || forallb plain_text ks.

(** An item of a [natsort] key: a text or a number, as [number] says. *)
Definition piece (number : bool) (x : pyval) : bool :=
  if number then is_int x else is_str x.

(** The [natsort] keys of plain names: all numbers ([numbers = true]) or
    all lists that start with a text and alternate. *)
Definition plain_key (numbers : bool) (k : pyval) : Prop :=
  if numbers then is_int k = true
  else exists l, k = VList l /\ alternating false l = true.

(** No item's key is less than the key of an item before it. *)
Fixpoint sorted_by_key {A} (key : A -> pyval) (l : list A) : Prop :=
  match l with
  | [] => True
  | x :: l' =>
      Forall (fun y => py_lt (key y) (key x) = Ok false) l'
      /\ sorted_by_key key l'
  end.

(** [m] run [k] times in a row, as long as it returns. *)
Fixpoint repeatM (k : nat) (m : M unit) : M unit :=
  match k with
  | O => ret tt
  | S k' => m ;; repeatM k' m
  end.

(** The loaded rows of the model: the key, the type and the size shown
    in each. *)
Definition rows (w : world) : list (pyval * (pyval * pyval)) :=
  combine (keys w) (combine (types w) (sizes w)).

Definition row_type_of (r : pyval * (pyval * pyval)) : pyval := fst (snd r).
Definition row_size_of (r : pyval * (pyval * pyval)) : pyval := snd (snd r).

(** The result of a computation, mapped when there is one. *)
Definition res_fmap {A B} (g : A -> B) (r : res A) : res B :=
  match r with Ok a => Ok (g a) | Raise e => Raise e end.

(** A dictionary with values of two types. *)
Definition typed_dict : pyobj :=
  ODict [(VStr "b", VInt 1); (VStr "a", VStr "x"); (VStr "c", VInt 3)].

(** A key under which [data[key] = value] succeeds on [o]: a position of
    a list, counted from either end, or a hashable key of a dictionary. *)
Definition settable (o : pyobj) (k : pyval) : Prop :=
  match o with
  | OList l => exists i, k = VInt i /\ - len l <= i < len l
  | ODict d => hashable k = true
  | _ => False
  end.

(** [o] after [o[k] = v]. *)
Definition with_item (o : pyobj) (k v : pyval) : pyobj :=
  match o, k with
  | OList l, VInt i =>
      match norm_index (len l) i with
      | Some j => OList (replace_nth j v l)
      | None => o
      end
  | ODict d, _ => ODict (dict_set d k v)
  | _, _ => o
  end.

(** ** Looking a key up *)

(** [l.index(x)]: the first position whose item equals [x]. *)
Fixpoint list_index (l : list pyval) (x : pyval) : option Z :=
  match l with
  | [] => None
  | y :: l' =>
      if pyval_eqb y x then Some 0
      else match list_index l' x with
           | Some i => Some (i + 1)
           | None => None
           end
  end.

Definition not_in_list : exn := value_error "x is not in list".

(** [QModelIndex()] *)
Definition invalid_index : QModelIndex := mkIndex (-1) (-1) false.

(** [self.createIndex(row, column)] *)
Definition createIndex (r c : Z) : QModelIndex :=
  mkIndex r c ((0 <=? r) && (0 <=? c)).

(** [ReadOnlyCollectionsModel.get_index_from_key] *)
Definition get_index_from_key (key : pyval) : M QModelIndex :=
  try_clauses
    (ks <- gets keys ;;
     match list_index ks key with
     | Some i => ret (createIndex i 0)
     | None => raise not_in_list
     end)
    [([RuntimeError; ValueError], fun _ => ret invalid_index)].

(** ** Headers *)

Inductive Orientation : Type := Horizontal | Vertical.

Inductive ItemDataRole : Type :=
| DisplayRole
| DecorationRole
| EditRole
| ToolTipRole
| TextAlignmentRole
| BackgroundColorRole
| FontRole
| UserRole.

Definition is_display_role (r : ItemDataRole) : bool :=
  match r with DisplayRole => true | _ => false end.

(** [ReadOnlyCollectionsModel.columnCount] *)
Definition columnCount : M Z :=
  pm <- gets proxy_model ;;
  match pm with
  | Some _ => ret 5
  | None => ret 4
  end.

(** [ReadOnlyCollectionsModel.headerData]; [None] is the empty
    [QVariant]. *)
Definition headerData (section : Z) (orientation : Orientation)
  (role : ItemDataRole) : M (option string) :=
  if negb (is_display_role role) then ret None
  else
    let i_column := section in
    match orientation with
    | Horizontal =>
        h0 <- gets header0 ;;
        h <- lift (seq_get [h0; "Type"; "Size"; "Value"; "Score"]%string
                     i_column) ;;
        ret (Some h)
    | Vertical => ret None
    end.

(** What [set_data] shows: the collection itself, or what the filter
    makes of it on a local model. *)
Definition shown_object (w : world) (coll_filter : option (pyobj -> pyobj))
  (o : pyobj) : pyobj :=
  match coll_filter with
  | Some f => if negb (remote w) && is_collection o then f o else o
  | None => o
  end.

(** The header of the first column for an object of each kind. *)
Definition first_header (nm : bool) (o : pyobj) : string :=
  if nm then "Name"
  else match o with
       | ODict _ => "Key"
       | OTuple _ | OList _ | OSet _ | OFrozenset _ => "Index"
       | OInstance _ | OProxy _ => "Attribute"
       end.

(** The name of each kind of built-in collection in the title. *)
Definition kind_name (o : pyobj) : string :=
  match o with
  | OTuple _ => "Tuple"
  | OList _ => "List"
  | OSet _ => "Set"
  | OFrozenset _ => "Frozenset"
  | ODict _ => "Dictionary"
  | OInstance _ | OProxy _ => EmptyString
  end.

(** The count that follows it. *)
Definition count_text {ext : Externals} (n : Z) : string :=
  String.append " ("
    (String.append (to_text_string (VInt n))
       (String.append " "
          (String.append (if n >? 1 then "elements" else "element") ")"))).

(** ** States of a local editor *)

(** A local editor without filter whose model works on the object [o]
    at [d]. *)
Definition editing (w : world) (d : loc) (o : pyobj) : Prop :=
  view w = CollectionsEditorTableView
  /\ remote w = false
  /\ dictfilter w = None
  /\ _data w = d
  /\ nth_error (heap w) d = Some o.

(** The same, with the rows of the model those of [o]. *)
Definition showing (w : world) (d : loc) (o : pyobj) : Prop :=
  editing w d o
  /\ keys w = keys_of o
  /\ total_rows w = size_of o.

(** A list, or a dictionary whose keys are hashable. *)
Definition list_or_dict (o : pyobj) : Prop :=
  match o with
  | OList _ => True
  | ODict d => forallb hashable (map fst d) = true
  | _ => False
  end.

(** A key that [data.pop(key)] finds in [o]. *)
Definition present (o : pyobj) (k : pyval) : Prop :=
  match o with
  | OList l => exists i, k = VInt i /\ - len l <= i < len l
  | ODict d => hashable k = true /\ exists v, dict_get d k = Some v
  | _ => False
  end.

(** [o] after [o.pop(k)]. *)
Definition without_item (o : pyobj) (k : pyval) : pyobj :=
  match o, k with
  | OList l, VInt i =>
      match norm_index (len l) i with
      | Some j => OList (remove_nth j l)
      | None => o
      end
  | ODict d, _ => ODict (dict_del d k)
  | _, _ => o
  end.

(** The other objects of the heap are what they were. *)
Definition others_kept (w w' : world) (d : loc) : Prop :=
  forall d', d' <> d -> nth_error (heap w') d' = nth_error (heap w) d'.

(** What a request that went through leaves behind: it returned, the
    model shows [o'] at [d], and nothing else of the heap or of the set-up
    of the editor has changed. *)
Definition leaves (w : world) (d : loc) (o' : pyobj) (r : res unit)
  (w' : world) : Prop :=
  r = Ok tt
  /\ showing w' d o'
  /\ others_kept w w' d
  /\ source_model w' = source_model w
  /\ readonly w' = readonly w
  /\ proxy_model w' = proxy_model w.

(** The row at which [insert_item] inserts: after or at the current row,
    or after the last shown row when there is no current row. *)
Definition insert_row (w : world) (sel : selection) (below : bool) : Z :=
  let index := currentIndex sel in
  if negb (isValid index)
  then if total_rows w <=? rows_loaded w then total_rows w else rows_loaded w
  else
    let source_row := match proxy_model w with
                      | Some mapToSource => mapToSource (row index)
                      | None => row index
                      end in
    if below then source_row + 1 else source_row.

(** ** Moving through the rows of the remote view *)

(** The row that [next_row] passes to [selectRow]; [current_row] is
    [self.currentIndex().row()] and [rows] is
    [self.proxy_model.rowCount()]. *)
Definition next_row (current_row rows : Z) : Z :=
  let row := current_row in
  let row := if row + 1 =? rows then -1 else row in
  row + 1.

(** The row that [previous_row] passes to [selectRow]. *)
Definition previous_row (current_row rows : Z) : Z :=
  let row := current_row in
  let row := if row =? 0 then rows else row in
  row - 1.

(** ** Removing several positions of a list *)

(** Each item is greater than all the items that follow. *)
Fixpoint descending (ks : list Z) : Prop :=
  match ks with
  | [] => True
  | k :: ks' => Forall (fun j => j < k) ks' /\ descending ks'
  end.

(** No item is greater than an item that follows. *)
Fixpoint ascending (ks : list Z) : Prop :=
  match ks with
  | [] => True
  | k :: ks' => Forall (fun j => k <= j) ks' /\ ascending ks'
  end.

(** [l] after [l.pop(k)] for each [k] of [ks] in turn. *)
Fixpoint drop_each (ks : list Z) (l : list pyval) : list pyval :=
  match ks with
  | [] => l
  | k :: ks' => drop_each ks' (remove_nth (Z.to_nat k) l)
  end.

(** [<] on positions. *)
Definition lt_position (x y : Z) : res bool := py_lt (VInt x) (VInt y).

(** * Properties *)

(** ** Equality and order on values *)

Lemma pyval_eqb_tuple l1 l2 : pyval_eqb (VTuple l1) (VTuple l2) = seq_eqb l1 l2.
Proof. reflexivity. Qed.

Lemma pyval_eqb_list l1 l2 : pyval_eqb (VList l1) (VList l2) = seq_eqb l1 l2.
Proof. reflexivity. Qed.

Lemma py_lt_tuple l1 l2 : py_lt (VTuple l1) (VTuple l2) = seq_lt l1 l2.
Proof. reflexivity. Qed.

Lemma py_lt_list l1 l2 : py_lt (VList l1) (VList l2) = seq_lt l1 l2.
Proof. reflexivity. Qed.

Lemma seq_eqb_refl l :
  Forall (fun x => pyval_eqb x x = true) l -> seq_eqb l l = true.
Proof.
  induction 1 as [|x xs Hx _ IH]; [reflexivity|].
  change (pyval_eqb x x && seq_eqb xs xs = true).
  now rewrite Hx, IH.
Qed.

Lemma pyval_eqb_refl v : pyval_eqb v v = true.
Proof.
  induction v using pyval_nested_ind; cbn [pyval_eqb].
  - reflexivity.
  - apply Z.eqb_refl.
  - apply String.eqb_refl.
  - apply String.eqb_refl.
  - now apply seq_eqb_refl.
  - now apply seq_eqb_refl.
  - now rewrite IHv1, IHv2, String.eqb_refl.
  - apply Nat.eqb_refl.
Qed.

Lemma seq_eqb_sym l1 :
  Forall (fun x => forall y, pyval_eqb x y = pyval_eqb y x) l1 ->
  forall l2, seq_eqb l1 l2 = seq_eqb l2 l1.
Proof.
  induction 1 as [|x xs Hx _ IH]; intros [|y ys]; try reflexivity.
  change (pyval_eqb x y && seq_eqb xs ys = pyval_eqb y x && seq_eqb ys xs).
  now rewrite Hx, IH.
Qed.

Lemma pyval_eqb_sym a : forall b, pyval_eqb a b = pyval_eqb b a.
Proof.
  induction a using pyval_nested_ind; intros [ | | | | | | | ];
    try reflexivity; cbn [pyval_eqb].
  - apply Z.eqb_sym.
  - apply String.eqb_sym.
  - apply String.eqb_sym.
  - now apply seq_eqb_sym.
  - now apply seq_eqb_sym.
  - now rewrite IHa1, IHa2, String.eqb_sym.
  - apply Nat.eqb_sym.
Qed.

(** [<] raises nothing but the TypeError of unorderable operands. *)
Lemma seq_lt_raises l1 :
  Forall (fun x => forall y e, py_lt x y = Raise e -> e = unorderable) l1 ->
  forall l2 e, seq_lt l1 l2 = Raise e -> e = unorderable.
Proof.
  induction 1 as [|x xs Hx _ IH]; intros [|y ys] e; try discriminate.
  change ((if pyval_eqb x y then seq_lt xs ys else py_lt x y) = Raise e
          -> e = unorderable).
  destruct (pyval_eqb x y); eauto.
Qed.

Lemma py_lt_raises a : forall b e, py_lt a b = Raise e -> e = unorderable.
Proof.
  induction a using pyval_nested_ind; intros [ | | | | | | | ] e;
    cbn [py_lt]; try discriminate; try congruence.
  - now apply seq_lt_raises.
  - now apply seq_lt_raises.
Qed.

Lemma seq_eqb_eq l1 :
  Forall (fun x => forall y, pyval_eqb x y = true -> x = y) l1 ->
  forall l2, seq_eqb l1 l2 = true -> l1 = l2.
Proof.
  induction 1 as [|x xs Hx _ IH]; intros [|y ys]; try discriminate; auto.
  change (pyval_eqb x y && seq_eqb xs ys = true -> x :: xs = y :: ys).
  rewrite andb_true_iff. intros [H1 H2]. f_equal; auto.
Qed.

Lemma pyval_eqb_eq a : forall b, pyval_eqb a b = true -> a = b.
Proof.
  induction a using pyval_nested_ind; intros [ | | | | | | | ];
    cbn [pyval_eqb]; try discriminate; auto.
  - intros E. apply Z.eqb_eq in E. congruence.
  - intros E. apply String.eqb_eq in E. congruence.
  - intros E. apply String.eqb_eq in E. congruence.
  - intros E. f_equal. now apply seq_eqb_eq.
  - intros E. f_equal. now apply seq_eqb_eq.
  - rewrite !andb_true_iff. intros [[E1 E2] E3].
    apply String.eqb_eq in E2. f_equal; auto.
  - intros E. apply Nat.eqb_eq in E. congruence.
Qed.

Lemma string_ltb_flip s t :
  String.eqb s t = false -> String.ltb t s = negb (String.ltb s t).
Proof.
  intros Hne. unfold String.ltb.
  rewrite (String.compare_antisym s t).
  destruct (String.compare t s) eqn:E; cbn; try reflexivity.
  apply String.compare_eq_iff in E. subst.
  now rewrite String.eqb_refl in Hne.
Qed.

(** Two different values that [<] can order are ordered one way or the
    other. *)
Lemma seq_lt_flip l1 :
  Forall (fun x => forall y b, pyval_eqb x y = false ->
                     py_lt x y = Ok b -> py_lt y x = Ok (negb b)) l1 ->
  forall l2 b, seq_eqb l1 l2 = false ->
    seq_lt l1 l2 = Ok b -> seq_lt l2 l1 = Ok (negb b).
Proof.
  induction 1 as [|x xs Hx _ IH]; intros [|y ys] b.
  - discriminate.
  - intros _ H. cbn in H. injection H as <-. reflexivity.
  - intros _ H. cbn in H. injection H as <-. reflexivity.
  - change (pyval_eqb x y && seq_eqb xs ys = false ->
            (if pyval_eqb x y then seq_lt xs ys else py_lt x y) = Ok b ->
            (if pyval_eqb y x then seq_lt ys xs else py_lt y x) = Ok (negb b)).
    rewrite (pyval_eqb_sym y x).
    destruct (pyval_eqb x y) eqn:E; cbn [andb]; intros Hne Hlt; eauto.
Qed.

Lemma py_lt_flip a : forall b r,
  pyval_eqb a b = false -> py_lt a b = Ok r -> py_lt b a = Ok (negb r).
Proof.
  induction a using pyval_nested_ind; intros [ | | | | | | | ] r;
    cbn [py_lt pyval_eqb]; try discriminate.
  - intros Hne Hlt. injection Hlt as <-. f_equal.
    apply Z.eqb_neq in Hne.
    destruct (z <? z0) eqn:E1, (z0 <? z) eqn:E2; try reflexivity;
      rewrite ?Z.ltb_lt, ?Z.ltb_ge in *; lia.
  - intros Hne Hlt. injection Hlt as <-. f_equal.
    now apply string_ltb_flip.
  - intros Hne Hlt. injection Hlt as <-. f_equal.
    now apply string_ltb_flip.
  - now apply seq_lt_flip.
  - now apply seq_lt_flip.
Qed.

(** ** natsort and lessThan *)

Lemma natsort_piece_raises t e :
  natsort_piece t = Raise e -> exn_class e = ValueError.
Proof.
  unfold natsort_piece, py_int.
  destruct (str_isdigit t); [|discriminate].
  destruct (_ <? _); [now intros [= <-]|].
  destruct (_ && _); [discriminate|].
  now intros [= <-].
Qed.

Lemma res_map_natsort_piece_raises l e :
  res_map natsort_piece l = Raise e -> exn_class e = ValueError.
Proof.
  induction l as [|t l IH]; cbn; [discriminate|].
  destruct (natsort_piece t) eqn:E; cbn.
  - destruct (res_map natsort_piece l); cbn; [discriminate|].
    intros [= <-]. now apply IH.
  - intros [= <-]. eapply natsort_piece_raises; eauto.
Qed.

Lemma natsort_str_raises t e :
  natsort (VStr t) = Raise e -> exn_class e = ValueError.
Proof.
  cbn. destruct (res_map natsort_piece _) eqn:E; cbn; [discriminate|].
  intros [= <-]. eapply res_map_natsort_piece_raises; eauto.
Qed.

(** *** The pieces of a text *)

Lemma forallb_string_snoc p s c :
  forallb_string p (snoc s c) = forallb_string p s && p c.
Proof.
  unfold snoc. induction s as [|a s IH]; cbn.
  - now rewrite andb_true_r.
  - now rewrite IH, andb_assoc.
Qed.

Lemma snoc_not_empty s c : String.eqb (snoc s c) EmptyString = false.
Proof. destruct s; reflexivity. Qed.

Lemma append_snoc s c t :
  String.append (snoc s c) t = String.append s (String c t).
Proof. unfold snoc. induction s as [|a s IH]; cbn; [reflexivity|now rewrite IH]. Qed.

Lemma append_empty_r s : String.append s EmptyString = s.
Proof. induction s as [|a s IH]; cbn; [reflexivity|now rewrite IH]. Qed.

Lemma lower_char_cases c :
  (lower_char c = c
   /\ ~ ((65 <= code c <= 90)%N
         \/ ((192 <= code c <= 222)%N /\ code c <> 215%N)))
  \/ (code (lower_char c) = (code c + 32)%N
      /\ ((65 <= code c <= 90)%N
          \/ ((192 <= code c <= 222)%N /\ code c <> 215%N))).
Proof.
  unfold lower_char.
  destruct (((65 <=? code c) && (code c <=? 90)
             || (192 <=? code c) && (code c <=? 222)
                && negb (code c =? 215))%N) eqn:Hup.
  - right.
    rewrite orb_true_iff, !andb_true_iff, !N.leb_le, negb_true_iff,
      N.eqb_neq in Hup.
    split; [|tauto]. unfold code in *.
    apply N_ascii_embedding. lia.
  - left. split; [reflexivity|].
    rewrite orb_false_iff, !andb_false_iff, !N.leb_gt, negb_false_iff,
      N.eqb_eq in Hup.
    lia.
Qed.

Lemma lower_char_twice c : lower_char (lower_char c) = lower_char c.
Proof.
  destruct (lower_char_cases c) as [[E _]|[E Hup]]; [now rewrite E|].
  destruct (lower_char_cases (lower_char c)) as [[E' _]|[_ Hup']];
    [exact E'|].
  rewrite E in Hup'. lia.
Qed.

Lemma str_lower_twice t : str_lower (str_lower t) = str_lower t.
Proof.
  induction t as [|c t IH]; cbn; [reflexivity|].
  now rewrite lower_char_twice, IH.
Qed.

Lemma leading_digits_nonneg t : 0 <= leading_digits t.
Proof.
  induction t as [|c t IH]; cbn [leading_digits]; [lia|].
  destruct (is_ascii_digit c); lia.
Qed.

Lemma leading_digits_snoc cur c :
  forallb_string is_ascii_digit cur = true ->
  is_ascii_digit c = true ->
  leading_digits (snoc cur c) = leading_digits cur + 1.
Proof.
  intros Hcur Hc. unfold snoc.
  induction cur as [|a cur IH]; cbn [String.append leading_digits].
  - rewrite Hc. reflexivity.
  - cbn in Hcur. apply andb_true_iff in Hcur. destruct Hcur as [Ha Hcur].
    rewrite Ha, (IH Hcur). lia.
Qed.

(** The digits of a run that is short enough, counted from [run]. *)
Lemma short_runs_leading d : forall run,
  forallb_string is_ascii_digit d = true ->
  run <= int_max_str_digits ->
  short_runs run d = true ->
  run + leading_digits d <= int_max_str_digits.
Proof.
  induction d as [|c d IH]; intros run Hd Hrun Hshort;
    cbn [short_runs leading_digits] in *; [lia|].
  cbn in Hd. apply andb_true_iff in Hd. destruct Hd as [Hc Hd].
  rewrite Hc in *. apply andb_true_iff in Hshort.
  destruct Hshort as [Hle Hshort]. apply Z.leb_le in Hle.
  specialize (IH (run + 1) Hd Hle Hshort). lia.
Qed.

Lemma digit_run_isdigit t : digit_run t = true -> str_isdigit t = true.
Proof.
  unfold digit_run. intros H.
  apply andb_true_iff in H. destruct H as [Hd Hne].
  destruct t as [|c t]; [discriminate|]. unfold str_isdigit.
  clear Hne. revert Hd. generalize (String c t). intros s.
  induction s as [|a s IH]; cbn; [reflexivity|].
  rewrite andb_true_iff. intros [Ha Hs]. rewrite (IH Hs), andb_true_r.
  unfold is_digit_char. now rewrite Ha.
Qed.

Lemma natsort_piece_digit_run t :
  digit_run t = true ->
  leading_digits t <= int_max_str_digits ->
  natsort_piece t = Ok (VInt (decimal_value 0 t)).
Proof.
  intros H Hshort. unfold natsort_piece, py_int.
  rewrite (digit_run_isdigit t H).
  apply Z.ltb_ge in Hshort. rewrite Hshort.
  unfold digit_run in H. now rewrite H.
Qed.

(** More digits than [int] takes. *)
Lemma natsort_piece_long_run t :
  digit_run t = true ->
  int_max_str_digits < leading_digits t ->
  exists e, natsort_piece t = Raise e.
Proof.
  intros H Hlong. unfold natsort_piece, py_int.
  rewrite (digit_run_isdigit t H).
  apply Z.ltb_lt in Hlong. rewrite Hlong. eauto.
Qed.

Lemma is_digit_char_ascii c :
  is_ascii c = true -> is_digit_char c = is_ascii_digit c.
Proof.
  unfold is_digit_char, is_ascii. intros H. apply N.ltb_lt in H.
  destruct (is_ascii_digit c); [reflexivity|]. cbn [orb].
  repeat match goal with
         | |- context [(code c =? ?n)%N] =>
             let E := fresh in
             destruct (code c =? n)%N eqn:E;
             [apply N.eqb_eq in E; lia|]
         end.
  reflexivity.
Qed.

Lemma natsort_piece_text t :
  str_isdigit t = false -> natsort_piece t = Ok (VStr (str_lower t)).
Proof. unfold natsort_piece. now intros ->. Qed.

Lemma str_isdigit_no_digit t :
  forallb_string (fun c => is_ascii c && negb (is_ascii_digit c)) t = true ->
  str_isdigit t = false.
Proof.
  destruct t as [|c t]; [reflexivity|]. cbn.
  rewrite !andb_true_iff. intros [[Ha Hn] _].
  rewrite (is_digit_char_ascii c Ha).
  apply negb_true_iff in Hn. now rewrite Hn.
Qed.

(** The pieces of an ASCII text are in turn texts without digits and
    digit runs, and each one is converted when no run is too long. *)
Lemma natsort_pieces s : forall cur (in_run : bool),
  ascii_text s = true ->
  (if in_run then digit_run cur
   else forallb_string (fun c => is_ascii c && negb (is_ascii_digit c)) cur)
  = true ->
  (in_run = true -> leading_digits cur <= int_max_str_digits) ->
  short_runs (if in_run then leading_digits cur else 0) s = true ->
  exists l,
    res_map natsort_piece (re_split_digits cur in_run s) = Ok l
    /\ alternating in_run l = true
    /\ Nat.odd (List.length l) = negb in_run
    /\ Forall lower_case l.
Proof.
  induction s as [|c s IH]; intros cur in_run Hs Hcur Hmax Hshort.
  - destruct in_run; cbn [re_split_digits res_map].
    + rewrite (natsort_piece_digit_run cur Hcur (Hmax eq_refl)). cbn.
      eexists. repeat split. repeat constructor.
    + rewrite (natsort_piece_text cur (str_isdigit_no_digit cur Hcur)).
      cbn. eexists. repeat split. repeat constructor.
      apply str_lower_twice.
  - cbn in Hs. apply andb_true_iff in Hs. destruct Hs as [Hc Hs].
    cbn [re_split_digits short_runs] in *.
    destruct (Bool.eqb (is_ascii_digit c) in_run) eqn:E.
    + apply Bool.eqb_prop in E. rewrite E in Hshort.
      destruct in_run.
      * apply andb_true_iff in Hshort. destruct Hshort as [Hle Hshort].
        apply Z.leb_le in Hle.
        unfold digit_run in Hcur. apply andb_true_iff in Hcur.
        destruct Hcur as [Hcur _].
        apply IH; [exact Hs| | |].
        -- unfold digit_run.
           now rewrite forallb_string_snoc, snoc_not_empty, E, Hcur.
        -- intros _. now rewrite (leading_digits_snoc cur c Hcur E).
        -- now rewrite (leading_digits_snoc cur c Hcur E).
      * apply IH; [exact Hs| |discriminate|exact Hshort].
        rewrite forallb_string_snoc, Hcur, Hc, E. reflexivity.
    + apply Bool.eqb_false_iff in E.
      assert (Hnext : exists l,
                 res_map natsort_piece
                   (re_split_digits (String c EmptyString) (negb in_run) s)
                 = Ok l
                 /\ alternating (negb in_run) l = true
                 /\ Nat.odd (List.length l) = negb (negb in_run)
                 /\ Forall lower_case l).
      { destruct in_run; cbn [negb].
        - assert (Hd : is_ascii_digit c = false)
            by (destruct (is_ascii_digit c); congruence).
          rewrite Hd in Hshort.
          apply IH; [exact Hs| |discriminate|exact Hshort].
          cbn. now rewrite Hc, Hd.
        - assert (Hd : is_ascii_digit c = true)
            by (destruct (is_ascii_digit c); congruence).
          rewrite Hd in Hshort.
          apply andb_true_iff in Hshort. destruct Hshort as [Hle Hshort].
          apply Z.leb_le in Hle.
          apply IH; [exact Hs| | |].
          + unfold digit_run. cbn. now rewrite Hd.
          + intros _. cbn [leading_digits]. rewrite Hd. exact Hle.
          + cbn [leading_digits]. rewrite Hd. exact Hshort. }
      destruct Hnext as (l & Hl & Halt & Hodd & Hlow).
      cbn [res_map]. rewrite Hl.
      destruct in_run.
      * rewrite (natsort_piece_digit_run cur Hcur (Hmax eq_refl)).
        cbn [res_bind].
        eexists. split; [reflexivity|]. split; [|split].
        -- cbn. exact Halt.
        -- cbn [List.length]. rewrite Nat.odd_succ, <- Nat.negb_odd, Hodd.
           reflexivity.
        -- constructor; [exact I|exact Hlow].
      * rewrite (natsort_piece_text cur (str_isdigit_no_digit cur Hcur)).
        cbn [res_bind]. eexists. split; [reflexivity|]. split; [|split].
        -- cbn. exact Halt.
        -- cbn [List.length]. rewrite Nat.odd_succ, <- Nat.negb_odd, Hodd.
           reflexivity.
        -- constructor; [apply str_lower_twice|exact Hlow].
Qed.

Lemma res_map_raises_later {A B} (f : A -> res B) x xs :
  (exists e, res_map f xs = Raise e) ->
  exists e, res_map f (x :: xs) = Raise e.
Proof.
  intros [e He]. cbn. destruct (f x); cbn; [rewrite He; cbn|]; eauto.
Qed.

(** A run that is already too long stays so, whatever follows. *)
Lemma natsort_pieces_long_run s : forall cur,
  digit_run cur = true ->
  int_max_str_digits < leading_digits cur ->
  exists e, res_map natsort_piece (re_split_digits cur true s) = Raise e.
Proof.
  induction s as [|c s IH]; intros cur Hcur Hlong; cbn [re_split_digits].
  - destruct (natsort_piece_long_run cur Hcur Hlong) as [e He].
    cbn. rewrite He. cbn. eauto.
  - destruct (is_ascii_digit c) eqn:Hc; cbn [Bool.eqb].
    + unfold digit_run in Hcur. apply andb_true_iff in Hcur.
      destruct Hcur as [Hcur _]. apply IH.
      * unfold digit_run.
        now rewrite forallb_string_snoc, snoc_not_empty, Hc, Hcur.
      * rewrite (leading_digits_snoc cur c Hcur Hc). lia.
    + destruct (natsort_piece_long_run cur Hcur Hlong) as [e He].
      cbn. rewrite He. cbn. eauto.
Qed.

(** With a run of digits that is too long some piece is not converted. *)
Lemma natsort_pieces_long s : forall cur (in_run : bool),
  (in_run = true -> digit_run cur = true) ->
  short_runs (if in_run then leading_digits cur else 0) s = false ->
  exists e, res_map natsort_piece (re_split_digits cur in_run s) = Raise e.
Proof.
  induction s as [|c s IH]; intros cur in_run Hcur Hshort;
    cbn [re_split_digits short_runs] in *; [discriminate|].
  destruct (is_ascii_digit c) eqn:Hc, in_run; cbn [Bool.eqb negb].
  - specialize (Hcur eq_refl). pose proof Hcur as Hrun.
    unfold digit_run in Hcur. apply andb_true_iff in Hcur.
    destruct Hcur as [Hcur _].
    assert (Hrun' : digit_run (snoc cur c) = true).
    { unfold digit_run.
      now rewrite forallb_string_snoc, snoc_not_empty, Hc, Hcur. }
    apply andb_false_iff in Hshort. destruct Hshort as [Hle|Hshort].
    + apply Z.leb_gt in Hle. apply natsort_pieces_long_run; [exact Hrun'|].
      rewrite (leading_digits_snoc cur c Hcur Hc). exact Hle.
    + apply IH; [intros _; exact Hrun'|].
      now rewrite (leading_digits_snoc cur c Hcur Hc).
  - apply andb_false_iff in Hshort. destruct Hshort as [Hle|Hshort];
      [discriminate|].
    apply res_map_raises_later. apply IH.
    + intros _. unfold digit_run. cbn. now rewrite Hc.
    + cbn [leading_digits]. rewrite Hc. exact Hshort.
  - apply res_map_raises_later. apply IH; [discriminate|exact Hshort].
  - apply IH; [discriminate|exact Hshort].
Qed.

Lemma natsort_ascii t :
  ascii_text t = true ->
  short_runs 0 t = true ->
  exists l,
    natsort (VStr t) = Ok (VList l)
    /\ alternating false l = true
    /\ Nat.odd (List.length l) = true.
Proof.
  intros Ht Hshort.
  destruct (natsort_pieces t EmptyString false Ht eq_refl
              ltac:(discriminate) Hshort)
    as (l & Hl & Halt & Hodd & _).
  exists l. cbn. rewrite Hl. auto.
Qed.

(** Lists that alternate the same way can be compared. *)
Lemma seq_lt_alternating l1 : forall l2 n,
  alternating n l1 = true -> alternating n l2 = true ->
  exists b, seq_lt l1 l2 = Ok b.
Proof.
  induction l1 as [|x xs IH]; intros [|y ys] n H1 H2; cbn; eauto.
  cbn in H1, H2. apply andb_true_iff in H1, H2.
  destruct H1 as [Hx H1], H2 as [Hy H2].
  destruct (pyval_eqb x y).
  - exact (IH ys (negb n) H1 H2).
  - destruct n, x, y; try discriminate; cbn; eauto.
Qed.

Lemma string_ltb_irrefl s : String.ltb s s = false.
Proof.
  unfold String.ltb. pose proof (String.compare_antisym s s) as H.
  destruct (String.compare s s); cbn in H; congruence.
Qed.

(** Equal values are not smaller than each other. *)
Lemma py_lt_equal a b r :
  pyval_eqb a b = true -> py_lt a b = Ok r -> r = false.
Proof.
  intros E. apply pyval_eqb_eq in E. subst b. revert r.
  induction a using pyval_nested_ind; intros r; cbn [py_lt];
    try discriminate.
  - intros [= <-]. apply Z.ltb_irrefl.
  - intros [= <-]. apply string_ltb_irrefl.
  - intros [= <-]. apply string_ltb_irrefl.
  - change (seq_lt l l = Ok r -> r = false).
    induction l as [|x xs IHl]; cbn; [now intros [= <-]|].
    rewrite pyval_eqb_refl. inversion H; subst. now apply IHl.
  - change (seq_lt l l = Ok r -> r = false).
    induction l as [|x xs IHl]; cbn; [now intros [= <-]|].
    rewrite pyval_eqb_refl. inversion H; subst. now apply IHl.
Qed.

(** C3: [natsort] returns what is neither text nor bytes as it is, but on
    every bytes value the call of [re.split] raises TypeError, and on the
    text made of a superscript two [int] raises ValueError: [natsort] is
    not free of exceptions. *)
Theorem natsort_raises :
  (forall v, match v with VStr _ | VBytes _ => True | _ => natsort v = Ok v end)
  /\ (forall b, exists e,
        natsort (VBytes b) = Raise e /\ exn_class e = TypeError)
  /\ natsort (VBytes "test3") =
       Raise (type_error "cannot use a string pattern on a bytes-like object")
  /\ natsort (VStr superscript_two) =
       Raise (value_error "invalid literal for int() with base 10")
  /\ natsort (VStr "test3") = Ok (VList [VStr "test"; VInt 3; VStr EmptyString]).
Proof.
  split; [intros []; try exact I; reflexivity|].
  split; [intros b; eexists; split; reflexivity|].
  repeat split; reflexivity.
Qed.

(** C7, as the code has it: two texts are compared through [natsort],
    any other pair with [<]; a TypeError raised by the comparison gives
    [True]; [lessThan] never raises TypeError, and returns whenever the
    operands are not two texts.  The natural order puts test3 before
    test100, the ordinal order does not. *)
Theorem lessThan_catches_TypeError :
  forall leftData rightData : pyval,
    (is_str leftData && is_str rightData = true ->
       lessThan_body leftData rightData =
         (do l <- natsort leftData; do r <- natsort rightData; py_lt l r))
    /\ (is_str leftData && is_str rightData = false ->
          lessThan_body leftData rightData = py_lt leftData rightData
          /\ exists b, lessThan leftData rightData = Ok b)
    /\ (forall b, lessThan_body leftData rightData = Ok b ->
          lessThan leftData rightData = Ok b)
    /\ (forall e, lessThan_body leftData rightData = Raise e ->
          issubclass (exn_class e) TypeError = true ->
          lessThan leftData rightData = Ok true)
    /\ (forall e, lessThan leftData rightData = Raise e ->
          exn_class e = ValueError
          /\ is_str leftData && is_str rightData = true)
    /\ lessThan (VStr "test3") (VStr "test100") = Ok true
    /\ py_lt (VStr "test3") (VStr "test100") = Ok false.
Proof.
  intros l r. unfold lessThan, lessThan_body, try_except.
  split; [intros ->; reflexivity|].
  split.
  { intros ->. split; [reflexivity|].
    destruct (py_lt l r) eqn:E; [eauto|].
    apply py_lt_raises in E. subst. cbn. eauto. }
  split; [intros b ->; reflexivity|].
  split.
  { intros e -> Hsub. unfold caught_by. cbn [existsb].
    now rewrite Hsub. }
  split; [|split; reflexivity].
  intros e.
  destruct (is_str l && is_str r) eqn:Hs.
  - destruct l; try discriminate. destruct r; try discriminate.
    destruct (natsort (VStr s)) as [a|e1] eqn:E1; cbn [res_bind].
    + destruct (natsort (VStr s0)) as [b|e2] eqn:E2; cbn [res_bind].
      * destruct (py_lt a b) eqn:E3; [discriminate|].
        apply py_lt_raises in E3. subst. cbn. discriminate.
      * apply natsort_str_raises in E2.
        unfold caught_by; cbn [existsb]. unfold issubclass, exc_class_eqb.
        destruct e2 as [c m]; cbn in E2; subst c; cbn.
        intros [= <-]. split; reflexivity.
    + apply natsort_str_raises in E1.
      unfold caught_by; cbn [existsb]. unfold issubclass, exc_class_eqb.
      destruct e1 as [c m]; cbn in E1; subst c; cbn.
      intros [= <-]. split; reflexivity.
  - destruct (py_lt l r) eqn:E; [discriminate|].
    apply py_lt_raises in E. subst. cbn. discriminate.
Qed.

(** C7, as stated, fails: comparing the text made of a superscript two
    with another text raises ValueError inside [natsort], and [lessThan]
    lets it through instead of returning [True]. *)
Lemma lessThan_lets_ValueError_through :
  lessThan_body (VStr superscript_two) (VStr "a") =
    Raise (value_error "invalid literal for int() with base 10")
  /\ lessThan (VStr superscript_two) (VStr "a") =
       Raise (value_error "invalid literal for int() with base 10")
  /\ lessThan (VStr superscript_two) (VStr "a") <> Ok true.
Proof. repeat split; try reflexivity. discriminate. Qed.

Lemma lessThan_catches_TypeError_witness :
  lessThan_body (VInt 1) (VStr "a") = Raise unorderable
  /\ lessThan (VInt 1) (VStr "a") = Ok true.
Proof.
  split; [reflexivity|].
  apply (proj1 (proj2 (proj2 (proj2
           (lessThan_catches_TypeError (VInt 1) (VStr "a")))))
           unorderable); reflexivity.
Defined.

(** ** ProxyObject *)

(** C9, as the code has it: [__getitem__] gives [None] for the four
    listed classes and lets any other exception through; [__setitem__]
    discards TypeError, AttributeError and NotImplementedError, discards
    any other [Exception] whose message contains the text
    "cannot set values for", and re-raises the rest, a ValueError with
    another message included. *)
Theorem ProxyObject_error_handling :
  forall (w : world) (obj : loc) (key value : pyval),
    (forall v w', py_getattr obj key w = (Ok v, w') ->
       ProxyObject_getitem obj key w = (Ok v, w'))
    /\ (forall e w', py_getattr obj key w = (Raise e, w') ->
          caught_by e [NotImplementedError; AttributeError; TypeError;
                       ValueError] = true ->
          ProxyObject_getitem obj key w = (Ok VNone, w'))
    /\ (forall e w', py_getattr obj key w = (Raise e, w') ->
          caught_by e [NotImplementedError; AttributeError; TypeError;
                       ValueError] = false ->
          ProxyObject_getitem obj key w = (Raise e, w'))
    /\ (forall w', py_setattr obj key value w = (Ok tt, w') ->
          ProxyObject_setitem obj key value w = (Ok tt, w'))
    /\ (forall e w', py_setattr obj key value w = (Raise e, w') ->
          caught_by e [TypeError; AttributeError; NotImplementedError]
            = true ->
          ProxyObject_setitem obj key value w = (Ok tt, w'))
    /\ (forall e w', py_setattr obj key value w = (Raise e, w') ->
          caught_by e [TypeError; AttributeError; NotImplementedError]
            = false ->
          caught_by e [Exception] = true ->
          str_contains "cannot set values for" (exn_msg e) = true ->
          ProxyObject_setitem obj key value w = (Ok tt, w'))
    /\ (forall e w', py_setattr obj key value w = (Raise e, w') ->
          caught_by e [TypeError; AttributeError; NotImplementedError]
            = false ->
          caught_by e [Exception] = false
          \/ str_contains "cannot set values for" (exn_msg e) = false ->
          ProxyObject_setitem obj key value w = (Raise e, w')).
Proof.
  intros w obj key value.
  unfold ProxyObject_getitem, ProxyObject_setitem, try_clauses.
  repeat split.
  - intros v w' ->. reflexivity.
  - intros e w' -> H. cbn [select_handler]. now rewrite H.
  - intros e w' -> H. cbn [select_handler]. now rewrite H.
  - intros w' ->. reflexivity.
  - intros e w' -> H. cbn [select_handler]. now rewrite H.
  - intros e w' -> H1 H2 H3. cbn [select_handler].
    now rewrite H1, H2, H3.
  - intros e w' -> H1 [H2|H3]; cbn [select_handler]; rewrite H1.
    + now rewrite H2.
    + destruct (caught_by e [Exception]); [|reflexivity].
      now rewrite H3.
Qed.

Lemma ProxyObject_error_handling_witness :
  let w := fresh [offset_like] CollectionsEditorTableView true None in
  ProxyObject_getitem 0%nat (VStr "freq") w = (Ok VNone, w).
Proof.
  intro w.
  apply (proj1 (proj2 (ProxyObject_error_handling w 0%nat (VStr "freq") VNone))
           (value_error "unreadable") w); reflexivity.
Defined.

(** C9, as stated, fails: assigning through the proxy re-raises a
    ValueError that reading would have turned into [None], and silently
    drops an exception of another class because of its message. *)
Lemma ProxyObject_setitem_is_not_getitem :
  let w := fresh [offset_like; index_like] CollectionsEditorTableView true
             None in
  ProxyObject_getitem 0%nat (VStr "freq") w = (Ok VNone, w)
  /\ ProxyObject_setitem 0%nat (VStr "freq") (VInt 1) w =
       (Raise (value_error "bad value"), w)
  /\ py_setattr 1%nat (VStr "values") (VInt 1) w =
       (Raise (mkExn (UserError "CustomError")
                 "cannot set values for [values]"), w)
  /\ ProxyObject_setitem 1%nat (VStr "values") (VInt 1) w = (Ok tt, w).
Proof. repeat split; reflexivity. Qed.

(** ** Sorting *)

Lemma res_map_length {A B} (f : A -> res B) l r :
  res_map f l = Ok r -> List.length r = List.length l.
Proof.
  revert r. induction l as [|x l IH]; cbn; intros r.
  - now intros [= <-].
  - destruct (f x); cbn; [|discriminate].
    destruct (res_map f l); cbn; [|discriminate].
    intros [= <-]. cbn. f_equal. now apply IH.
Qed.

Section SortingFacts.
Context {A : Type}.
Variable lt : A -> A -> res bool.

Lemma insert_sorted_perm x s r :
  insert_sorted lt x s = Ok r -> Permutation (x :: s) r.
Proof.
  revert r. induction s as [|y ys IH]; cbn; intros r.
  - now intros [= <-].
  - destruct (lt x y) as [[|]|]; cbn; try discriminate.
    + now intros [= <-].
    + destruct (insert_sorted lt x ys); cbn; [|discriminate].
      intros [= <-]. rewrite perm_swap. now constructor; apply IH.
Qed.

Lemma sort_into_perm l : forall acc r,
  sort_into lt acc l = Ok r -> Permutation (acc ++ l) r.
Proof.
  induction l as [|x xs IH]; cbn; intros acc r.
  - intros [= <-]. now rewrite app_nil_r.
  - destruct (insert_sorted lt x acc) as [acc'|] eqn:E; cbn; [|discriminate].
    intros H. apply IH in H. apply insert_sorted_perm in E.
    rewrite <- H. rewrite <- E.
    rewrite <- Permutation_middle. reflexivity.
Qed.

Lemma sort_reverse_perm reverse l r :
  sort_reverse lt reverse l = Ok r -> Permutation l r.
Proof.
  unfold sort_reverse, stable_sort. destruct reverse.
  - destruct (sort_into lt [] (rev l)) as [r'|] eqn:E; cbn; [|discriminate].
    intros [= <-]. apply sort_into_perm in E. cbn in E.
    rewrite <- Permutation_rev. rewrite <- E. apply Permutation_rev.
  - intros H. now apply sort_into_perm in H.
Qed.

(** The sort returns when every comparison it may make returns. *)
Variable S : A -> Prop.
Hypothesis lt_total : forall x y, S x -> S y -> exists b, lt x y = Ok b.

Lemma insert_sorted_ok x s :
  S x -> Forall S s -> exists r, insert_sorted lt x s = Ok r.
Proof.
  intros Hx. induction 1 as [|y ys Hy _ IH]; cbn; [eauto|].
  destruct (lt_total x y Hx Hy) as [[|] ->]; cbn; [eauto|].
  destruct IH as [r ->]. cbn. eauto.
Qed.

Lemma sort_into_ok l : forall acc,
  Forall S acc -> Forall S l -> exists r, sort_into lt acc l = Ok r.
Proof.
  induction l as [|x xs IH]; cbn; intros acc Hacc Hl; [eauto|].
  inversion Hl; subst.
  destruct (insert_sorted_ok x acc) as [acc' E]; auto.
  rewrite E. cbn. apply IH; auto.
  apply insert_sorted_perm in E.
  eapply Permutation_Forall; [exact E|]. now constructor.
Qed.

Lemma sort_reverse_ok reverse l :
  Forall S l -> exists r, sort_reverse lt reverse l = Ok r.
Proof.
  intros Hl. unfold sort_reverse, stable_sort. destruct reverse.
  - destruct (sort_into_ok (rev l) []) as [r ->]; auto.
    + eapply Permutation_Forall; [apply Permutation_rev|]. exact Hl.
    + cbn. eauto.
  - now apply sort_into_ok.
Qed.
End SortingFacts.

Lemma map_snd_combine {A B} (l1 : list A) : forall (l2 : list B),
  List.length l1 = List.length l2 -> map snd (combine l1 l2) = l2.
Proof.
  induction l1 as [|x l1 IH]; intros [|y l2]; cbn; try discriminate; auto.
  intros [= H]. f_equal. now apply IH.
Qed.

Lemma py_sorted_perm {A} (l : list A) key reverse r :
  py_sorted l key reverse = Ok r -> Permutation l r.
Proof.
  unfold py_sorted.
  destruct (res_map key l) as [ks|] eqn:Ek; cbn; [|discriminate].
  destruct (sort_reverse _ reverse (combine ks l)) as [s|] eqn:Es; cbn;
    [|discriminate].
  intros [= <-]. apply sort_reverse_perm in Es.
  apply res_map_length in Ek.
  rewrite <- (map_snd_combine ks l Ek) at 1.
  now apply Permutation_map.
Qed.

Lemma sort_against_incl {A} (l1 : list A) l2 reverse key x :
  In x (sort_against l1 l2 reverse key) -> In x l1.
Proof.
  unfold sort_against.
  destruct (py_sorted _ _ reverse) as [r|] eqn:E; [|auto].
  intros Hin. apply py_sorted_perm in E.
  apply in_map_iff in Hin as [[a b] [<- Hin]].
  apply (Permutation_in _ (Permutation_sym E)) in Hin.
  now apply in_combine_r in Hin.
Qed.

Lemma sort_against_length {A} (l1 : list A) l2 reverse key :
  (List.length l1 <= List.length l2)%nat ->
  List.length (sort_against l1 l2 reverse key) = List.length l1.
Proof.
  intros Hle. unfold sort_against.
  destruct (py_sorted _ _ reverse) as [r|] eqn:E; [|reflexivity].
  apply py_sorted_perm in E. apply Permutation_length in E.
  rewrite length_map, <- E, length_combine. lia.
Qed.

Lemma orderable_spec l :
  orderable l = true ->
  forall x y, In x l -> In y l -> exists b, py_lt x y = Ok b.
Proof.
  unfold orderable. intros H x y Hx Hy.
  rewrite forallb_forall in H. specialize (H x Hx).
  rewrite forallb_forall in H. specialize (H y Hy).
  destruct (py_lt x y); [eauto|discriminate].
Qed.

Lemma all_string_orderable l : all_string l = true -> orderable l = true.
Proof.
  unfold all_string, orderable. intros H.
  rewrite forallb_forall in *. intros x Hx.
  rewrite forallb_forall. intros y Hy.
  pose proof (H x Hx) as Ex. pose proof (H y Hy) as Ey.
  destruct x; try discriminate. destruct y; try discriminate. reflexivity.
Qed.

Lemma res_map_fst_ok {A} (l : list (pyval * A)) :
  res_map (fun x => Ok (fst x)) l = Ok (map fst l).
Proof.
  induction l as [|x l IH]; cbn; [reflexivity|]. now rewrite IH.
Qed.

(** With keys that can be ordered, [sort_against] does sort: its result
    is as long as the shorter of the two lists. *)
Lemma sort_against_orderable_length {A} (l1 : list A) l2 reverse :
  orderable l2 = true ->
  List.length (sort_against l1 l2 reverse None) =
    Nat.min (List.length l2) (List.length l1).
Proof.
  intros Hord. unfold sort_against, py_sorted.
  rewrite res_map_fst_ok. cbn [res_bind].
  destruct (sort_reverse_ok
              (fun p q : pyval * (pyval * A) => py_lt (fst p) (fst q))
              (fun p => In (fst p) l2)
              ltac:(intros x y Hx Hy; eapply orderable_spec; eauto)
              reverse
              (combine (map fst (combine l2 l1)) (combine l2 l1)))
    as [r Hr].
  { apply Forall_forall. intros [k p] Hin. cbn.
    apply in_combine_l in Hin. apply in_map_iff in Hin as [[a b] [<- Hin]].
    now apply in_combine_l in Hin. }
  rewrite Hr. cbn [res_bind].
  apply sort_reverse_perm in Hr. apply Permutation_length in Hr.
  rewrite !length_map, <- Hr, !length_combine, length_map, length_combine.
  lia.
Qed.

Lemma forallb_incl {A} (p : A -> bool) (l l' : list A) :
  (forall x, In x l' -> In x l) -> forallb p l = true -> forallb p l' = true.
Proof.
  intros Hincl H. rewrite forallb_forall in *. auto.
Qed.

(** ** Reasoning about computations *)

Lemma wp_bind {A B} (m : M A) (k : A -> M B) Q w :
  wp m (fun r w' => match r with
                    | Ok a => wp (k a) Q w'
                    | Raise e => Q (Raise e) w'
                    end) w ->
  wp (bind m k) Q w.
Proof. unfold wp, bind. destruct (m w) as [[a|e] w']; cbn; auto. Qed.

Lemma wp_ret {A} (a : A) Q w : Q (Ok a) w -> wp (ret a) Q w.
Proof. auto. Qed.

Lemma wp_raise {A} e (Q : res A -> world -> Prop) w :
  Q (Raise e) w -> wp (raise e) Q w.
Proof. auto. Qed.

Lemma wp_lift {A} (r : res A) Q w : Q r w -> wp (lift r) Q w.
Proof. auto. Qed.

Lemma wp_gets {A} (f : world -> A) Q w : Q (Ok (f w)) w -> wp (gets f) Q w.
Proof. auto. Qed.

Lemma wp_modify f Q w : Q (Ok tt) (f w) -> wp (modify f) Q w.
Proof. auto. Qed.

Lemma wp_emit ev Q w :
  Q (Ok tt) (set_log (log w ++ [ev]) w) -> wp (emit ev) Q w.
Proof. auto. Qed.

Lemma wp_alloc o Q w :
  Q (Ok (List.length (heap w))) (set_heap (heap w ++ [o]) w) ->
  wp (alloc o) Q w.
Proof. auto. Qed.

Lemma wp_store l o Q w :
  Q (Ok tt) (set_heap (replace_nth l o (heap w)) w) -> wp (store l o) Q w.
Proof. auto. Qed.

Lemma wp_deref l Q w :
  (forall o, nth_error (heap w) l = Some o -> Q (Ok o) w) ->
  (nth_error (heap w) l = None -> Q (Raise dangling) w) ->
  wp (deref l) Q w.
Proof.
  unfold wp, deref. destruct (nth_error (heap w) l); cbn; auto.
Qed.

Lemma wp_conseq {A} (m : M A) (Q Q' : res A -> world -> Prop) w :
  wp m Q w -> (forall r w', Q r w' -> Q' r w') -> wp m Q' w.
Proof. unfold wp. auto. Qed.

Lemma wp_run {A} (m : M A) Q w r w' : wp m Q w -> m w = (r, w') -> Q r w'.
Proof. unfold wp. intros H E. now rewrite E in H. Qed.

Lemma wp_returns {A} (m : M A) (P : world -> Prop) w a :
  wp m (fun r w' => r = Ok a /\ P w') w ->
  exists w', run m w = (Ok a, w') /\ P w'.
Proof.
  unfold wp, run. destruct (m w) as [r w']. cbn. intros [-> H]. eauto.
Qed.

(** From a [wp] fact [P] about a computation and a run [H] of it, the
    postcondition at the outcome of the run. *)
Ltac use_wp P H X :=
  pose proof P as X; unfold wp in X; unfold run in H;
  rewrite H in X; cbn [fst snd returning] in X.

Lemma wp_try_pass m Q w :
  wp m (fun r w' => Q (Ok tt) w') w -> wp (try_pass m) Q w.
Proof.
  unfold wp, try_pass. cbv beta. destruct (m w) as [[[]|e] w']; cbn; auto.
Qed.

(** Projections of updated states are computed away. *)
Ltac simpl_world :=
  cbn [heap log source_model names remote title header0 previous_sort _data
       showndata total_rows rows_loaded keys sizes types letters scores view
       readonly dictfilter horizontalHeader proxy_model pattern
       set_heap set_log set_source_model set_names set_remote set_title
       set_header0 set_previous_sort set__data set_showndata set_total_rows
       set_rows_loaded set_keys set_sizes set_types set_letters set_scores
       set_view set_readonly set_dictfilter set_pattern fst snd].

Ltac simpl_world_all :=
  cbn [heap log source_model names remote title header0 previous_sort _data
       showndata total_rows rows_loaded keys sizes types letters scores view
       readonly dictfilter horizontalHeader proxy_model pattern
       set_heap set_log set_source_model set_names set_remote set_title
       set_header0 set_previous_sort set__data set_showndata set_total_rows
       set_rows_loaded set_keys set_sizes set_types set_letters set_scores
       set_view set_readonly set_dictfilter set_pattern fst snd] in *.

(** One step through the text of a computation. *)
Ltac wp_step :=
  lazymatch goal with
  | |- wp (bind _ _) _ _ => apply wp_bind
  | |- wp (ret _) _ _ => apply wp_ret
  | |- wp (raise _) _ _ => apply wp_raise
  | |- wp (lift _) _ _ => apply wp_lift
  | |- wp (gets _) _ _ => apply wp_gets
  | |- wp get_data _ _ => apply wp_gets
  | |- wp (modify _) _ _ => apply wp_modify
  | |- wp (emit _) _ _ => apply wp_emit
  | |- wp reset _ _ => apply wp_emit
  | |- wp (alloc _) _ _ => apply wp_alloc
  | |- wp (store _ _) _ _ => apply wp_store
  | |- wp (deref _) _ _ => apply wp_deref; [intros ? ?|intros ?]
  | |- wp (isinstance _ _) _ _ => unfold isinstance
  | |- wp (append_title _) _ _ => apply wp_modify
  | |- wp (when ?b _) _ _ => unfold when
  | |- wp (if ?b then _ else _) _ _ =>
      first [ let v := eval cbv in b in
              lazymatch v with
              | true => change b with true
              | false => change b with false
              end
            | destruct b eqn:? ]
  | |- wp (match ?x with _ => _ end) _ _ => destruct x eqn:?
  | |- wp (try_pass _) _ _ => apply wp_try_pass
  | |- match ?x with _ => _ end => destruct x eqn:?
  end; cbn beta iota; simpl_world; cbn [negb andb orb].

Ltac wp_steps := repeat (wp_step; try exact I).

(** ** Reading does not change the state *)

Lemma py_getattr_pure obj key w : snd (py_getattr obj key w) = w.
Proof.
  unfold py_getattr. destruct key; try reflexivity.
  unfold bind, deref. destruct (nth_error (heap w) obj) as [[]|];
    try reflexivity.
  cbn. destruct (find_slot attrs s); reflexivity.
Qed.

Lemma ProxyObject_getitem_pure obj key w :
  snd (ProxyObject_getitem obj key w) = w.
Proof.
  unfold ProxyObject_getitem, try_clauses.
  pose proof (py_getattr_pure obj key w) as H.
  destruct (py_getattr obj key w) as [[v|e] w']; cbn [snd] in *; subst; auto.
  cbn [select_handler]. destruct (caught_by e _); reflexivity.
Qed.

Lemma py_getitem_pure data key w : snd (py_getitem data key w) = w.
Proof.
  unfold py_getitem, bind, deref.
  destruct (nth_error (heap w) data) as [[]|]; try reflexivity.
  - destruct (hashable key); [|reflexivity].
    destruct (dict_get d key); reflexivity.
  - apply ProxyObject_getitem_pure.
Qed.

Lemma mapM_pure {A B} (f : A -> M B) (P : B -> Prop) l w :
  (forall x w, snd (f x w) = w) ->
  (forall x w y, fst (f x w) = Ok y -> P y) ->
  snd (mapM f l w) = w
  /\ forall ys, fst (mapM f l w) = Ok ys ->
       List.length ys = List.length l /\ Forall P ys.
Proof.
  intros Hpure HP. induction l as [|x l [IH1 IH2]]; cbn.
  - split; [reflexivity|]. intros ys [= <-]. auto.
  - unfold bind. specialize (Hpure x w). specialize (HP x w).
    destruct (f x w) as [[y|e] w1]; cbn in *; subst w1.
    + destruct (mapM f l w) as [[ys'|e] w2]; cbn in *; subst w2.
      * split; [reflexivity|]. intros ys [= <-].
        destruct (IH2 ys' eq_refl). cbn. split; [congruence|].
        constructor; auto.
      * split; [reflexivity|]. discriminate.
    + split; [reflexivity|]. discriminate.
Qed.

Lemma wp_mapM_pure {A B} (f : A -> M B) (P : B -> Prop) l Q w :
  (forall x w, snd (f x w) = w) ->
  (forall x w y, fst (f x w) = Ok y -> P y) ->
  (forall ys, List.length ys = List.length l -> Forall P ys -> Q (Ok ys) w) ->
  (forall e, Q (Raise e) w) ->
  wp (mapM f l) Q w.
Proof.
  intros Hpure HP Hok Hraise.
  destruct (mapM_pure f P l w Hpure HP) as [H1 H2].
  unfold wp. rewrite H1.
  destruct (fst (mapM f l w)) as [ys|e]; [|apply Hraise].
  destruct (H2 ys eq_refl). now apply Hok.
Qed.

Lemma range_length a b : List.length (range a b) = Z.to_nat (b - a).
Proof. unfold range. now rewrite length_map, length_seq. Qed.

Lemma len_app {A} (l1 l2 : list A) : len (l1 ++ l2) = len l1 + len l2.
Proof. unfold len. rewrite length_app. lia. Qed.

Lemma len_nonneg {A} (l : list A) : 0 <= len l.
Proof. unfold len. lia. Qed.

Lemma all_string_app l1 l2 :
  all_string l1 = true -> all_string l2 = true ->
  all_string (l1 ++ l2) = true.
Proof. unfold all_string. rewrite forallb_app. now intros -> ->. Qed.

Section ModelFacts.
Context {ext : Externals}.

Lemma load_size_pure (rm : bool) (ks : list pyval) data index w :
  snd ((k <- lift (seq_get ks index) ;;
        v <- py_getitem data k ;;
        if rm then lift (remote_size v) else ret (get_size v)) w) = w.
Proof.
  unfold bind, lift. destruct (seq_get ks index); [|reflexivity].
  pose proof (py_getitem_pure data a w) as H.
  destruct (py_getitem data a w) as [[v|e] w']; cbn in *; subst; auto.
  destruct rm; reflexivity.
Qed.

Lemma load_type_pure (rm : bool) (ks : list pyval) data index w :
  snd ((k <- lift (seq_get ks index) ;;
        v <- py_getitem data k ;;
        if rm then lift (remote_type v)
        else ret (VStr (get_human_readable_type v))) w) = w.
Proof.
  unfold bind, lift. destruct (seq_get ks index); [|reflexivity].
  pose proof (py_getitem_pure data a w) as H.
  destruct (py_getitem data a w) as [[v|e] w']; cbn in *; subst; auto.
  destruct rm; reflexivity.
Qed.

Lemma load_type_is_str (rm : bool) (ks : list pyval) data index w y :
  fst ((k <- lift (seq_get ks index) ;;
        v <- py_getitem data k ;;
        if rm then lift (remote_type v)
        else ret (VStr (get_human_readable_type v))) w) = Ok y ->
  is_str y = true.
Proof.
  unfold bind, lift. destruct (seq_get ks index); [|discriminate].
  destruct (py_getitem data a w) as [[v|e] w']; cbn; [|discriminate].
  destruct rm; cbn.
  - destruct v; cbn; try discriminate. now intros [= <-].
  - now intros [= <-].
Qed.

(** What [set_size_and_type] leaves: on return, as many new sizes and
    types as there are rows in the range, the types being texts; when
    it raises, the state it started from. *)
Lemma set_size_and_type_reload Q w :
  (forall ns nt,
      List.length ns = Z.to_nat (rows_loaded w) ->
      List.length nt = Z.to_nat (rows_loaded w) ->
      all_string nt = true ->
      Q (Ok tt) (set_types nt (set_sizes ns w))) ->
  (forall e, Q (Raise e) w) ->
  wp (set_size_and_type None None) Q w.
Proof.
  intros Hok Hraise. unfold set_size_and_type.
  wp_steps.
  apply wp_mapM_pure with (P := fun _ => True); auto;
    [intros; apply load_size_pure|].
  intros ns Hlen _. wp_steps.
  apply wp_mapM_pure with (P := fun y => is_str y = true); auto;
    [intros; apply load_type_pure
    |intros; eapply load_type_is_str; eauto|].
  intros nt Hlen' Hstr. wp_steps.
  rewrite range_length, Z.sub_0_r in *.
  apply Hok; auto.
  unfold all_string. rewrite forallb_forall.
  now apply Forall_forall.
Qed.

Lemma set_size_and_type_more a b Q w :
  (forall ns nt,
      List.length ns = Z.to_nat (b - a) ->
      List.length nt = Z.to_nat (b - a) ->
      all_string nt = true ->
      Q (Ok tt) (set_types (types w ++ nt) (set_sizes (sizes w ++ ns) w))) ->
  (forall e, Q (Raise e) w) ->
  wp (set_size_and_type (Some a) (Some b)) Q w.
Proof.
  intros Hok Hraise. unfold set_size_and_type.
  wp_steps.
  apply wp_mapM_pure with (P := fun _ => True); auto;
    [intros; apply load_size_pure|].
  intros ns Hlen _. wp_steps.
  apply wp_mapM_pure with (P := fun y => is_str y = true); auto;
    [intros; apply load_type_pure
    |intros; eapply load_type_is_str; eauto|].
  intros nt Hlen' Hstr. wp_steps.
  rewrite range_length in *.
  apply Hok; auto.
  unfold all_string. rewrite forallb_forall.
  now apply Forall_forall.
Qed.
End ModelFacts.

(** ** Writing to containers changes the heap only *)

Lemma heap_only_bind {A B} (m : M A) (k : A -> M B) :
  heap_only m -> (forall a, heap_only (k a)) -> heap_only (bind m k).
Proof.
  intros Hm Hk w. unfold bind. specialize (Hm w).
  destruct (m w) as [[a|e] w1]; cbn [snd] in *; [|exact Hm].
  specialize (Hk a w1). rewrite Hk. rewrite Hm at 2. reflexivity.
Qed.

Lemma set_heap_same w : set_heap (heap w) w = w.
Proof. now destruct w. Qed.

Lemma heap_only_pure {A} (m : M A) :
  (forall w, snd (m w) = w) -> heap_only m.
Proof. intros H w. rewrite H. symmetry. apply set_heap_same. Qed.

Lemma heap_only_store l o : heap_only (store l o).
Proof. intros w. reflexivity. Qed.

Lemma heap_only_deref_then {A} l (k : pyobj -> M A) :
  (forall o, heap_only (k o)) -> heap_only (bind (deref l) k).
Proof.
  intros Hk. apply heap_only_bind; [|exact Hk].
  apply heap_only_pure. intros w. unfold deref.
  destruct (nth_error (heap w) l); reflexivity.
Qed.

Lemma heap_only_raise {A} e : heap_only (@raise A e).
Proof. now apply heap_only_pure. Qed.

Lemma heap_only_ret {A} (a : A) : heap_only (ret a).
Proof. now apply heap_only_pure. Qed.

Lemma heap_only_lift {A} (r : res A) : heap_only (lift r).
Proof. now apply heap_only_pure. Qed.

Lemma heap_only_try_clauses {A} (m : M A) clauses :
  heap_only m ->
  (forall e h, select_handler e clauses = Some h -> heap_only h) ->
  heap_only (try_clauses m clauses).
Proof.
  intros Hm Hh w. unfold try_clauses. specialize (Hm w).
  destruct (m w) as [[a|e] w1]; cbn [snd] in *; [exact Hm|].
  destruct (select_handler e clauses) as [h|] eqn:E; [|exact Hm].
  specialize (Hh e h E w1). rewrite Hh. rewrite Hm at 2. reflexivity.
Qed.

Lemma heap_only_py_setattr obj key value : heap_only (py_setattr obj key value).
Proof.
  unfold py_setattr. destruct key; try apply heap_only_raise.
  apply heap_only_deref_then. intros [];
    try apply heap_only_raise.
  destruct (find_slot attrs s) as [[? [|]]|];
    first [apply heap_only_raise | apply heap_only_store].
Qed.

Lemma heap_only_ProxyObject_setitem obj key value :
  heap_only (ProxyObject_setitem obj key value).
Proof.
  unfold ProxyObject_setitem. apply heap_only_try_clauses.
  - apply heap_only_py_setattr.
  - intros e h. cbn [select_handler].
    destruct (caught_by e [TypeError; AttributeError; NotImplementedError]).
    + intros [= <-]. apply heap_only_ret.
    + destruct (caught_by e [Exception]); [|discriminate].
      intros [= <-]. destruct (negb _);
        [apply heap_only_raise | apply heap_only_ret].
Qed.

Lemma heap_only_py_setitem data key value :
  heap_only (py_setitem data key value).
Proof.
  unfold py_setitem. apply heap_only_deref_then. intros [];
    try apply heap_only_raise.
  - destruct key; try apply heap_only_raise.
    apply heap_only_bind; [apply heap_only_lift|].
    intros. apply heap_only_store.
  - destruct (hashable key);
      [apply heap_only_store | apply heap_only_raise].
  - apply heap_only_ProxyObject_setitem.
Qed.

Lemma wp_heap_only {A} (m : M A) (Q : res A -> world -> Prop) w :
  heap_only m -> (forall r h, Q r (set_heap h w)) -> wp m Q w.
Proof. intros Hm HQ. unfold wp. rewrite Hm. apply HQ. Qed.

Lemma seq_set_length {A} (l : list A) i x l' :
  seq_set l i x = Ok l' -> List.length l' = List.length l.
Proof.
  unfold seq_set. destruct (norm_index (len l) i) as [j|]; [|discriminate].
  intros [= <-]. revert j. induction l as [|h t IH]; intros [|j]; cbn; auto.
Qed.

Lemma replace_nth_forallb {A} (p : A -> bool) (l : list A) j x :
  p x = true -> forallb p l = true -> forallb p (replace_nth j x l) = true.
Proof.
  intros Hx. revert j. induction l as [|h t IH]; intros [|j]; cbn; auto.
  - rewrite !andb_true_iff. intros [_ ?]. auto.
  - rewrite !andb_true_iff. intros [? ?]. auto.
Qed.

Lemma seq_set_all_string (l : list pyval) i x l' :
  is_str x = true -> all_string l = true ->
  seq_set l i x = Ok l' -> all_string l' = true.
Proof.
  unfold seq_set, all_string. intros Hx Hl.
  destruct (norm_index (len l) i) as [j|]; [|discriminate].
  intros [= <-]. now apply replace_nth_forallb.
Qed.

Lemma all_string_perm l l' :
  Permutation l l' -> all_string l = true -> all_string l' = true.
Proof.
  intros Hp. apply forallb_incl. intros x Hx.
  eapply Permutation_in; [apply Permutation_sym; exact Hp|exact Hx].
Qed.

Lemma assign_prefix_length {A} (l : list A) n new :
  0 <= n <= len l ->
  len (assign_prefix l n new) = len new + len l - n.
Proof.
  intros Hn. unfold assign_prefix.
  destruct (n <? 0) eqn:E; [rewrite Z.ltb_lt in E; lia|].
  rewrite len_app. unfold len in *. rewrite length_skipn. lia.
Qed.

Lemma sort_against_len {A} (l1 : list A) l2 reverse key :
  len l1 <= len l2 -> len (sort_against l1 l2 reverse key) = len l1.
Proof.
  unfold len. intros H. rewrite sort_against_length; lia.
Qed.

Lemma sort_against_orderable_len {A} (l1 : list A) l2 reverse :
  orderable l2 = true ->
  len (sort_against l1 l2 reverse None) = Z.min (len l2) (len l1).
Proof.
  unfold len. intros H. rewrite sort_against_orderable_length; auto. lia.
Qed.

Lemma sort_against_all_string l1 l2 reverse key :
  all_string l1 = true -> all_string (sort_against l1 l2 reverse key) = true.
Proof.
  apply forallb_incl. intros x. apply sort_against_incl.
Qed.

Lemma perm_len {A} (l l' : list A) : Permutation l l' -> len l' = len l.
Proof. unfold len. intros H. now rewrite (Permutation_length H). Qed.

(** Steps through the text of the model's methods. *)
Ltac wp_model :=
  repeat (first
    [ wp_step
    | lazymatch goal with
      | |- wp (update_search_letters _) _ _ => unfold update_search_letters
      | |- wp (set_size_and_type None None) _ _ =>
          apply set_size_and_type_reload;
          [intros ?ns ?nt ?Hns ?Hnt ?Hstr|intros ?e]
      | |- wp (set_size_and_type (Some _) (Some _)) _ _ =>
          apply set_size_and_type_more;
          [intros ?ns ?nt ?Hns ?Hnt ?Hstr|intros ?e]
      end ];
    try exact I).

Section ModelInvariant.
Context {ext : Externals}.

(** The end of [set_data], from the title on, once the keys are set. *)
Lemma set_data_rows_establish data w :
  wp (d <- gets _data ;;
      od <- deref d ;;
      ks <- gets keys ;;
      (if negb (is_proxy od)
       then
         let elements :=
           (if len ks >? 1 then "elements" else "element")%string in
         append_title (String.append " ("
                         (String.append (to_text_string (VInt (len ks)))
                            (String.append " "
                               (String.append elements ")"))))
       else
         op <- deref data ;;
         append_title (get_type_string op)) ;;
      modify (set_total_rows (len ks)) ;;
      total <- gets total_rows ;;
      (if total >? LARGE_NROWS
       then modify (set_rows_loaded ROWS_TO_LOAD)
       else modify (set_rows_loaded total)) ;;
      emit sig_setting_data ;;
      set_size_and_type None None ;;
      ks <- gets keys ;;
      when (negb (len ks =? 0)) (update_search_letters EmptyString) ;;
      reset)
    (returning (fun _ w' =>
       in_step w'
       /\ total_rows w' = len (keys w')
       /\ rows_loaded w' =
            (if total_rows w' >? LARGE_NROWS then ROWS_TO_LOAD
             else total_rows w')
       /\ keys w' = keys w
       /\ _data w' = _data w
       /\ showndata w' = showndata w
       /\ heap w' = heap w
       /\ previous_sort w' = previous_sort w)) w.
Proof.
  wp_model.
  all: unfold returning, in_step, lockstep; simpl_world_all.
  all: match goal with
       | H : (_ >? LARGE_NROWS) = true |- _ =>
           rewrite H; rewrite Z.gtb_ltb, Z.ltb_lt in H
       | H : (_ >? LARGE_NROWS) = false |- _ =>
           rewrite H; rewrite Z.gtb_ltb, Z.ltb_ge in H
       end.
  all: unfold LARGE_NROWS, ROWS_TO_LOAD, len in *.
  all: repeat split; try assumption; try reflexivity;
    rewrite ?Hns, ?Hnt; lia.
Qed.

Lemma set_data_establishes data coll_filter w :
  wp (set_data data coll_filter)
    (returning (fun _ w' =>
       in_step w'
       /\ total_rows w' = len (keys w')
       /\ rows_loaded w' =
            if total_rows w' >? LARGE_NROWS then ROWS_TO_LOAD
            else total_rows w')) w.
Proof.
  unfold set_data.
  repeat (wp_step; try exact I;
          try (eapply wp_conseq;
               [apply set_data_rows_establish|
                intros [] ?; unfold returning; tauto])).
Qed.
Lemma fetchMore_preserves n w :
  in_step w ->
  match n with Some k => 0 <= k | None => True end ->
  wp (fetchMore n)
    (returning (fun _ w' =>
       in_step w'
       /\ total_rows w' = total_rows w
       /\ rows_loaded w <= rows_loaded w'
       /\ keys w' = keys w)) w.
Proof.
  intros [(Hs & Ht & Hle & Hk) Hstr] Hn. unfold fetchMore.
  wp_model.
  - unfold returning, in_step, lockstep. repeat split; auto; lia.
  - unfold returning, in_step, lockstep; simpl_world_all.
    rewrite Z.leb_gt in *. rewrite !len_app.
    match type of Hns with
    | _ = Z.to_nat (_ + ?x - _) =>
        assert (Hitems : 0 <= x <= total_rows w - rows_loaded w)
          by (destruct n; unfold ROWS_TO_LOAD; lia);
        generalize dependent x
    end.
    intros items Hns Hnt Hitems.
    unfold len in *. rewrite Hns, Hnt.
    repeat split; try lia.
    now apply all_string_app.
Qed.

Lemma set_value_preserves index value w :
  in_step w ->
  wp (set_value index value)
    (returning (fun _ w' =>
       in_step w'
       /\ total_rows w' = total_rows w
       /\ rows_loaded w' = rows_loaded w
       /\ keys w' = keys w)) w.
Proof.
  intros [(Hs & Ht & Hle & Hk) Hstr]. unfold set_value.
  wp_model.
  apply wp_heap_only; [apply heap_only_py_setitem|].
  intros [[]|] h; [|exact I]. wp_model.
  apply wp_heap_only; [apply heap_only_py_setitem|].
  intros [[]|] h'; [|exact I]. wp_model.
  unfold returning, in_step, lockstep; simpl_world.
  repeat match goal with
         | H : seq_set _ _ _ = Ok _ |- _ =>
             pose proof (seq_set_length _ _ _ _ H);
             try pose proof (seq_set_all_string (types w) _ (VStr _) _
                               eq_refl Hstr H);
             clear H
         end.
  unfold len in *. repeat split; auto; lia.
Qed.

(** An in-place sort leaves a rearrangement of the list, whether it
    completes or not. *)
Lemma wp_sort_in_place get set key reverse Q w :
  (forall l' r, Permutation (get w) l' -> Q r (set l' w)) ->
  wp (sort_in_place get set key reverse) Q w.
Proof.
  intros HQ. unfold sort_in_place. wp_step. wp_step.
  destruct (py_sorted (get w) key reverse) as [r|e] eqn:E.
  - wp_step. apply HQ. now apply py_sorted_perm in E.
  - wp_step. wp_step. wp_step. apply HQ. apply sort_residue_perm.
Qed.

(** An in-place sort that completes leaves what [sorted] returns. *)
Lemma wp_sort_in_place_result get set key reverse Q w :
  (forall l' r,
     Permutation (get w) l' ->
     (forall s, py_sorted (get w) key reverse = Ok s -> l' = s) ->
     Q r (set l' w)) ->
  wp (sort_in_place get set key reverse) Q w.
Proof.
  intros HQ. unfold sort_in_place. wp_step. wp_step.
  destruct (py_sorted (get w) key reverse) as [r|e] eqn:E.
  - wp_step. apply HQ; [now apply py_sorted_perm in E|].
    now intros s [= <-].
  - wp_step. wp_step. wp_step.
    apply HQ; [apply sort_residue_perm|discriminate].
Qed.
End ModelInvariant.

Ltac wp_sort :=
  repeat (first
    [ wp_step
    | lazymatch goal with
      | |- wp (sort_in_place _ _ _ _) _ _ =>
          apply wp_sort_in_place; intros ?l' ?r ?Hperm
      | |- wp (mapM _ _) _ _ =>
          apply wp_mapM_pure with (P := fun _ => True);
          [intros; apply py_getitem_pure|auto
          |intros ?values ?Hvalues _|intros ?e; try exact I]
      | |- wp (py_keys _) _ _ => unfold py_keys
      | |- wp (set_size_and_type None None) _ _ =>
          apply set_size_and_type_reload;
          [intros ?ns ?nt ?Hns ?Hnt ?Hstr|intros ?e]
      end ];
    try exact I).

Section SortInvariant.
Context {ext : Externals}.

Lemma sort_preserves c o w :
  in_step w ->
  admissible (Sort c o) w ->
  wp (sort c o)
    (returning (fun _ w' =>
       in_step w'
       /\ total_rows w' = total_rows w
       /\ rows_loaded w' = rows_loaded w)) w.
Proof.
  intros [(Hs & Ht & Hle & Hk) Hstr] [Hsize Hdict]. unfold sort.
  pose proof (len_nonneg (sizes w)) as Hpos.
  wp_sort.
  all: unfold returning, in_step, lockstep; simpl_world_all.
  all: rewrite ?Z.eqb_eq in *.
  - (* the header is asked to clear the indicator *)
    repeat split; auto.
  - (* column -1 *)
    unfold len in *. rewrite length_map, Hns, Hnt.
    repeat split; auto; try lia.
    match goal with
    | H : nth_error _ _ = Some (ODict ?d) |- _ =>
        specialize (Hdict ltac:(assumption) d H)
    end.
    unfold len in Hdict. lia.
  - (* column 0 *)
    rewrite !sort_against_len by lia.
    rewrite (perm_len _ _ Hperm).
    repeat split; auto. now apply sort_against_all_string.
  - (* column 1 *)
    rewrite sort_against_len by lia.
    rewrite (perm_len _ _ Hperm).
    rewrite assign_prefix_length by lia.
    rewrite sort_against_orderable_len by now apply all_string_orderable.
    repeat split; auto; try lia.
    eapply all_string_perm; eauto.
  - (* column 2 *)
    rewrite sort_against_len by lia.
    rewrite (perm_len _ _ Hperm).
    rewrite assign_prefix_length by lia.
    assert (Hnew : len (sort_against (keys w) (sizes w)
                          (SortOrder_eqb o DescendingOrder) None)
                   = rows_loaded w).
    { destruct (Hsize ltac:(assumption)) as [Hfull|Hord].
      - rewrite sort_against_len by lia. lia.
      - rewrite sort_against_orderable_len by assumption. lia. }
    rewrite Hnew.
    repeat split; auto; try lia.
    now apply sort_against_all_string.
  - (* columns 3 and 4 *)
    assert (Hv : len values = len (keys w)) by (unfold len; lia).
    rewrite !sort_against_len by lia.
    repeat split; auto. now apply sort_against_all_string.
  - (* any other column *)
    repeat split; auto.
Qed.
(** [sort] touches neither the row counts nor the heap, whether it
    returns or raises. *)
Lemma sort_frame c o w :
  wp (sort c o)
    (fun _ w' =>
       rows_loaded w' = rows_loaded w
       /\ total_rows w' = total_rows w
       /\ heap w' = heap w
       /\ _data w' = _data w
       /\ same_setup w w') w.
Proof.
  unfold sort. wp_sort.
  all: unfold same_setup; simpl_world; repeat split; reflexivity.
Qed.

Lemma set_value_frame index value w :
  wp (set_value index value)
    (fun _ w' =>
       rows_loaded w' = rows_loaded w
       /\ total_rows w' = total_rows w
       /\ _data w' = _data w
       /\ same_setup w w') w.
Proof.
  unfold set_value.
  repeat (first
    [ wp_step
    | lazymatch goal with
      | |- wp (py_setitem _ _ _) _ _ =>
          apply wp_heap_only; [apply heap_only_py_setitem|];
          intros [[]|?e] ?h
      end ]).
  all: unfold same_setup; simpl_world; repeat split; reflexivity.
Qed.

Lemma fetchMore_frame n w :
  wp (fetchMore n)
    (fun r w' =>
       total_rows w' = total_rows w
       /\ heap w' = heap w
       /\ _data w' = _data w
       /\ same_setup w w'
       /\ (rows_loaded w' = rows_loaded w
           \/ r = Ok tt
              /\ rows_loaded w < total_rows w
              /\ rows_loaded w' =
                   rows_loaded w
                   + Z.min (total_rows w - rows_loaded w)
                       match n with Some k => k | None => ROWS_TO_LOAD end))
    w.
Proof.
  unfold fetchMore.
  repeat (first
    [ wp_step
    | lazymatch goal with
      | |- wp (set_size_and_type (Some _) (Some _)) _ _ =>
          apply set_size_and_type_more;
          [intros ?ns ?nt ?Hns ?Hnt ?Hstr|intros ?e]
      end ]).
  all: unfold same_setup; simpl_world; repeat split; auto.
  right. rewrite Z.leb_gt in *. destruct n; repeat split; auto; lia.
Qed.
End SortInvariant.

(** ** When [set_data] returns *)

Lemma in_range a b x : In x (range a b) -> a <= x < b.
Proof.
  unfold range. intros H. apply in_map_iff in H as [i [<- Hi]].
  apply in_seq in Hi. lia.
Qed.

Lemma wp_mapM_total {A B} (f : A -> M B) (P : B -> Prop) l Q w :
  (forall x w, snd (f x w) = w) ->
  (forall x, In x l -> exists y, fst (f x w) = Ok y /\ P y) ->
  (forall ys, List.length ys = List.length l -> Forall P ys -> Q (Ok ys) w) ->
  wp (mapM f l) Q w.
Proof.
  intros Hpure Hok HQ. unfold wp.
  assert (H : exists ys, mapM f l w = (Ok ys, w)
                         /\ List.length ys = List.length l /\ Forall P ys).
  { clear HQ. induction l as [|x l IH]; cbn.
    - exists []. auto.
    - destruct (Hok x (or_introl eq_refl)) as [y [Hy HP]].
      destruct IH as [ys [E [Hlen HF]]]; [intros; apply Hok; now right|].
      exists (y :: ys). unfold bind.
      pose proof (Hpure x w) as Hs.
      destruct (f x w) as [r w1]. cbn in Hy, Hs. subst r w1.
      rewrite E. cbn. repeat split; auto. }
  destruct H as [ys [-> [Hlen HF]]]. cbn. now apply HQ.
Qed.

Lemma py_getitem_heap {ext : Externals} data key w1 w2 :
  heap w1 = heap w2 ->
  fst (py_getitem data key w1) = fst (py_getitem data key w2).
Proof.
  intros Hh. unfold py_getitem, bind, deref. rewrite Hh.
  destruct (nth_error (heap w2) data) as [[]|]; try reflexivity.
  - destruct (hashable key); [|reflexivity].
    destruct (dict_get d key); reflexivity.
  - unfold ProxyObject_getitem, try_clauses, py_getattr.
    destruct key; try reflexivity.
    unfold bind, deref. rewrite Hh.
    destruct (nth_error (heap w2) target) as [[]|]; try reflexivity.
    cbn. destruct (find_slot attrs s); cbn; [|reflexivity].
    destruct (slot_read s0); cbn; [reflexivity|].
    destruct (_ || _); reflexivity.
Qed.

Lemma nth_error_seq_get {A} (l : list A) i :
  0 <= i < len l ->
  exists x, nth_error l (Z.to_nat i) = Some x /\ seq_get l i = Ok x.
Proof.
  intros Hi. unfold seq_get, norm_index.
  destruct (i <? 0) eqn:E1; [rewrite Z.ltb_lt in E1; lia|].
  replace ((0 <=? i) && (i <? len l)) with true
    by (symmetry; apply andb_true_iff; split;
        [apply Z.leb_le|apply Z.ltb_lt]; lia).
  destruct (nth_error l (Z.to_nat i)) as [x|] eqn:E; [eauto|].
  apply nth_error_None in E. unfold len in Hi. lia.
Qed.

Lemma seq_get_range n i :
  0 <= i < n -> seq_get (map VInt (range 0 n)) i = Ok (VInt i).
Proof.
  intros Hi.
  destruct (nth_error_seq_get (map VInt (range 0 n)) i) as [x [Hx ->]].
  { unfold len. rewrite length_map, range_length. lia. }
  f_equal. unfold range in Hx. rewrite !nth_error_map in Hx.
  rewrite nth_error_seq in Hx.
  destruct (Z.to_nat i <? Z.to_nat (n - 0))%nat eqn:E.
  - cbn in Hx. injection Hx as <-. f_equal. lia.
  - apply Nat.ltb_ge in E. lia.
Qed.

Section SetDataReturns.
Context {ext : Externals}.

Lemma readable_sequence h d l :
  nth_error h d = Some (OList l) \/ nth_error h d = Some (OTuple l) ->
  readable h d (map VInt (range 0 (len l))) (len l).
Proof.
  intros Hd i Hi. rewrite (seq_get_range _ _ Hi).
  destruct (nth_error_seq_get l i Hi) as [x [_ Hx]].
  exists (VInt i), x. split; [reflexivity|].
  intros w <-. unfold py_getitem, bind, deref.
  destruct Hd as [-> | ->]; cbn; exact Hx.
Qed.

Lemma dict_get_present d k :
  In k (map fst d) -> exists v, dict_get d k = Some v.
Proof.
  induction d as [|[k' v'] d IH]; cbn; [tauto|].
  intros [<- | Hin].
  - rewrite pyval_eqb_refl. eauto.
  - destruct (pyval_eqb k' k); eauto.
Qed.

Lemma readable_dict h d dd :
  nth_error h d = Some (ODict dd) ->
  forallb hashable (map fst dd) = true ->
  readable h d (map fst dd) (len dd).
Proof.
  intros Hd Hhash i Hi.
  destruct (nth_error_seq_get (map fst dd) i) as [k [Hn Hk]].
  { unfold len in *. now rewrite length_map. }
  apply nth_error_In in Hn.
  destruct (dict_get_present dd k Hn) as [v Hv].
  exists k, v. split; [exact Hk|].
  intros w <-. unfold py_getitem, bind, deref. rewrite Hd.
  rewrite forallb_forall in Hhash. rewrite (Hhash k Hn), Hv. reflexivity.
Qed.

Lemma set_size_and_type_reload_returns Q w :
  remote w = false ->
  readable (heap w) (_data w) (keys w) (rows_loaded w) ->
  (forall ns nt,
      List.length ns = Z.to_nat (rows_loaded w) ->
      List.length nt = Z.to_nat (rows_loaded w) ->
      all_string nt = true ->
      Q (Ok tt) (set_types nt (set_sizes ns w))) ->
  wp (set_size_and_type None None) Q w.
Proof.
  intros Hlocal Hread Hok. unfold set_size_and_type.
  wp_steps. rewrite Hlocal.
  apply wp_mapM_total with (P := fun _ => True).
  { intros x w0; apply (load_size_pure false (keys w) (_data w) x w0). }
  { intros i Hi. apply in_range in Hi.
    destruct (Hread i Hi) as [k [v [Hk Hv]]].
    exists (get_size v). split; [|exact I].
    unfold bind, lift. rewrite Hk.
    pose proof (py_getitem_pure (_data w) k w) as Hp.
    specialize (Hv w eq_refl).
    destruct (py_getitem (_data w) k w) as [r w1]; cbn in *. now subst. }
  intros ns Hlen _. wp_steps.
  apply wp_mapM_total with (P := fun y => is_str y = true).
  { intros x w0; apply (load_type_pure false (keys w) (_data w) x w0). }
  { intros i Hi. apply in_range in Hi.
    destruct (Hread i Hi) as [k [v [Hk Hv]]].
    exists (VStr (get_human_readable_type v)). split; [|reflexivity].
    unfold bind, lift. rewrite Hk.
    pose proof (py_getitem_pure (_data w) k w) as Hp.
    specialize (Hv w eq_refl).
    destruct (py_getitem (_data w) k w) as [r w1]; cbn in *. now subst. }
  intros nt Hlen' Hstr. wp_steps.
  rewrite range_length, Z.sub_0_r in *.
  apply Hok; auto.
  unfold all_string. rewrite forallb_forall. now apply Forall_forall.
Qed.

Lemma readable_fewer h d ks n m :
  m <= n -> readable h d ks n -> readable h d ks m.
Proof. intros Hle H i Hi. apply H. lia. Qed.

(** The end of [set_data] returns when the model is local, its data is
    no proxy and every key can be read. *)
Lemma set_data_rows_return data w od :
  remote w = false ->
  nth_error (heap w) (_data w) = Some od ->
  is_proxy od = false ->
  readable (heap w) (_data w) (keys w) (len (keys w)) ->
  wp (d <- gets _data ;;
      od <- deref d ;;
      ks <- gets keys ;;
      (if negb (is_proxy od)
       then
         let elements :=
           (if len ks >? 1 then "elements" else "element")%string in
         append_title (String.append " ("
                         (String.append (to_text_string (VInt (len ks)))
                            (String.append " "
                               (String.append elements ")"))))
       else
         op <- deref data ;;
         append_title (get_type_string op)) ;;
      modify (set_total_rows (len ks)) ;;
      total <- gets total_rows ;;
      (if total >? LARGE_NROWS
       then modify (set_rows_loaded ROWS_TO_LOAD)
       else modify (set_rows_loaded total)) ;;
      emit sig_setting_data ;;
      set_size_and_type None None ;;
      ks <- gets keys ;;
      when (negb (len ks =? 0)) (update_search_letters EmptyString) ;;
      reset)
    (fun r w' => r = Ok tt /\ loaded_from w w') w.
Proof.
  intros Hlocal Hd Hnp Hread.
  wp_step. wp_step. wp_step. apply wp_deref; [|congruence].
  intros o Ho. rewrite Hd in Ho. injection Ho as <-.
  cbn beta iota. rewrite Hnp. cbn [negb].
  repeat (first
    [ wp_step
    | lazymatch goal with
      | |- wp (update_search_letters _) _ _ => unfold update_search_letters
      | |- wp (set_size_and_type None None) _ _ =>
          apply set_size_and_type_reload_returns;
          [exact Hlocal
          |simpl_world; eapply readable_fewer; [|exact Hread]
          |intros ?ns ?nt ?Hns ?Hnt ?Hstr]
      end ]).
  all: try match goal with
           | H : (_ >? LARGE_NROWS) = true |- _ <= _ =>
               rewrite Z.gtb_ltb, Z.ltb_lt in H;
               unfold LARGE_NROWS, ROWS_TO_LOAD in *; lia
           | |- _ <= _ => lia
           end.
  all: split; [reflexivity|].
  all: unfold loaded_from, same_setup, in_step, lockstep; simpl_world_all.
  all: match goal with
       | H : (_ >? LARGE_NROWS) = true |- _ =>
           rewrite H; rewrite Z.gtb_ltb, Z.ltb_lt in H
       | H : (_ >? LARGE_NROWS) = false |- _ =>
           rewrite H; rewrite Z.gtb_ltb, Z.ltb_ge in H
       end.
  all: unfold LARGE_NROWS, ROWS_TO_LOAD, len in *.
  all: repeat split; try assumption; try reflexivity;
    rewrite ?Hns, ?Hnt; lia.
Qed.
Lemma len_keys_of o : len (keys_of o) = size_of o.
Proof.
  destruct o; cbn; try reflexivity; unfold len;
    rewrite ?length_map, ?range_length; lia.
Qed.

Lemma nth_error_new {A} (h : list A) x :
  nth_error (h ++ [x]) (List.length h) = Some x.
Proof. rewrite nth_error_app2, Nat.sub_diag by lia. reflexivity. Qed.

Lemma wp_deref_known l o Q w :
  nth_error (heap w) l = Some o -> Q (Ok o) w -> wp (deref l) Q w.
Proof. intros H HQ. unfold wp, deref. now rewrite H. Qed.

(** [set_data] returns on a local model given a built-in collection and
    no filter. *)
Lemma set_data_returns data w o :
  remote w = false ->
  nth_error (heap w) data = Some o ->
  plain_collection o ->
  wp (set_data data None)
    (fun r w' =>
       r = Ok tt
       /\ in_step w'
       /\ keys w' = keys_of o
       /\ total_rows w' = size_of o
       /\ rows_loaded w' =
            (if size_of o >? LARGE_NROWS then ROWS_TO_LOAD else size_of o)
       /\ showndata w' = data
       /\ previous_sort w' = previous_sort w
       /\ same_setup w w'
       /\ data_after w data o w') w.
Proof.
  intros Hlocal Hd Hplain. unfold set_data.
  assert (Hfinish : forall w1 : world,
    remote w1 = false ->
    keys w1 = keys_of o ->
    showndata w1 = data ->
    previous_sort w1 = previous_sort w ->
    same_setup w w1 ->
    (exists od, nth_error (heap w1) (_data w1) = Some od
                /\ is_proxy od = false) ->
    readable (heap w1) (_data w1) (keys w1) (len (keys w1)) ->
    data_after w data o w1 ->
    forall r w', (r = Ok tt /\ loaded_from w1 w') ->
      r = Ok tt
      /\ in_step w'
      /\ keys w' = keys_of o
      /\ total_rows w' = size_of o
      /\ rows_loaded w' =
           (if size_of o >? LARGE_NROWS then ROWS_TO_LOAD else size_of o)
      /\ showndata w' = data
      /\ previous_sort w' = previous_sort w
      /\ same_setup w w'
      /\ data_after w data o w').
  { intros w1 _ Hk Hs Hp Hsetup _ _ Hafter r w'
      [-> (Hin & Hk' & Ht & Hr & Hd' & Hh & Hs' & Hp' & Hsetup')].
    rewrite Hk, len_keys_of in *.
    split; [reflexivity|]. split; [exact Hin|].
    repeat (split; [congruence|]).
    split.
    - unfold same_setup in *. intuition congruence.
    - unfold data_after in *. destruct o; intuition congruence. }
  destruct o as [l|l|l|l|d|attrs|target]; try contradiction.
  all: repeat (first
    [ lazymatch goal with
      | |- wp (bind (gets _data) _) _ ?w1 =>
          eapply wp_conseq;
          [eapply (set_data_rows_return _ w1)|apply (Hfinish w1)]
      | |- wp (deref _) _ _ =>
          eapply wp_deref_known;
          [simpl_world; rewrite ?nth_error_new; exact Hd|];
          cbn beta iota
      end
    | wp_step ]).
  all: simpl_world; cbn [keys_of data_after is_proxy].
  all: rewrite ?nth_error_new.
  all: try reflexivity; try exact Hlocal; try exact Hd.
  all: try (unfold same_setup; simpl_world; repeat split; congruence).
  all: try (eexists; split;
            [rewrite ?nth_error_new; try exact Hd; reflexivity
            |reflexivity]).
  all: try (split; reflexivity).
  all: match goal with
       | |- readable _ _ (map VInt (range 0 (len ?l))) _ =>
           replace (len (map VInt (range 0 (len l)))) with (len l)
             by (symmetry; apply (len_keys_of (OList l)));
           apply readable_sequence; rewrite ?nth_error_new; auto
       | |- readable _ _ (map fst ?d) _ =>
           replace (len (map fst d)) with (len d)
             by (symmetry; apply (len_keys_of (ODict d)));
           apply readable_dict; auto
       end.
Qed.
End SetDataReturns.

(** ** The arrays of the model *)

Lemma steps_keep_in_step {ext : Externals} w ops w' :
  steps w ops w' -> in_step w -> in_step w'.
Proof.
  induction 1 as [|w o w1 os w2 Hadm Hrun _ IH]; [auto|].
  intros Hin. apply IH.
  destruct o as [n|c ord|i v]; cbn [run_operation] in Hrun.
  - use_wp (fetchMore_preserves n w Hin Hadm) Hrun X. apply X.
  - use_wp (sort_preserves c ord w Hin Hadm) Hrun X. apply X.
  - use_wp (set_value_preserves i v w Hin) Hrun X. apply X.
Qed.

(** C1, as the code has it: after [set_data], and after any admissible
    sequence of [fetchMore], [sort] and [set_value] calls that return,
    [sizes] and [types] have [rows_loaded] entries, [rows_loaded] is at
    most [total_rows], and [keys] has [total_rows] entries. *)
Theorem paged_arrays_in_step {ext : Externals} :
  forall w0 data coll_filter w1 ops w2,
    run (set_data data coll_filter) w0 = (Ok tt, w1) ->
    steps w1 ops w2 ->
    len (sizes w2) = rows_loaded w2
    /\ len (types w2) = rows_loaded w2
    /\ rows_loaded w2 <= total_rows w2
    /\ len (keys w2) = total_rows w2.
Proof.
  intros w0 data f w1 ops w2 Hinit Hsteps.
  use_wp (set_data_establishes data f w0) Hinit X.
  destruct X as [Hin _].
  apply (steps_keep_in_step _ _ _ Hsteps Hin).
Qed.

Lemma paged_arrays_in_step_witness :
  let w0 := fresh [large_list] CollectionsEditorTableView true None in
  let ops := [FetchMore None; Sort 2 DescendingOrder;
              SetValue (index_at 3) (VStr "x"); Sort 1 AscendingOrder;
              FetchMore (Some 1)] in
  let w2 := snd (run (forM_ ops run_operation) large_model) in
  len (sizes w2) = rows_loaded w2
  /\ len (types w2) = rows_loaded w2
  /\ rows_loaded w2 <= total_rows w2
  /\ len (keys w2) = total_rows w2.
Proof.
  intros w0 ops w2.
  apply (paged_arrays_in_step w0 0%nat None large_model ops w2).
  - vm_compute; reflexivity.
  - subst ops.
    eapply steps_cons; [exact I|vm_compute; reflexivity|].
    eapply steps_cons;
      [split; [intros _; right; vm_compute; reflexivity|discriminate]
      |vm_compute; reflexivity|].
    eapply steps_cons; [exact I|vm_compute; reflexivity|].
    eapply steps_cons;
      [split; discriminate|vm_compute; reflexivity|].
    eapply steps_cons; [vm_compute; discriminate|vm_compute; reflexivity|].
    vm_compute. apply steps_nil.
Defined.

(** C1, as stated, fails: right after [set_data] on a list of 101 entries
    [keys] has 101 entries while 50 rows are loaded. *)
Lemma keys_are_not_paged :
  run (set_data 0%nat None)
    (fresh [large_list] CollectionsEditorTableView true None)
  = (Ok tt, large_model)
  /\ len (keys large_model) = 101
  /\ len (sizes large_model) = 50
  /\ len (types large_model) = 50
  /\ rows_loaded large_model = 50
  /\ total_rows large_model = 101
  /\ len (keys large_model) <> rows_loaded large_model.
Proof. vm_compute. repeat split; discriminate. Qed.

(** C2: after [set_data] the number of loaded rows is [ROWS_TO_LOAD] (50)
    when there are more than [LARGE_NROWS] (100) rows and the number of
    rows otherwise; on a local model given a built-in collection and no
    filter [set_data] returns and the number of rows is the length of the
    collection; [sort] and [set_value] leave the number of loaded rows as
    it is, and [fetchMore] is the call that adds to it. *)
Theorem rows_loaded_rule {ext : Externals} :
  LARGE_NROWS = 100 /\ ROWS_TO_LOAD = 50
  /\ (forall w data coll_filter w',
        run (set_data data coll_filter) w = (Ok tt, w') ->
        total_rows w' = len (keys w')
        /\ rows_loaded w' =
             if total_rows w' >? LARGE_NROWS then ROWS_TO_LOAD
             else total_rows w')
  /\ (forall w data o,
        remote w = false ->
        nth_error (heap w) data = Some o ->
        plain_collection o ->
        exists w',
          run (set_data data None) w = (Ok tt, w')
          /\ total_rows w' = size_of o
          /\ rows_loaded w' =
               if size_of o >? LARGE_NROWS then ROWS_TO_LOAD else size_of o)
  /\ (forall w c o,
        rows_loaded (snd (run (sort c o) w)) = rows_loaded w)
  /\ (forall w i v,
        rows_loaded (snd (run (set_value i v) w)) = rows_loaded w)
  /\ (forall w n r w',
        run (fetchMore n) w = (r, w') ->
        rows_loaded w' = rows_loaded w
        \/ r = Ok tt
           /\ rows_loaded w < total_rows w
           /\ rows_loaded w' =
                rows_loaded w
                + Z.min (total_rows w - rows_loaded w)
                    match n with Some k => k | None => ROWS_TO_LOAD end).
Proof.
  split; [reflexivity|]. split; [reflexivity|].
  split.
  { intros w data f w' Hrun.
    use_wp (set_data_establishes data f w) Hrun X. apply X. }
  split.
  { intros w data o Hlocal Hd Hplain.
    destruct (wp_returns _ _ _ _ (set_data_returns data w o Hlocal Hd Hplain))
      as [w' [Hrun (_ & _ & Ht & Hr & _)]].
    exists w'. repeat split; assumption. }
  split.
  { intros w c o. apply (sort_frame c o w). }
  split.
  { intros w i v. apply (set_value_frame i v w). }
  intros w n r w' Hrun.
  use_wp (fetchMore_frame n w) Hrun X. apply X.
Qed.

Lemma rows_loaded_rule_witness :
  exists w',
    run (set_data 0%nat None)
      (fresh [large_list] CollectionsEditorTableView true None) = (Ok tt, w')
    /\ total_rows w' = 101
    /\ rows_loaded w' = 50.
Proof.
  apply (proj1 (proj2 (proj2 (proj2 rows_loaded_rule)))
           (fresh [large_list] CollectionsEditorTableView true None)
           0%nat large_list); [reflexivity|reflexivity|exact I].
Defined.

(** ** The sort cycle of a dictionary *)

(** ** The order of the sorted names *)

Lemma ascii_compare_trans a b c :
  Ascii.compare a b = Lt -> Ascii.compare b c = Lt -> Ascii.compare a c = Lt.
Proof.
  unfold Ascii.compare. rewrite !N.compare_lt_iff. lia.
Qed.

Lemma ascii_compare_refl a : Ascii.compare a a = Eq.
Proof. unfold Ascii.compare. apply N.compare_refl. Qed.

Lemma string_compare_trans s : forall t u,
  String.compare s t = Lt -> String.compare t u = Lt ->
  String.compare s u = Lt.
Proof.
  induction s as [|a s IH]; intros [|b t] [|c u]; cbn; try discriminate;
    auto.
  destruct (Ascii.compare a b) eqn:Eab; try discriminate;
    destruct (Ascii.compare b c) eqn:Ebc; try discriminate.
  - apply Ascii.compare_eq_iff in Eab, Ebc. subst.
    rewrite ascii_compare_refl. apply IH.
  - apply Ascii.compare_eq_iff in Eab. subst. now rewrite Ebc.
  - apply Ascii.compare_eq_iff in Ebc. subst. now rewrite Eab.
  - now rewrite (ascii_compare_trans a b c Eab Ebc).
Qed.

Lemma string_ltb_trans s t u :
  String.ltb s t = true -> String.ltb t u = true -> String.ltb s u = true.
Proof.
  unfold String.ltb.
  destruct (String.compare s t) eqn:E1; try discriminate.
  destruct (String.compare t u) eqn:E2; try discriminate.
  now rewrite (string_compare_trans s t u E1 E2).
Qed.

(** Among pieces of one kind, not being less is transitive. *)
Lemma piece_order n a b c :
  piece n a = true -> piece n b = true -> piece n c = true ->
  pyval_eqb b a = false -> py_lt b a = Ok false ->
  pyval_eqb c b = false -> py_lt c b = Ok false ->
  pyval_eqb c a = false /\ py_lt c a = Ok false.
Proof.
  destruct n, a, b, c; try discriminate; cbn [pyval_eqb py_lt]; intros _ _ _.
  - rewrite !Z.eqb_neq. intros Hba [= Hlt1] Hcb [= Hlt2].
    rewrite Z.ltb_ge in *. split; [lia|]. f_equal. apply Z.ltb_ge. lia.
  - intros Hba [= Hlt1] Hcb [= Hlt2].
    assert (L1 : String.ltb s s0 = true).
    { rewrite (string_ltb_flip s0 s Hba), Hlt1. reflexivity. }
    assert (L2 : String.ltb s0 s1 = true).
    { rewrite (string_ltb_flip s1 s0 Hcb), Hlt2. reflexivity. }
    pose proof (string_ltb_trans _ _ _ L1 L2) as L.
    assert (Hca : String.eqb s1 s = false).
    { destruct (String.eqb s1 s) eqn:E; [|reflexivity].
      apply String.eqb_eq in E. subst.
      now rewrite string_ltb_irrefl in L. }
    split; [exact Hca|]. f_equal.
    rewrite String.eqb_sym in Hca.
    now rewrite (string_ltb_flip s s1 Hca), L.
Qed.

(** Among keys that alternate the same way, not being less is
    transitive. *)
Lemma seq_lt_alternating_trans la : forall lb lc n,
  alternating n la = true -> alternating n lb = true ->
  alternating n lc = true ->
  seq_lt lb la = Ok false -> seq_lt lc lb = Ok false ->
  seq_lt lc la = Ok false.
Proof.
  induction la as [|a la IH]; intros lb lc n Ha Hb Hc Hba Hcb.
  - destruct lc; reflexivity.
  - destruct lb as [|b lb]; [discriminate|].
    destruct lc as [|c lc]; [discriminate|].
    cbn [alternating] in Ha, Hb, Hc.
    apply andb_true_iff in Ha, Hb, Hc.
    destruct Ha as [Pa Ha], Hb as [Pb Hb], Hc as [Pc Hc].
    change (seq_lt (b :: lb) (a :: la))
      with (if pyval_eqb b a then seq_lt lb la else py_lt b a) in Hba.
    change (seq_lt (c :: lc) (b :: lb))
      with (if pyval_eqb c b then seq_lt lc lb else py_lt c b) in Hcb.
    change (seq_lt (c :: lc) (a :: la))
      with (if pyval_eqb c a then seq_lt lc la else py_lt c a).
    destruct (pyval_eqb b a) eqn:Eba, (pyval_eqb c b) eqn:Ecb.
    + apply pyval_eqb_eq in Eba, Ecb. subst.
      rewrite pyval_eqb_refl. apply (IH lb lc (negb n)); assumption.
    + apply pyval_eqb_eq in Eba. subst. now rewrite Ecb.
    + apply pyval_eqb_eq in Ecb. subst. now rewrite Eba.
    + destruct (piece_order n a b c Pa Pb Pc Eba Hba Ecb Hcb) as [-> ->].
      reflexivity.
Qed.

Lemma plain_key_total numbers a b :
  plain_key numbers a -> plain_key numbers b -> exists r, py_lt a b = Ok r.
Proof.
  destruct numbers; cbn.
  - destruct a, b; try discriminate. cbn. eauto.
  - intros (la & -> & Ha) (lb & -> & Hb). rewrite py_lt_list.
    eapply seq_lt_alternating; eauto.
Qed.

Lemma plain_key_trans numbers a b c :
  plain_key numbers a -> plain_key numbers b -> plain_key numbers c ->
  py_lt b a = Ok false -> py_lt c b = Ok false -> py_lt c a = Ok false.
Proof.
  destruct numbers; cbn.
  - destruct a, b, c; try discriminate. cbn. intros _ _ _ [= H1] [= H2].
    f_equal. rewrite Z.ltb_ge in *. lia.
  - intros (la & -> & Ha) (lb & -> & Hb) (lc & -> & Hc).
    rewrite !py_lt_list. eapply seq_lt_alternating_trans; eauto.
Qed.

(** Of two values at most one is less than the other. *)
Lemma py_lt_asym a b : py_lt a b = Ok true -> py_lt b a = Ok false.
Proof.
  intros H. destruct (pyval_eqb a b) eqn:E.
  - pose proof (py_lt_equal _ _ _ E H). discriminate.
  - exact (py_lt_flip _ _ _ E H).
Qed.

Section SortedFacts.
Context {A : Type}.
Variable key : A -> pyval.
Variable numbers : bool.

Local Abbreviation lt := (fun p q : A => py_lt (key p) (key q)).
Local Abbreviation good := (fun p : A => plain_key numbers (key p)).

Lemma insert_sorted_sorted x s r :
  good x -> Forall good s -> sorted_by_key key s ->
  insert_sorted lt x s = Ok r -> sorted_by_key key r.
Proof.
  intros Hx. revert r.
  induction s as [|y ys IH]; cbn [insert_sorted]; intros r Hs Hsorted.
  - intros [= <-]. cbn. auto.
  - inversion Hs as [|? ? Hy Hys]; subst. destruct Hsorted as [Hall Hsorted].
    destruct (py_lt (key x) (key y)) as [[|]|] eqn:E; cbn [res_bind];
      try discriminate.
    + intros [= <-]. cbn [sorted_by_key].
      pose proof (py_lt_asym _ _ E) as Hyx.
      split; [|split; assumption].
      constructor; [exact Hyx|].
      rewrite Forall_forall in *. intros z Hz.
      apply (plain_key_trans numbers (key x) (key y) (key z)); auto.
    + destruct (insert_sorted lt x ys) as [r'|] eqn:Er; cbn [res_bind];
        [|discriminate].
      intros [= <-]. cbn [sorted_by_key]. split; [|now apply IH].
      apply insert_sorted_perm in Er.
      eapply Permutation_Forall; [exact Er|]. now constructor.
Qed.

Lemma sort_into_sorted l : forall acc r,
  Forall good acc -> Forall good l -> sorted_by_key key acc ->
  sort_into lt acc l = Ok r -> sorted_by_key key r.
Proof.
  induction l as [|x xs IH]; cbn [sort_into]; intros acc r Hacc Hl Hsorted.
  - now intros [= <-].
  - inversion Hl as [|? ? Hx Hxs]; subst.
    destruct (insert_sorted lt x acc) as [acc'|] eqn:E; cbn [res_bind];
      [|discriminate].
    intros H. apply (IH acc' r); [|exact Hxs| |exact H].
    + apply insert_sorted_perm in E.
      eapply Permutation_Forall; [exact E|]. now constructor.
    + apply (insert_sorted_sorted x acc acc'); assumption.
Qed.
End SortedFacts.

Section SortedAlready.
Context {A : Type}.
Variable key : A -> pyval.

Local Abbreviation lt := (fun p q : A => py_lt (key p) (key q)).

(** An item that is not less than any item of the list goes last. *)
Lemma insert_sorted_last x s :
  Forall (fun y => py_lt (key x) (key y) = Ok false) s ->
  insert_sorted lt x s = Ok (s ++ [x]).
Proof.
  induction 1 as [|y ys Hy _ IH]; cbn [insert_sorted app]; [reflexivity|].
  rewrite Hy. cbn [res_bind]. now rewrite IH.
Qed.

Lemma sorted_by_key_before a x b :
  sorted_by_key key (a ++ x :: b) ->
  Forall (fun y => py_lt (key x) (key y) = Ok false) a.
Proof.
  induction a as [|y a IH]; cbn [app sorted_by_key]; [constructor|].
  intros [Hall Hsorted]. constructor; [|now apply IH].
  rewrite Forall_forall in Hall. apply Hall.
  apply in_or_app. right. now left.
Qed.

(** The stable sort leaves a sorted list as it is. *)
Lemma sort_into_sorted_same l : forall acc,
  sorted_by_key key (acc ++ l) -> sort_into lt acc l = Ok (acc ++ l).
Proof.
  induction l as [|x xs IH]; intros acc Hsorted; cbn [sort_into].
  - now rewrite app_nil_r.
  - rewrite (insert_sorted_last x acc (sorted_by_key_before _ _ _ Hsorted)).
    cbn [res_bind]. rewrite IH; rewrite <- app_assoc; [reflexivity|exact Hsorted].
Qed.
End SortedAlready.

Lemma res_map_combine {A B} (f : A -> res B) l : forall ks,
  res_map f l = Ok ks ->
  Forall (fun q => f (snd q) = Ok (fst q)) (combine ks l).
Proof.
  induction l as [|x l IH]; cbn [res_map]; intros ks.
  - intros [= <-]. constructor.
  - destruct (f x) as [k|] eqn:Ek; cbn [res_bind]; [|discriminate].
    destruct (res_map f l) as [ks'|]; cbn [res_bind]; [|discriminate].
    intros [= <-]. cbn [combine]. constructor; [exact Ek|now apply IH].
Qed.

Lemma res_map_ext {A B} (f g : A -> res B) l :
  Forall (fun x => f x = g x) l -> res_map f l = res_map g l.
Proof.
  induction 1 as [|x l Hx _ IH]; cbn [res_map]; [reflexivity|].
  now rewrite Hx, IH.
Qed.

Lemma res_map_ok {A B} (f : A -> res B) l :
  Forall (fun x => exists k, f x = Ok k) l -> exists ks, res_map f l = Ok ks.
Proof.
  induction 1 as [|x l [k Hk] _ [ks IH]]; cbn [res_map]; [eauto|].
  rewrite Hk, IH. cbn. eauto.
Qed.

(** The keys of plain names. *)
Lemma plain_names_keys l :
  plain_names l = true ->
  Forall (fun x => exists k, natsort x = Ok k
                             /\ plain_key (forallb is_int l) k) l.
Proof.
  unfold plain_names. intros H.
  destruct (forallb is_int l) eqn:Hint.
  - rewrite forallb_forall in Hint. apply Forall_forall. intros x Hx.
    specialize (Hint x Hx). destruct x; try discriminate.
    eexists. split; reflexivity.
  - cbn [orb] in H. rewrite forallb_forall in H.
    apply Forall_forall. intros x Hx. specialize (H x Hx).
    destruct x; try discriminate. cbn [plain_text] in H.
    apply andb_true_iff in H. destruct H as [Ha Hs].
    destruct (natsort_ascii s Ha Hs) as (p & Hp & Halt & _).
    exists (VList p). split; [exact Hp|]. exists p. auto.
Qed.

(** On plain names [sort] uses the key [natsort], or a key that gives
    the same. *)
Lemma plain_names_sort_key l reverse :
  plain_names l = true ->
  py_sorted l (if all_string l then natsort else identity_key) reverse
  = py_sorted l natsort reverse.
Proof.
  intros H. destruct (all_string l) eqn:Hs; [reflexivity|].
  unfold py_sorted. f_equal.
  apply res_map_ext. unfold plain_names in H.
  destruct (forallb is_int l) eqn:Hint.
  - rewrite forallb_forall in Hint. apply Forall_forall. intros x Hx.
    specialize (Hint x Hx). destruct x; try discriminate. reflexivity.
  - cbn [orb] in H. exfalso.
    assert (all_string l = true); [|congruence].
    unfold all_string. rewrite forallb_forall in *. intros x Hx.
    specialize (H x Hx). destruct x; try discriminate. reflexivity.
Qed.

Lemma sorted_pairs_names (r : list (pyval * pyval)) :
  Forall (fun q => natsort (snd q) = Ok (fst q)) r ->
  sorted_by_key fst r -> naturally_sorted (map snd r).
Proof.
  induction r as [|p r IH]; cbn [map sorted_by_key naturally_sorted];
    [auto|].
  intros Hkeys [Hall Hsorted].
  inversion Hkeys as [|? ? Hp Hr]; subst.
  split; [|now apply IH].
  apply Forall_forall. intros y Hy.
  apply in_map_iff in Hy as [q [<- Hq]].
  rewrite Forall_forall in Hall, Hr.
  unfold natural_less. rewrite (Hr q Hq), Hp. cbn [res_bind].
  now apply Hall.
Qed.

Lemma names_sorted_pairs l : forall ks,
  res_map natsort l = Ok ks ->
  naturally_sorted l -> sorted_by_key fst (combine ks l).
Proof.
  induction l as [|x l IH]; intros ks Hks Hsorted.
  - destruct ks; exact I.
  - pose proof (res_map_combine natsort (x :: l) ks Hks) as Hpairs.
    cbn [res_map] in Hks.
    destruct (natsort x) as [k|] eqn:Ek; cbn [res_bind] in Hks;
      [|discriminate].
    destruct (res_map natsort l) as [ks'|] eqn:Eks; cbn [res_bind] in Hks;
      [|discriminate].
    injection Hks as <-. cbn [combine sorted_by_key fst] in *.
    destruct Hsorted as [Hall Hsorted].
    split; [|apply IH; [reflexivity|exact Hsorted]].
    inversion Hpairs as [|? ? _ Hrest]; subst.
    rewrite Forall_forall in *. intros [kq y] Hq.
    pose proof (Hall y (in_combine_r _ _ _ _ Hq)) as Hless.
    pose proof (Hrest _ Hq) as Hy. cbn [fst snd] in Hy |- *.
    unfold natural_less in Hless. rewrite Hy, Ek in Hless. exact Hless.
Qed.

(** [sorted(names, key=natsort)] on plain names returns them in the
    natural order. *)
Lemma py_sorted_plain_names l :
  plain_names l = true ->
  exists r, py_sorted l natsort false = Ok r /\ naturally_sorted r.
Proof.
  intros Hplain. pose proof (plain_names_keys l Hplain) as Hkeys.
  set (numbers := forallb is_int l) in *.
  destruct (res_map_ok natsort l) as [ks Hks].
  { eapply Forall_impl; [|exact Hkeys]. cbn. intros x [k [Hk _]]. eauto. }
  pose proof (res_map_combine natsort l ks Hks) as Hpairs.
  assert (Hgood : Forall (fun q : pyval * pyval => plain_key numbers (fst q))
                    (combine ks l)).
  { rewrite Forall_forall in *. intros q Hq.
    destruct (Hkeys (snd q)) as [k [Hk Hplain_k]].
    { destruct q. eapply in_combine_r; eauto. }
    rewrite (Hpairs q Hq) in Hk. now injection Hk as <-. }
  destruct (sort_into_ok
              (fun p q : pyval * pyval => py_lt (fst p) (fst q))
              (fun q => plain_key numbers (fst q))
              ltac:(intros x y Hx Hy;
                    exact (plain_key_total numbers _ _ Hx Hy))
              (combine ks l) [] ltac:(constructor) Hgood) as [r Hr].
  exists (map snd r). split.
  - unfold py_sorted. rewrite Hks. cbn [res_bind sort_reverse].
    unfold stable_sort. now rewrite Hr.
  - apply sorted_pairs_names.
    + apply sort_into_perm in Hr. cbn [app] in Hr.
      eapply Permutation_Forall; [exact Hr|exact Hpairs].
    + apply (sort_into_sorted fst numbers (combine ks l) [] r);
        [constructor|exact Hgood|exact I|exact Hr].
Qed.

(** Sorting names that are in the natural order changes nothing. *)
Lemma py_sorted_sorted_names l :
  (exists ks, res_map natsort l = Ok ks) ->
  naturally_sorted l -> py_sorted l natsort false = Ok l.
Proof.
  intros [ks Hks] Hsorted. unfold py_sorted. rewrite Hks.
  cbn [res_bind sort_reverse]. unfold stable_sort.
  rewrite (sort_into_sorted_same fst (combine ks l) []
             (names_sorted_pairs l ks Hks Hsorted)).
  cbn [app res_bind]. f_equal. apply map_snd_combine.
  now apply res_map_length in Hks.
Qed.

Section SortCycle.
Context {ext : Externals}.

Lemma model_init_returns data w o t nm :
  nth_error (heap w) data = Some o ->
  plain_collection o ->
  wp (model_init (Some data) t nm false)
    (fun r w' =>
       r = Ok tt
       /\ in_step w'
       /\ keys w' = keys_of o
       /\ total_rows w' = size_of o
       /\ rows_loaded w' =
            (if size_of o >? LARGE_NROWS then ROWS_TO_LOAD else size_of o)
       /\ previous_sort w' = -1
       /\ remote w' = false
       /\ horizontalHeader w' = horizontalHeader w
       /\ view w' = view w
       /\ readonly w' = readonly w
       /\ source_model w' = source_model w
       /\ dictfilter w' = dictfilter w
       /\ data_after w data o w') w.
Proof.
  intros Hd Hplain. unfold model_init.
  repeat (first
    [ lazymatch goal with
      | |- wp (set_data _ _) _ ?w1 =>
          eapply wp_conseq;
          [apply (set_data_returns data w1 o);
           [reflexivity|exact Hd|exact Hplain]|]
      end
    | wp_step ]).
  all: intros r w' (-> & Hin & Hk & Ht & Hr & _ & Hp & Hsetup & Hafter).
  all: unfold same_setup in Hsetup; simpl_world_all.
  all: destruct Hsetup as (? & ? & ? & ? & ? & ? & ? & ?).
  all: split; [reflexivity|]; split; [exact Hin|].
  all: repeat (split; [assumption|]).
  all: destruct o; cbn [data_after] in *; simpl_world_all; assumption.
Qed.

(** A first sort by the name column sorts and remembers the column. *)
Lemma sort_by_name_first w o ord :
  nth_error (heap w) (_data w) = Some o ->
  horizontalHeader w = false \/ previous_sort w <> 0 ->
  wp (sort 0 ord)
    (fun r w' =>
       r = Ok tt
       /\ previous_sort w' = 0
       /\ rows_loaded w' = rows_loaded w
       /\ total_rows w' = total_rows w
       /\ heap w' = heap w
       /\ _data w' = _data w
       /\ remote w' = remote w
       /\ horizontalHeader w' = horizontalHeader w
       /\ Permutation (keys w) (keys w')
       /\ (forall s,
             py_sorted (keys w)
               (if all_string (keys w) then natsort else identity_key)
               (SortOrder_eqb ord DescendingOrder) = Ok s ->
             keys w' = s)) w.
Proof.
  intros Hd Hprev. unfold sort.
  repeat (first
    [ lazymatch goal with
      | |- wp (deref _) _ _ =>
          eapply wp_deref_known; [simpl_world; exact Hd|]; cbn beta iota
      | |- wp (sort_in_place _ _ _ _) _ _ =>
          apply wp_sort_in_place_result; intros ?l' ?r ?Hperm ?Hres
      end
    | wp_step ]).
  - exfalso.
    repeat match goal with
           | H : _ && _ = true |- _ => apply andb_true_iff in H as [? ?]
           end.
    rewrite Z.eqb_eq in *. destruct Hprev; congruence.
  - simpl_world_all. repeat split; auto.
Qed.

(** Sorting by column -1 puts the keys of the dictionary back. *)
Lemma sort_unsorted w d ord :
  nth_error (heap w) (_data w) = Some (ODict d) ->
  forallb hashable (map fst d) = true ->
  remote w = false ->
  0 <= rows_loaded w <= len d ->
  wp (sort (-1) ord)
    (fun r w' =>
       r = Ok tt
       /\ keys w' = map fst d
       /\ previous_sort w' = -1
       /\ len (sizes w') = rows_loaded w
       /\ len (types w') = rows_loaded w) w.
Proof.
  intros Hd Hhash Hlocal Hrows. unfold sort.
  repeat (first
    [ lazymatch goal with
      | |- wp (deref _) _ _ =>
          eapply wp_deref_known; [simpl_world; exact Hd|]; cbn beta iota
      | |- wp (py_keys _) _ _ => unfold py_keys
      | |- wp (set_size_and_type None None) _ _ =>
          apply set_size_and_type_reload_returns;
          [exact Hlocal
          |simpl_world;
           apply (readable_fewer _ _ _ (len d)); [lia|];
           now apply readable_dict
          |intros ?ns ?nt ?Hns ?Hnt ?Hstr]
      end
    | wp_step ]).
  - exfalso.
    repeat match goal with
           | H : _ && _ = true |- _ => apply andb_true_iff in H as [? ?]
           end.
    discriminate.
  - simpl_world_all. unfold len in *. rewrite Hns, Hnt.
    repeat split; auto; lia.
Qed.

(** Sorting again, ascending, by the column that was sorted last only
    asks the header to clear the indicator. *)
Lemma sort_again_clears w d c :
  nth_error (heap w) (_data w) = Some (ODict d) ->
  horizontalHeader w = true ->
  previous_sort w = c ->
  c <> -1 ->
  run (sort c AscendingOrder) w =
    (Ok tt, set_log (log w ++ [setSortIndicator (-1) AscendingOrder]) w).
Proof.
  intros Hd Hh Hp Hc.
  assert (H : wp (sort c AscendingOrder)
                (fun r w' =>
                   (r, w') =
                   (Ok tt,
                    set_log
                      (log w ++ [setSortIndicator (-1) AscendingOrder]) w))
                w).
  { unfold sort.
    repeat (lazymatch goal with
            | |- wp (if _ then _ else _) _ _ => fail
            | |- wp (deref _) _ _ =>
                eapply wp_deref_known; [simpl_world; exact Hd|];
                cbn beta iota
            | _ => wp_step
            end).
    rewrite Hh, Hp, Z.eqb_refl.
    replace (c =? -1) with false by (symmetry; now apply Z.eqb_neq).
    cbn [is_dict andb negb SortOrder_eqb].
    wp_step. reflexivity. }
  unfold wp in H. unfold run.
  destruct (sort c AscendingOrder w). exact H.
Qed.

(** Only a dictionary makes [sort] talk to the header. *)
Lemma sort_log w c ord :
  (forall d, nth_error (heap w) (_data w) <> Some (ODict d)) ->
  forall ev, In ev (log (snd (run (sort c ord) w))) ->
             In ev (log w) \/ ev = ResetModel.
Proof.
  intros Hnd.
  change (wp (sort c ord)
            (fun _ w' => forall ev, In ev (log w') ->
                                    In ev (log w) \/ ev = ResetModel) w).
  unfold sort. wp_sort.
  all: simpl_world; try (intros ev Hev; now left).
  all: try (intros ev Hev; apply in_app_iff in Hev as [Hev|[<-|[]]]; auto).
  exfalso.
  repeat match goal with
         | H : _ && _ = true |- _ => apply andb_true_iff in H as [? ?]
         end.
  match goal with
  | H : is_dict ?o = true |- _ => destruct o; try discriminate
  end.
  eapply Hnd; eauto.
Qed.
End SortCycle.

Lemma forallb_perm {A} (f : A -> bool) l l' :
  Permutation l l' -> forallb f l = forallb f l'.
Proof.
  induction 1 as [|x l l' _ IH|x y l|l l' l'' _ IH1 _ IH2]; cbn.
  - reflexivity.
  - now rewrite IH.
  - now rewrite !andb_assoc, (andb_comm (f y) (f x)).
  - congruence.
Qed.

Lemma plain_names_perm l l' :
  Permutation l l' -> plain_names l = plain_names l'.
Proof.
  intros H. unfold plain_names.
  now rewrite (forallb_perm is_int l l' H), (forallb_perm plain_text l l' H).
Qed.

(** A sort by the name column that is not turned into a request to the
    header: the names are rearranged; plain names are put in the natural
    order, and stay as they are when they are in that order already. *)
Lemma sort_names_ascending {ext : Externals} w o :
  nth_error (heap w) (_data w) = Some o ->
  horizontalHeader w = false \/ previous_sort w <> 0 ->
  exists w1,
    run (sort 0 AscendingOrder) w = (Ok tt, w1)
    /\ previous_sort w1 = 0
    /\ rows_loaded w1 = rows_loaded w
    /\ heap w1 = heap w
    /\ _data w1 = _data w
    /\ remote w1 = remote w
    /\ horizontalHeader w1 = horizontalHeader w
    /\ Permutation (keys w) (keys w1)
    /\ (plain_names (keys w) = true ->
        naturally_sorted (keys w1)
        /\ (naturally_sorted (keys w) -> keys w1 = keys w)).
Proof.
  intros Hd Hprev.
  destruct (wp_returns _ _ _ _
              (sort_by_name_first w o AscendingOrder Hd Hprev))
    as [w1 [Hrun (Hp1 & Hr1 & _ & Hheap1 & Hdata1 & Hlocal1 & Hh1 & Hperm
                  & Hres)]].
  exists w1. repeat (split; [assumption|]).
  intros Hplain. cbn [SortOrder_eqb] in Hres.
  rewrite (plain_names_sort_key _ false Hplain) in Hres.
  split.
  - destruct (py_sorted_plain_names (keys w) Hplain) as [s [Hs Hsorted]].
    now rewrite (Hres s Hs).
  - intros Hsorted. apply Hres. apply py_sorted_sorted_names; [|exact Hsorted].
    apply res_map_ok. eapply Forall_impl; [|apply (plain_names_keys _ Hplain)].
    cbn. intros x [k [Hk _]]. eauto.
Qed.

(** C4, as the code has it: for a model of a dictionary, freshly built,
    the first [sort(0, Ascending)] rearranges the keys, and puts them in
    the natural order when they are all numbers or all plain texts.
    When the parent has a header, the second [sort(0, Ascending)] changes
    nothing in the model and asks the header to clear the sort
    indicator, [setSortIndicator(-1, Ascending)]; [sort(-1, Ascending)],
    the call by which a view with sorting enabled answers, returns with
    the keys in the order they had at initialization, the insertion
    order of the dictionary.  When the parent has no header, the second
    [sort(0, Ascending)] sorts again and leaves plain keys in the natural
    order.  On data that is no dictionary [sort] never asks the header
    for anything. *)
Theorem dict_sort_cycle {ext : Externals} :
  (forall w data d t nm,
      nth_error (heap w) data = Some (ODict d) ->
      forallb hashable (map fst d) = true ->
      horizontalHeader w = true ->
      exists w0 w1 w3,
        run (model_init (Some data) t nm false) w = (Ok tt, w0)
        /\ keys w0 = map fst d
        /\ run (sort 0 AscendingOrder) w0 = (Ok tt, w1)
        /\ Permutation (keys w0) (keys w1)
        /\ (plain_names (map fst d) = true -> naturally_sorted (keys w1))
        /\ run (sort 0 AscendingOrder) w1 =
             (Ok tt,
              set_log (log w1 ++ [setSortIndicator (-1) AscendingOrder]) w1)
        /\ run (sort (-1) AscendingOrder)
             (set_log (log w1 ++ [setSortIndicator (-1) AscendingOrder]) w1)
           = (Ok tt, w3)
        /\ keys w3 = keys w0)
  /\ (forall w data d t nm,
        nth_error (heap w) data = Some (ODict d) ->
        forallb hashable (map fst d) = true ->
        horizontalHeader w = false ->
        plain_names (map fst d) = true ->
        exists w0 w1 w2,
          run (model_init (Some data) t nm false) w = (Ok tt, w0)
          /\ keys w0 = map fst d
          /\ run (sort 0 AscendingOrder) w0 = (Ok tt, w1)
          /\ run (sort 0 AscendingOrder) w1 = (Ok tt, w2)
          /\ Permutation (keys w0) (keys w1)
          /\ naturally_sorted (keys w1)
          /\ keys w2 = keys w1)
  /\ (forall w c ord,
        (forall d, nth_error (heap w) (_data w) <> Some (ODict d)) ->
        forall ev, In ev (log (snd (run (sort c ord) w))) ->
                   In ev (log w) \/ ev = ResetModel).
Proof.
  assert (Hfirst : forall w data d t nm,
    nth_error (heap w) data = Some (ODict d) ->
    forallb hashable (map fst d) = true ->
    exists w0 w1,
      run (model_init (Some data) t nm false) w = (Ok tt, w0)
      /\ keys w0 = map fst d
      /\ run (sort 0 AscendingOrder) w0 = (Ok tt, w1)
      /\ Permutation (keys w0) (keys w1)
      /\ (plain_names (map fst d) = true -> naturally_sorted (keys w1))
      /\ nth_error (heap w1) (_data w1) = Some (ODict d)
      /\ previous_sort w1 = 0
      /\ horizontalHeader w1 = horizontalHeader w
      /\ remote w1 = false
      /\ 0 <= rows_loaded w1 <= len d).
  { intros w data d t nm Hd Hhash.
    destruct (wp_returns _ _ _ _
                (model_init_returns data w (ODict d) t nm Hd Hhash))
      as [w0 [Hrun0 (Hin & Hk & Ht & Hr & Hp & Hlocal & Hh & _ & _ & _ & _
                     & [Hdata Hheap])]].
    cbn [keys_of size_of] in *.
    assert (Hd0 : nth_error (heap w0) (_data w0) = Some (ODict d))
      by (rewrite Hdata, Hheap; exact Hd).
    destruct (sort_names_ascending w0 (ODict d) Hd0)
      as [w1 (Hrun1 & Hp1 & Hr1 & Hheap1 & Hdata1 & Hlocal1 & Hh1 & Hperm
              & Hnames)].
    { right. rewrite Hp. discriminate. }
    exists w0, w1.
    split; [exact Hrun0|]. split; [exact Hk|]. split; [exact Hrun1|].
    split; [exact Hperm|].
    split; [intros Hplain; rewrite <- Hk in Hplain; now apply Hnames|].
    split; [rewrite Hdata1, Hheap1; exact Hd0|].
    split; [exact Hp1|]. split; [congruence|]. split; [congruence|].
    rewrite Hr1, Hr. pose proof (len_nonneg d).
    unfold LARGE_NROWS, ROWS_TO_LOAD.
    destruct (len d >? 100) eqn:E; [|lia].
    rewrite Z.gtb_ltb, Z.ltb_lt in E. lia. }
  split; [|split; [|intros w c ord; apply sort_log]].
  - intros w data d t nm Hd Hhash Hheader.
    destruct (Hfirst w data d t nm Hd Hhash)
      as (w0 & w1 & Hrun0 & Hk & Hrun1 & Hperm & Hsorted & Hd1 & Hp1 & Hh1
          & Hlocal1 & Hrows).
    destruct (wp_returns _ _ _ _
                (sort_unsorted
                   (set_log (log w1 ++ [setSortIndicator (-1) AscendingOrder])
                      w1)
                   d AscendingOrder Hd1 Hhash
                   ltac:(cbn; congruence) Hrows))
      as [w3 [Hrun3 (Hk3 & _)]].
    exists w0, w1, w3.
    split; [exact Hrun0|]. split; [exact Hk|]. split; [exact Hrun1|].
    split; [exact Hperm|]. split; [exact Hsorted|].
    split; [|split; [exact Hrun3|congruence]].
    apply (sort_again_clears w1 d 0 Hd1); [congruence|exact Hp1|discriminate].
  - intros w data d t nm Hd Hhash Hheader Hplain.
    destruct (Hfirst w data d t nm Hd Hhash)
      as (w0 & w1 & Hrun0 & Hk & Hrun1 & Hperm & Hsorted & Hd1 & Hp1 & Hh1
          & Hlocal1 & Hrows).
    destruct (sort_names_ascending w1 (ODict d) Hd1)
      as [w2 (Hrun2 & _ & _ & _ & _ & _ & _ & _ & Hnames)].
    { left. congruence. }
    exists w0, w1, w2.
    split; [exact Hrun0|]. split; [exact Hk|]. split; [exact Hrun1|].
    split; [exact Hrun2|]. split; [exact Hperm|].
    split; [now apply Hsorted|].
    apply Hnames; [|now apply Hsorted].
    rewrite <- (plain_names_perm _ _ Hperm). now rewrite Hk.
Qed.

Lemma dict_sort_cycle_witness :
  (exists w0 w1 w3,
     run (model_init (Some 0%nat) EmptyString false false)
       (fresh [unsorted_dict] CollectionsEditorTableView true None)
     = (Ok tt, w0)
     /\ keys w0 = [VStr "b"; VStr "a"]
     /\ run (sort 0 AscendingOrder) w0 = (Ok tt, w1)
     /\ Permutation (keys w0) (keys w1)
     /\ (plain_names [VStr "b"; VStr "a"] = true ->
         naturally_sorted (keys w1))
     /\ run (sort 0 AscendingOrder) w1 =
          (Ok tt,
           set_log (log w1 ++ [setSortIndicator (-1) AscendingOrder]) w1)
     /\ run (sort (-1) AscendingOrder)
          (set_log (log w1 ++ [setSortIndicator (-1) AscendingOrder]) w1)
        = (Ok tt, w3)
     /\ keys w3 = keys w0)
  /\ (exists w0 w1 w2,
        run (model_init (Some 0%nat) EmptyString false false)
          (fresh [unsorted_dict] CollectionsEditorTableView false None)
        = (Ok tt, w0)
        /\ keys w0 = [VStr "b"; VStr "a"]
        /\ run (sort 0 AscendingOrder) w0 = (Ok tt, w1)
        /\ run (sort 0 AscendingOrder) w1 = (Ok tt, w2)
        /\ Permutation (keys w0) (keys w1)
        /\ naturally_sorted (keys w1)
        /\ keys w2 = keys w1).
Proof.
  split.
  - apply (proj1 dict_sort_cycle
             (fresh [unsorted_dict] CollectionsEditorTableView true None)
             0%nat [(VStr "b", VInt 1); (VStr "a", VInt 2)]
             EmptyString false); reflexivity.
  - apply (proj1 (proj2 dict_sort_cycle)
             (fresh [unsorted_dict] CollectionsEditorTableView false None)
             0%nat [(VStr "b", VInt 1); (VStr "a", VInt 2)]
             EmptyString false); reflexivity.
Defined.

(** C4, as stated, fails: when the parent of the model has no header, as
    in tests, the second [sort(0, Ascending)] sorts again and the keys
    stay sorted. *)
Lemma sort_twice_without_header :
  let w := fresh [unsorted_dict] CollectionsEditorTableView false None in
  let w0 := snd (run (model_init (Some 0%nat) EmptyString false false) w) in
  let w2 := snd (run (sort 0 AscendingOrder ;; sort 0 AscendingOrder) w0) in
  fst (run (model_init (Some 0%nat) EmptyString false false) w) = Ok tt
  /\ keys w0 = [VStr "b"; VStr "a"]
  /\ fst (run (sort 0 AscendingOrder ;; sort 0 AscendingOrder) w0) = Ok tt
  /\ keys w2 = [VStr "a"; VStr "b"]
  /\ keys w2 <> keys w0.
Proof. vm_compute. repeat split; discriminate. Qed.

(** ** Removing values *)

Lemma replace_nth_length {A} (l : list A) j x :
  List.length (replace_nth j x l) = List.length l.
Proof.
  revert j. induction l as [|h t IH]; intros [|j]; cbn; auto.
Qed.

Lemma nth_error_replace_nth {A} (l : list A) j x :
  (j < List.length l)%nat -> nth_error (replace_nth j x l) j = Some x.
Proof.
  revert j. induction l as [|h t IH]; intros [|j]; cbn; try lia; auto.
  intros H. apply IH. lia.
Qed.

Lemma nth_error_replace_nth_other {A} (l : list A) j k x :
  j <> k -> nth_error (replace_nth j x l) k = nth_error l k.
Proof.
  revert j k. induction l as [|h t IH]; intros [|j] [|k] H; cbn; auto;
    try congruence.
Qed.

Lemma remove_nth_length {A} (l : list A) j :
  (j < List.length l)%nat ->
  List.length (remove_nth j l) = (List.length l - 1)%nat.
Proof.
  revert j. induction l as [|h t IH]; intros [|j]; cbn; try lia.
  intros H. rewrite IH by lia. lia.
Qed.

Lemma norm_index_in_range n i :
  0 <= i < n -> norm_index n i = Some (Z.to_nat i).
Proof.
  intros H. unfold norm_index.
  destruct (i <? 0) eqn:E; [rewrite Z.ltb_lt in E; lia|].
  replace ((0 <=? i) && (i <? n)) with true; [reflexivity|].
  symmetry. apply andb_true_iff. split; [apply Z.leb_le|apply Z.ltb_lt]; lia.
Qed.

Lemma dict_get_del_other d k k' :
  pyval_eqb k k' = false -> dict_get (dict_del d k) k' = dict_get d k'.
Proof.
  intros Hne. induction d as [|[k0 v0] d IH]; cbn; [reflexivity|].
  destruct (pyval_eqb k0 k) eqn:E.
  - apply pyval_eqb_eq in E. subst k0. now rewrite Hne.
  - cbn. now rewrite IH.
Qed.

Lemma dict_del_length d k v :
  dict_get d k = Some v ->
  List.length (dict_del d k) = (List.length d - 1)%nat.
Proof.
  induction d as [|[k0 v0] d IH]; cbn; [discriminate|].
  destruct (pyval_eqb k0 k); [lia|].
  intros H. cbn. rewrite IH by assumption.
  destruct d; [discriminate|cbn; lia].
Qed.

Lemma dict_del_incl d k x : In x (map fst (dict_del d k)) -> In x (map fst d).
Proof.
  induction d as [|[k0 v0] d IH]; cbn; [auto|].
  destruct (pyval_eqb k0 k); cbn; intuition.
Qed.

Lemma sorted_pair_descending k1 k2 b :
  pyval_eqb k1 k2 = false ->
  py_lt k1 k2 = Ok b ->
  py_sorted [k1; k2] identity_key true =
    Ok (if b then [k2; k1] else [k1; k2])
  /\ py_sorted [k2; k1] identity_key true =
       Ok (if b then [k2; k1] else [k1; k2]).
Proof.
  intros Hne Hlt.
  pose proof (py_lt_flip k1 k2 b Hne Hlt) as Hflip.
  unfold py_sorted, sort_reverse, stable_sort. cbn.
  rewrite Hlt, Hflip. destruct b; cbn; auto.
Qed.

Lemma wp_eq {A} (m : M A) Q w r w' :
  m w = (r, w') -> Q r w' -> wp m Q w.
Proof. unfold wp. now intros ->. Qed.

(** Steps up to the next [pop], or to the reload of the view. *)
Ltac wp_to_pop :=
  repeat lazymatch goal with
         | |- wp (py_pop _ _) _ _ => fail
         | |- wp (BaseTableView_set_data _) _ _ => fail
         | _ => wp_step
         end.

Section Removal.
Context {ext : Externals}.

Lemma py_pop_list data l i w :
  nth_error (heap w) data = Some (OList l) ->
  0 <= i < len l ->
  exists x,
    py_pop data (VInt i) w =
      (Ok x,
       set_heap (replace_nth data (OList (remove_nth (Z.to_nat i) l))
                   (heap w)) w).
Proof.
  intros Hd Hi. unfold py_pop, bind, deref. rewrite Hd.
  rewrite (norm_index_in_range _ _ Hi).
  destruct (nth_error_seq_get l i Hi) as [x [_ Hx]].
  exists x. unfold lift. rewrite Hx. reflexivity.
Qed.

Lemma py_pop_dict data d k v w :
  nth_error (heap w) data = Some (ODict d) ->
  hashable k = true ->
  dict_get d k = Some v ->
  py_pop data k w =
    (Ok v, set_heap (replace_nth data (ODict (dict_del d k)) (heap w)) w).
Proof.
  intros Hd Hh Hk. unfold py_pop, bind, deref. rewrite Hd, Hh, Hk.
  reflexivity.
Qed.
Lemma nth_error_lt {A} (l : list A) j x :
  nth_error l j = Some x -> (j < List.length l)%nat.
Proof. intros H. apply nth_error_Some. congruence. Qed.

(** [BaseTableView.set_data] on a local view without filter. *)
Lemma BaseTableView_set_data_returns data w o :
  remote w = false ->
  dictfilter w = None ->
  nth_error (heap w) data = Some o ->
  plain_collection o ->
  wp (BaseTableView_set_data (Some data))
    (fun r w' =>
       r = Ok tt
       /\ total_rows w' = size_of o
       /\ keys w' = keys_of o
       /\ data_after w data o w') w.
Proof.
  intros Hlocal Hfilter Hd Hplain. unfold BaseTableView_set_data.
  wp_step. wp_step. cbn beta iota. rewrite Hfilter.
  wp_step.
  eapply wp_conseq; [apply (set_data_returns data w o Hlocal Hd Hplain)|].
  intros r w1 (-> & _ & Hk & Ht & _ & _ & _ & _ & Hafter).
  wp_steps. simpl_world.
  repeat split; auto.
Qed.

Lemma remove_sorted_pair w o ks a b :
  view w = CollectionsEditorTableView ->
  remote w = false ->
  dictfilter w = None ->
  nth_error (heap w) (_data w) = Some o ->
  py_sorted ks identity_key true = Ok [a; b] ->
  poppable o a b ->
  wp (remove_values ks)
    (fun r w' => r = Ok tt /\ total_rows w' = size_of o - 2) w.
Proof.
  intros Hview Hlocal Hfilter Hd Hs Hpop. unfold remove_values.
  wp_step. wp_step. cbn beta iota. rewrite Hview.
  wp_step. wp_step. cbn beta iota.
  wp_step. wp_step. cbn beta iota. rewrite Hs. cbn [forM_].
  pose proof (nth_error_lt _ _ _ Hd) as Hlt.
  destruct o as [l|l|l|l|d|attrs|target]; try contradiction.
  - destruct Hpop as (i & j & -> & -> & Hij).
    destruct (py_pop_list _ l i w Hd ltac:(lia)) as [x E1].
    wp_to_pop. eapply wp_eq; [exact E1|]. cbn beta iota.
    wp_to_pop.
    match goal with |- wp _ _ ?w1 => set (wa := w1) end.
    assert (Hd1 : nth_error (heap wa) (_data w)
                  = Some (OList (remove_nth (Z.to_nat i) l)))
      by (subst wa; simpl_world; now apply nth_error_replace_nth).
    assert (Hl1 : len (remove_nth (Z.to_nat i) l) = len l - 1)
      by (unfold len in *; rewrite remove_nth_length; lia).
    destruct (py_pop_list _ _ j wa Hd1 ltac:(lia)) as [y E2].
    eapply wp_eq; [exact E2|]. cbn beta iota.
    wp_to_pop.
    match goal with |- wp _ _ ?w2 => set (wb := w2) end.
    eapply wp_conseq;
      [apply (BaseTableView_set_data_returns (_data w) wb
                (OList (remove_nth (Z.to_nat j)
                          (remove_nth (Z.to_nat i) l))))|].
    + subst wb wa. simpl_world. exact Hlocal.
    + subst wb wa. simpl_world. exact Hfilter.
    + subst wb. simpl_world. apply nth_error_replace_nth.
      subst wa. simpl_world. now rewrite replace_nth_length.
    + exact I.
    + intros r w' (-> & Ht & _). split; [reflexivity|].
      rewrite Ht. cbn [size_of]. unfold len in *.
      rewrite remove_nth_length by lia. lia.
  - destruct Hpop as (Hhash & Ha & Hb & Hne & [va Hva] & [vb Hvb]).
    wp_to_pop.
    eapply wp_eq; [exact (py_pop_dict _ d a va w Hd Ha Hva)|].
    cbn beta iota. wp_to_pop.
    match goal with |- wp _ _ ?w1 => set (wa := w1) end.
    assert (Hd1 : nth_error (heap wa) (_data w) = Some (ODict (dict_del d a)))
      by (subst wa; simpl_world; now apply nth_error_replace_nth).
    assert (Hvb' : dict_get (dict_del d a) b = Some vb)
      by (rewrite dict_get_del_other; assumption).
    eapply wp_eq; [exact (py_pop_dict _ _ b vb wa Hd1 Hb Hvb')|].
    cbn beta iota. wp_to_pop.
    match goal with |- wp _ _ ?w2 => set (wb := w2) end.
    eapply wp_conseq;
      [apply (BaseTableView_set_data_returns (_data w) wb
                (ODict (dict_del (dict_del d a) b)))|].
    + subst wb wa. simpl_world. exact Hlocal.
    + subst wb wa. simpl_world. exact Hfilter.
    + subst wb. simpl_world. apply nth_error_replace_nth.
      subst wa. simpl_world. now rewrite replace_nth_length.
    + cbn [plain_collection]. eapply forallb_incl; [|exact Hhash].
      intros x Hx. now do 2 apply dict_del_incl in Hx.
    + intros r w' (-> & Ht & _). split; [reflexivity|].
      rewrite Ht. cbn [size_of]. unfold len.
      rewrite (dict_del_length _ _ _ Hvb'), (dict_del_length _ _ _ Hva).
      assert (2 <= List.length d)%nat; [|lia].
      pose proof (dict_del_length _ _ _ Hva) as L1.
      pose proof (dict_del_length _ _ _ Hvb') as L2.
      destruct d as [|? [|? ?]]; cbn in *; try discriminate; try lia.
      destruct p as [k0 v0]. cbn in *.
      destruct (pyval_eqb k0 a); cbn in *; discriminate.
Qed.
End Removal.

(** C5, as the code has it: for a local editor without filter over a list
    and two different positions of it, or over a dictionary and two
    different keys of it that [<] can compare, [remove_values] gives the
    same result whichever key comes first, returns, and leaves two rows
    fewer. *)
Theorem remove_values_order_independent {ext : Externals} :
  forall w o k1 k2,
    view w = CollectionsEditorTableView ->
    remote w = false ->
    dictfilter w = None ->
    nth_error (heap w) (_data w) = Some o ->
    removable o k1 k2 ->
    run (remove_values [k1; k2]) w = run (remove_values [k2; k1]) w
    /\ exists w',
         run (remove_values [k1; k2]) w = (Ok tt, w')
         /\ total_rows w' = size_of o - 2.
Proof.
  intros w o k1 k2 Hview Hlocal Hfilter Hd Hrem.
  assert (Hcmp : pyval_eqb k1 k2 = false /\ exists b, py_lt k1 k2 = Ok b).
  { destruct o; try contradiction.
    - destruct Hrem as (i & j & -> & -> & _ & _ & Hne). split.
      + cbn. now apply Z.eqb_neq.
      + cbn. eauto.
    - destruct Hrem as (_ & _ & _ & Hne & Hlt & _). auto. }
  destruct Hcmp as [Hne [b Hlt]].
  destruct (sorted_pair_descending k1 k2 b Hne Hlt) as [S1 S2].
  split.
  { unfold run, remove_values, bind, gets, get_data, lift.
    rewrite Hview, S1, S2. reflexivity. }
  apply wp_returns.
  eapply (remove_sorted_pair w o [k1; k2]
            (if b then k2 else k1) (if b then k1 else k2));
    try assumption.
  { rewrite S1. now destruct b. }
  destruct o; try contradiction.
  - destruct Hrem as (i & j & -> & -> & Hi & Hj & Hij).
    cbn in Hlt. injection Hlt as <-.
    destruct (i <? j) eqn:E.
    + rewrite Z.ltb_lt in E. exists j, i. repeat split; lia.
    + rewrite Z.ltb_ge in E. exists i, j. repeat split; lia.
  - destruct Hrem as (Hh & H1 & H2 & _ & _ & V1 & V2).
    destruct b; repeat split; auto.
    now rewrite pyval_eqb_sym.
Qed.

Lemma remove_values_order_independent_witness :
  run (remove_values [VInt 0; VInt 2]) (editor_of four_list false)
  = run (remove_values [VInt 2; VInt 0]) (editor_of four_list false)
  /\ exists w',
       run (remove_values [VInt 0; VInt 2]) (editor_of four_list false)
       = (Ok tt, w')
       /\ total_rows w' = 4 - 2.
Proof.
  apply (remove_values_order_independent (editor_of four_list false)
           four_list (VInt 0) (VInt 2)); try reflexivity.
  exists 0, 2. repeat split; vm_compute; congruence.
Defined.

(** C5, as stated, fails: over a tuple [remove_values] raises
    AttributeError and removes nothing. *)
Lemma remove_values_on_tuple :
  let w := editor_of three_tuple false in
  total_rows w = 3
  /\ fst (run (remove_values [VInt 0; VInt 1]) w) = Raise attribute_error
  /\ heap (snd (run (remove_values [VInt 0; VInt 1]) w)) = [three_tuple]
  /\ total_rows (snd (run (remove_values [VInt 0; VInt 1]) w)) = 3
  /\ total_rows (snd (run (remove_values [VInt 0; VInt 1]) w))
       <> total_rows w - 2.
Proof. vm_compute. repeat split; discriminate. Qed.

(** Two keys of a dictionary that [<] cannot compare: [sorted] raises
    TypeError before anything is removed. *)
Lemma remove_values_unorderable_keys :
  let w := editor_of mixed_dict false in
  run (remove_values [VInt 1; VStr "a"]) w = (Raise unorderable, w).
Proof. vm_compute. reflexivity. Qed.

(** ** Renaming and duplicating *)

Lemma seq_get_single {A} (x : A) : seq_get [x] 0 = Ok x.
Proof. reflexivity. Qed.

Lemma selected_source_rows_eq {ext : Externals} indexes w :
  selected_source_rows indexes w = (Ok (source_rows w indexes), w).
Proof. reflexivity. Qed.

(** C6: with one valid row selected, a rename whose source key is not a
    text only shows the warning and leaves the collection and the model
    as they are; a rename or a duplicate whose new key, once evaluated
    by [try_to_eval], equals the source key returns without any change;
    and when the evaluated key is another one, the item is copied to it
    and, on a rename, the original is removed. *)
Theorem copy_item_guards {ext : Externals} :
  forall w sel first rest r0 orig_key new_name dialog,
    selectedIndexes sel = first :: rest ->
    isValid first = true ->
    source_rows w (first :: rest) = [r0] ->
    seq_get (keys w) r0 = Ok orig_key ->
    (is_str orig_key = false ->
       run (rename_item sel new_name dialog) w
       = (Ok tt, set_log (log w ++ [rename_warning]) w))
    /\ (forall erase_original o new_key evaluated,
          (erase_original = true -> is_str orig_key = true) ->
          nth_error (heap w) (_data w) = Some o ->
          is_list o || is_set o || is_frozenset o = false ->
          match new_name with Some n => (n, true) | None => dialog end
            = (new_key, true) ->
          String.eqb (to_text_string new_key) EmptyString = false ->
          try_to_eval (to_text_string new_key) = Ok evaluated ->
          (pyval_eqb evaluated orig_key = true ->
             run (copy_item sel erase_original new_name dialog) w
             = (Ok tt, w))
          /\ (pyval_eqb evaluated orig_key = false ->
                run (copy_item sel erase_original new_name dialog) w
                = run (copy_value orig_key evaluated ;;
                       when erase_original (remove_values [orig_key]) ;;
                       emit (deselect_index (currentIndex sel))) w)).
Proof.
  intros w sel first rest r0 orig_key new_name dialog Hsel Hvalid Hrows Hkey.
  assert (Hstart : forall erase Q,
    wp (if erase && negb (is_str orig_key)
        then emit rename_warning
        else
          data <- get_data ;;
          o <- deref data ;;
          answer <-
            (if is_list o || is_set o || is_frozenset o
             then n <- py_len data ;; ret (VInt n, true)
             else match new_name with
                  | Some n => ret (n, true)
                  | None => ret dialog
                  end) ;;
          let '(new_key, valid) := answer in
          if valid && negb (String.eqb (to_text_string new_key) EmptyString)
          then
            new_key <- lift (try_to_eval (to_text_string new_key)) ;;
            if pyval_eqb new_key orig_key then ret tt
            else
              copy_value orig_key new_key ;;
              when erase (remove_values [orig_key]) ;;
              emit (deselect_index (currentIndex sel))
          else emit (deselect_index (currentIndex sel))) Q w ->
    wp (copy_item sel erase new_name dialog) Q w).
  { intros erase Q H. unfold copy_item. rewrite Hsel.
    wp_step. eapply wp_eq; [apply selected_source_rows_eq|].
    rewrite Hrows. cbn beta iota.
    change (len [r0] >? 1) with false. rewrite Hvalid. cbn [orb negb].
    wp_step. wp_step. cbn beta iota.
    wp_step. wp_step. rewrite seq_get_single. cbn beta iota.
    wp_step. wp_step. rewrite Hkey. cbn beta iota.
    exact H. }
  split.
  - intros Hstr.
    assert (H : wp (rename_item sel new_name dialog)
                  (fun r w' =>
                     (r, w') = (Ok tt, set_log (log w ++ [rename_warning]) w))
                  w).
    { unfold rename_item. apply Hstart. rewrite Hstr. cbn [andb negb].
      wp_step. reflexivity. }
    unfold wp in H. unfold run.
    destruct (rename_item sel new_name dialog w). exact H.
  - intros erase o new_key evaluated Herase Hd Hkind Hanswer Htext Heval.
    assert (Hgo : forall Q,
              wp (if pyval_eqb evaluated orig_key then ret tt
                  else
                    copy_value orig_key evaluated ;;
                    when erase (remove_values [orig_key]) ;;
                    emit (deselect_index (currentIndex sel))) Q w ->
              wp (copy_item sel erase new_name dialog) Q w).
    { intros Q H. apply Hstart.
      replace (erase && negb (is_str orig_key)) with false
        by (destruct erase; [rewrite Herase by reflexivity|]; reflexivity).
      wp_step. wp_step. cbn beta iota. wp_step.
      eapply wp_deref_known; [exact Hd|]. cbn beta iota.
      rewrite Hkind. wp_step.
      apply wp_eq with (r := Ok (new_key, true)) (w' := w).
      { destruct new_name; unfold ret; congruence. }
      cbn [andb]. rewrite Htext. cbn [negb].
      wp_step. wp_step. rewrite Heval. cbn beta iota. exact H. }
    split; intros Heq.
    + assert (H : wp (copy_item sel erase new_name dialog)
                    (fun r w' => (r, w') = (Ok tt, w)) w).
      { apply Hgo. rewrite Heq. wp_step. reflexivity. }
      unfold wp in H. unfold run.
      destruct (copy_item sel erase new_name dialog w). exact H.
    + set (rest_of := copy_value orig_key evaluated ;;
                      when erase (remove_values [orig_key]) ;;
                      emit (deselect_index (currentIndex sel))).
      assert (H : wp (copy_item sel erase new_name dialog)
                    (fun r w' => (r, w') = run rest_of w) w).
      { apply Hgo. rewrite Heq. unfold wp, run.
        symmetry. apply surjective_pairing. }
      unfold wp in H. unfold run in *.
      rewrite <- H. apply surjective_pairing.
Qed.

Lemma copy_item_guards_witness :
  let w := editor_of named_dict false in
  run (rename_item (select_row 1) None (VStr "x", true)) w
  = (Ok tt, set_log (log w ++ [rename_warning]) w)
  /\ run (rename_item (select_row 0) None (VStr "alpha", true)) w
     = (Ok tt, w).
Proof.
  intros w. split.
  - refine (proj1 (copy_item_guards w (select_row 1)
                     (index_at 1) [] 1 (VInt 7) None (VStr "x", true)
                     _ _ _ _) _); vm_compute; reflexivity.
  - refine (proj1 (proj2 (copy_item_guards w (select_row 0)
                            (index_at 0) [] 0 (VStr "alpha") None
                            (VStr "alpha", true) _ _ _ _)
                     true named_dict (VStr "alpha") (VStr "alpha")
                     _ _ _ _ _ _) _); vm_compute; reflexivity.
Defined.

(** C6, as stated, fails: the new key is compared after [try_to_eval].
    Renaming the key ['1'] of a dictionary to the text [1], the key's own
    text, evaluates it to the number 1, which is not the source key: the
    value is copied to the key 1 and the key ['1'] is removed. *)
Lemma rename_to_own_text_renames :
  let w := editor_of numbered_dict false in
  let entered := VStr "1" in
  let w' := snd (run (rename_item (select_row 0) None (entered, true)) w) in
  keys w = [VStr "1"]
  /\ pyval_eqb entered (VStr "1") = true
  /\ to_text_string entered = to_text_string (VStr "1")
  /\ fst (run (rename_item (select_row 0) None (entered, true)) w) = Ok tt
  /\ nth_error (heap w) 0%nat = Some (ODict [(VStr "1", VInt 5)])
  /\ nth_error (heap w') 0%nat = Some (ODict [(VInt 1, VInt 5)])
  /\ keys w' = [VInt 1]
  /\ w' <> w.
Proof. vm_compute. repeat split. discriminate. Qed.

(** ** The filter of the proxy *)

Lemma str_contains_empty s : str_contains EmptyString s = true.
Proof. destruct s; reflexivity. Qed.

(** C8: [filterAcceptsRow] rejects a row exactly when the pattern is
    found neither in the text of its key nor in the text of its type;
    after [set_filter(text)] the pattern is the case-insensitive
    substring test against [text], and after [set_filter] with the empty
    text every row is accepted. *)
Theorem filter_hides_unmatched_rows {ext : Externals} :
  forall w text row_num k t,
    seq_get (keys w) row_num = Ok k ->
    seq_get (types w) row_num = Ok t ->
    let name := to_text_string k in
    let variable_type := to_text_string t in
    let found s := str_contains (str_lower text) (str_lower s) in
    run (filterAcceptsRow row_num) w
    = (Ok (pattern w name || pattern w variable_type), w)
    /\ (forall w1,
          run (set_filter text) w = (Ok tt, w1) ->
          run (filterAcceptsRow row_num) w1
          = (Ok (found name || found variable_type), w1)
          /\ (fst (run (filterAcceptsRow row_num) w1) = Ok false
              <-> found name = false /\ found variable_type = false))
    /\ (exists w1, run (set_filter text) w = (Ok tt, w1))
    /\ (forall w0,
          run (set_filter EmptyString) w = (Ok tt, w0) ->
          run (filterAcceptsRow row_num) w0 = (Ok true, w0)).
Proof.
  intros w text r k t Hk Ht name variable_type found.
  assert (Hrun : forall w', keys w' = keys w -> types w' = types w ->
            run (filterAcceptsRow r) w'
            = (Ok (pattern w' name || pattern w' variable_type), w')).
  { intros w' Ek Et.
    unfold run, filterAcceptsRow, row_key, row_type, bind, gets, lift, ret.
    rewrite Ek, Et, Hk, Ht. fold name variable_type.
    destruct (pattern w' name), (pattern w' variable_type); reflexivity. }
  split; [now apply Hrun|].
  split.
  - intros w1 [= <-]. split.
    + now rewrite Hrun.
    + rewrite Hrun by reflexivity. cbn [fst pattern set_pattern set_log].
      change (get_search_regex text name) with (found name).
      change (get_search_regex text variable_type)
        with (found variable_type).
      destruct (found name), (found variable_type); cbn;
        intuition congruence.
  - split; [eexists; reflexivity|].
    intros w0 [= <-]. rewrite Hrun by reflexivity.
    cbn [pattern set_pattern set_log]. unfold get_search_regex.
    cbn [str_lower]. now rewrite str_contains_empty.
Qed.

Lemma filter_hides_unmatched_rows_witness :
  let w := editor_of named_dict false in
  let w1 := snd (run (set_filter "ALP") w) in
  run (filterAcceptsRow 0) w1 = (Ok true, w1).
Proof.
  intros w w1.
  refine (proj1 (proj1 (proj2
            (filter_hides_unmatched_rows w "ALP" 0 (VStr "alpha") (VStr "int")
               _ _)) w1 _));
    vm_compute; reflexivity.
Defined.

(** ** Editors over tuples, sets and frozensets *)

Section ReadOnlyEditor.
Context {ext : Externals}.
Variables (data : loc) (o : pyobj) (d : loc).

Local Abbreviation G := (guarded data o d).
Local Abbreviation K := (keeps data o d).

Lemma keeps_pure {A} (m : M A) : (forall w, snd (m w) = w) -> K m.
Proof. intros H w HG. now rewrite H. Qed.

Lemma keeps_bind {A B} (m : M A) (k : A -> M B) :
  K m -> (forall a, K (k a)) -> K (bind m k).
Proof.
  intros Hm Hk w HG. unfold bind. specialize (Hm w HG).
  destruct (m w) as [[a|e] w1]; cbn [snd] in *; [|exact Hm].
  now apply Hk.
Qed.

(** After reading a field, the rest runs with the value read from a
    guarded state. *)
Lemma keeps_bind_gets {A B} (f : world -> A) (k : A -> M B) :
  (forall w, G w -> K (k (f w))) -> K (bind (gets f) k).
Proof. intros Hk w HG. unfold bind, gets. now apply (Hk w HG). Qed.

Lemma guarded_object w :
  G w -> exists o', nth_error (heap w) d = Some o' /\ tuple_or_list o'.
Proof.
  intros (Ho & _ & _ & _ & _ & _ & _ & [[-> Ht]|[_ [l Hl]]]).
  - exists o. split; [exact Ho|now left].
  - exists (OList l). split; [exact Hl|right; eauto].
Qed.

Lemma keeps_bind_deref {B} (k : pyobj -> M B) :
  (forall o', tuple_or_list o' -> K (k o')) -> K (bind (deref d) k).
Proof.
  intros Hk w HG. unfold bind, deref.
  destruct (guarded_object w HG) as [o' [-> Hkind]].
  now apply (Hk o' Hkind).
Qed.

Lemma guarded_log w l : G w -> G (set_log l w).
Proof. intros HG. exact HG. Qed.

Lemma keeps_emit ev : K (emit ev).
Proof. intros w HG. exact HG. Qed.

(** Replacing the list the model works on by another list. *)
Lemma guarded_store w l l' :
  G w -> nth_error (heap w) d = Some (OList l) ->
  G (set_heap (replace_nth d (OList l') (heap w)) w).
Proof.
  intros (Ho & Hm & Hv & Hf & Hr & Hro & Hd & Htrack) Hl.
  destruct Htrack as [[-> Ht]|[Hne _]].
  - rewrite Ho in Hl. injection Hl as ->. discriminate.
  - repeat split; try assumption.
    + cbn. rewrite nth_error_replace_nth_other by assumption. exact Ho.
    + right. split; [assumption|]. exists l'. cbn.
      apply nth_error_replace_nth. eapply nth_error_lt; eauto.
Qed.

Lemma keeps_store_list l l' :
  forall w, G w -> nth_error (heap w) d = Some (OList l) ->
            G (snd (store d (OList l') w)).
Proof. intros w HG Hl. now apply (guarded_store w l l'). Qed.

(** The writes of the editor go to the object the model works on; on a
    tuple they raise, on a list they give a list. *)
Lemma keeps_py_pop key : K (py_pop d key).
Proof.
  intros w HG. unfold py_pop, bind, deref.
  destruct (guarded_object w HG) as [o' [Hd [Ht|[l ->]]]]; rewrite Hd.
  - destruct o'; try discriminate. exact HG.
  - destruct key; try exact HG.
    destruct (norm_index (len l) z); [|exact HG].
    unfold lift. destruct (seq_get l z); [|exact HG].
    cbn. now apply (guarded_store w l).
Qed.

Lemma keeps_py_setitem key value : K (py_setitem d key value).
Proof.
  intros w HG. unfold py_setitem, bind, deref.
  destruct (guarded_object w HG) as [o' [Hd [Ht|[l ->]]]]; rewrite Hd.
  - destruct o'; try discriminate. exact HG.
  - destruct key; try exact HG.
    unfold lift. destruct (seq_set l z value); [|exact HG].
    cbn. now apply (guarded_store w l).
Qed.

Lemma keeps_list_append value : K (list_append d value).
Proof.
  intros w HG. unfold list_append, bind, deref.
  destruct (guarded_object w HG) as [o' [Hd [Ht|[l ->]]]]; rewrite Hd.
  - destruct o'; try discriminate. exact HG.
  - cbn. now apply (guarded_store w l).
Qed.

Lemma keeps_list_insert i value : K (list_insert d i value).
Proof.
  intros w HG. unfold list_insert, bind, deref.
  destruct (guarded_object w HG) as [o' [Hd [Ht|[l ->]]]]; rewrite Hd.
  - destruct o'; try discriminate. exact HG.
  - cbn. now apply (guarded_store w l).
Qed.

Lemma keeps_set_add value : K (set_add d value).
Proof.
  intros w HG. unfold set_add, bind, deref.
  destruct (guarded_object w HG) as [o' [Hd [Ht|[l ->]]]]; rewrite Hd.
  - destruct o'; try discriminate. exact HG.
  - exact HG.
Qed.

Lemma keeps_py_getitem key : K (py_getitem d key).
Proof. apply keeps_pure. intros. apply py_getitem_pure. Qed.

Lemma keeps_py_len : K (py_len d).
Proof.
  intros w HG. unfold py_len, bind, deref.
  destruct (guarded_object w HG) as [o' [Hd [Ht|[l ->]]]]; rewrite Hd.
  - destruct o'; try discriminate. exact HG.
  - exact HG.
Qed.

(** What a guarded state depends on. *)
Lemma guarded_same w w' :
  G w -> heap w' = heap w -> _data w' = _data w -> same_setup w w' ->
  G w'.
Proof.
  intros (Ho & Hm & Hv & Hf & Hr & Hro & Hd & Htrack) Hh Hd'
         (Sr & _ & _ & Sv & Sro & Sf & Sm & _).
  unfold guarded. rewrite Hh, Hd', Sr, Sv, Sro, Sf, Sm.
  repeat (split; [assumption|]). exact Htrack.
Qed.

(** Reloading the model from the object it works on. *)
Lemma keeps_set_data : K (set_data d None).
Proof.
  intros w HG.
  pose proof HG as (Ho & Hm & Hv & Hf & Hr & Hro & Hd & Htrack).
  destruct (guarded_object w HG) as [o' [Hd' Hkind]].
  assert (Hplain : plain_collection o').
  { destruct Hkind as [Ht|[l ->]]; [|exact I].
    destruct o'; try discriminate. exact I. }
  pose proof (set_data_returns d w o' Hr Hd' Hplain) as H.
  unfold wp in H.
  destruct H as (_ & _ & _ & _ & _ & _ & _ & Hsetup & Hafter).
  assert (Hsame : _data (snd (set_data d None w)) = d
                  /\ heap (snd (set_data d None w)) = heap w).
  { destruct Hkind as [Ht|[l ->]]; [|exact Hafter].
    destruct o'; try discriminate. exact Hafter. }
  destruct Hsame as [Hd1 Hh1].
  apply (guarded_same w); [exact HG|exact Hh1|congruence|exact Hsetup].
Qed.

Lemma keeps_BaseTableView_set_data : K (BaseTableView_set_data (Some d)).
Proof.
  unfold BaseTableView_set_data, reset.
  apply keeps_bind_gets. intros w (_ & _ & _ & -> & _).
  apply keeps_bind; [apply keeps_set_data|intros _].
  apply keeps_bind; [apply keeps_emit|intros _].
  apply keeps_emit.
Qed.

Lemma keeps_sort c ord : K (sort c ord).
Proof.
  intros w HG. pose proof (sort_frame c ord w) as H. unfold wp in H.
  destruct H as (_ & _ & Hh & Hd' & Hsetup).
  now apply (guarded_same w).
Qed.

Lemma keeps_fetchMore n : K (fetchMore n).
Proof.
  intros w HG. pose proof (fetchMore_frame n w) as H. unfold wp in H.
  destruct H as (_ & Hh & Hd' & Hsetup & _).
  now apply (guarded_same w).
Qed.

Lemma keeps_source_model_set_value i v : K (source_model_set_value i v).
Proof.
  unfold source_model_set_value.
  apply keeps_bind_gets. intros w (_ & -> & _).
  now apply keeps_pure.
Qed.

Lemma keeps_forM_ {A} (f : A -> M unit) l :
  (forall a, K (f a)) -> K (forM_ l f).
Proof.
  intros Hf. induction l as [|a l IH]; cbn [forM_].
  - now apply keeps_pure.
  - apply keeps_bind; [apply Hf|intros _; exact IH].
Qed.

Lemma keeps_lift {A} (r : res A) : K (lift r).
Proof. apply keeps_pure. intros w. unfold lift. now destruct r. Qed.

Lemma keeps_mapM_lift {A B} (f : A -> res B) l :
  K (mapM (fun x => lift (f x)) l).
Proof.
  apply keeps_pure. intros w.
  apply (mapM_pure (fun x => lift (f x)) (fun _ => True) l w).
  - intros x w1. unfold lift. now destruct (f x).
  - auto.
Qed.

Lemma keeps_try_clauses {A} (body : M A) clauses :
  K body -> (forall cs h, In (cs, h) clauses -> forall e, K (h e)) ->
  K (try_clauses body clauses).
Proof.
  intros Hb Hh w HG. unfold try_clauses. specialize (Hb w HG).
  destruct (body w) as [[a|e] w1]; cbn [snd] in *; [exact Hb|].
  destruct (select_handler e clauses) as [h|] eqn:Hs; [|exact Hb].
  assert (Hin : exists cs h', In (cs, h') clauses /\ h = h' e).
  { clear -Hs. induction clauses as [|[cs h'] rest IH]; [discriminate|].
    cbn in Hs. destruct (caught_by e cs).
    - injection Hs as <-. exists cs, h'. split; [now left|reflexivity].
    - destruct (IH Hs) as (cs' & h'' & Hin & ->).
      exists cs', h''. split; [now right|reflexivity]. }
  destruct Hin as (cs & h' & Hin & ->).
  now apply (Hh cs h' Hin e).
Qed.

Lemma guarded_view w : G w -> view w = CollectionsEditorTableView.
Proof. now intros (_ & _ & H & _). Qed.

Lemma guarded_data w : G w -> _data w = d.
Proof. now intros (_ & _ & _ & _ & _ & _ & H & _). Qed.

Lemma guarded_readonly w : G w -> readonly w = true.
Proof. now intros (_ & _ & _ & _ & _ & H & _). Qed.
End ReadOnlyEditor.

(** One step of a proof that a computation keeps guarded states. *)
Ltac keeps_step :=
  lazymatch goal with
  | |- keeps _ _ _ (bind (gets view) _) =>
      apply keeps_bind_gets;
      let w := fresh "w" in let H := fresh "HG" in
      intros w H; rewrite (guarded_view _ _ _ _ H); clear w H; cbn iota
  | |- keeps _ _ _ (bind get_data _) =>
      unfold get_data; apply keeps_bind_gets;
      let w := fresh "w" in let H := fresh "HG" in
      intros w H; rewrite (guarded_data _ _ _ _ H); clear w H
  | |- keeps _ _ _ (bind (gets _) _) =>
      apply keeps_bind_gets;
      let w := fresh "w" in
      intros w _; generalize dependent w; intros w; try clear w
  | |- keeps _ _ _ (bind (deref _) _) =>
      apply keeps_bind_deref;
      let o' := fresh "o'" in let Ht := fresh "Ht" in
      intros o' [Ht| [?l ->]];
      [destruct o'; try discriminate Ht; clear Ht|];
      cbn [is_list is_set is_frozenset is_dict is_tuple orb andb negb]
  | |- keeps _ _ _ (bind (py_pop _ _) _) =>
      apply keeps_bind; [apply keeps_py_pop|intros ?]
  | |- keeps _ _ _ (bind (py_getitem _ _) _) =>
      apply keeps_bind; [apply keeps_py_getitem|intros ?]
  | |- keeps _ _ _ (bind (py_len _) _) =>
      apply keeps_bind; [apply keeps_py_len|intros ?]
  | |- keeps _ _ _ (bind (py_setitem _ _ _) _) =>
      apply keeps_bind; [apply keeps_py_setitem|intros ?]
  | |- keeps _ _ _ (bind (list_append _ _) _) =>
      apply keeps_bind; [apply keeps_list_append|intros ?]
  | |- keeps _ _ _ (bind (list_insert _ _ _) _) =>
      apply keeps_bind; [apply keeps_list_insert|intros ?]
  | |- keeps _ _ _ (bind (BaseTableView_set_data _) _) =>
      apply keeps_bind; [apply keeps_BaseTableView_set_data|intros ?]
  | |- keeps _ _ _ (bind (lift _) _) =>
      apply keeps_bind; [apply keeps_lift|intros ?]
  | |- keeps _ _ _ (bind (mapM _ _) _) =>
      apply keeps_bind; [apply keeps_mapM_lift|intros ?]
  | |- keeps _ _ _ (bind (emit _) _) =>
      apply keeps_bind; [apply keeps_emit|intros ?]
  | |- keeps _ _ _ (bind (forM_ _ _) _) =>
      apply keeps_bind; [apply keeps_forM_; intros ?|intros ?]
  | |- keeps _ _ _ (bind _ _) => apply keeps_bind; [|intros ?]
  | |- keeps _ _ _ (when _ _) => unfold when
  | |- keeps _ _ _ (if ?b then _ else _) => destruct b eqn:?
  | |- keeps _ _ _ (let '(_, _) := ?x in _) => destruct x
  | |- keeps _ _ _ (match ?x with _ => _ end) => destruct x eqn:?
  | |- keeps _ _ _ (ret _) => apply keeps_pure; reflexivity
  | |- keeps _ _ _ (raise _) => apply keeps_pure; reflexivity
  | |- keeps _ _ _ (emit _) => apply keeps_emit
  | |- keeps _ _ _ (lift _) => apply keeps_lift
  | |- keeps _ _ _ (py_pop _ _) => apply keeps_py_pop
  | |- keeps _ _ _ (py_setitem _ _ _) => apply keeps_py_setitem
  | |- keeps _ _ _ (py_getitem _ _) => apply keeps_py_getitem
  | |- keeps _ _ _ (py_len _) => apply keeps_py_len
  | |- keeps _ _ _ (list_append _ _) => apply keeps_list_append
  | |- keeps _ _ _ (list_insert _ _ _) => apply keeps_list_insert
  | |- keeps _ _ _ (set_add _ _) => apply keeps_set_add
  | |- keeps _ _ _ (BaseTableView_set_data _) =>
      apply keeps_BaseTableView_set_data
  end.

Section ReadOnlyRequests.
Context {ext : Externals}.
Variables (data : loc) (o : pyobj) (d : loc).

Lemma keeps_remove_values ks : keeps data o d (remove_values ks).
Proof. unfold remove_values. repeat keeps_step. Qed.

Lemma keeps_copy_value a b : keeps data o d (copy_value a b).
Proof. unfold copy_value. repeat keeps_step. Qed.

Lemma keeps_new_value sel k v : keeps data o d (new_value sel k v).
Proof. unfold new_value. repeat keeps_step. Qed.

Lemma keeps_selected_source_rows l : keeps data o d (selected_source_rows l).
Proof. unfold selected_source_rows. repeat keeps_step. Qed.

Lemma keeps_remove_item sel force yes pytest :
  keeps data o d (remove_item sel force yes pytest).
Proof.
  unfold remove_item.
  repeat first
    [ apply keeps_remove_values
    | apply keeps_bind; [apply keeps_selected_source_rows|intros ?]
    | keeps_step ].
Qed.

Lemma keeps_copy_item sel erase new_name dialog :
  keeps data o d (copy_item sel erase new_name dialog).
Proof.
  unfold copy_item.
  repeat first
    [ apply keeps_remove_values
    | apply keeps_copy_value
    | apply keeps_bind; [apply keeps_selected_source_rows|intros ?]
    | apply keeps_bind; [apply keeps_copy_value|intros ?]
    | keeps_step ].
Qed.

Lemma keeps_rowCount : keeps data o d rowCount.
Proof. now apply keeps_pure. Qed.

Lemma keeps_insert_item sel below kd vd :
  keeps data o d (insert_item sel below kd vd).
Proof.
  unfold insert_item.
  repeat first
    [ apply keeps_new_value
    | apply keeps_rowCount
    | keeps_step ].
Qed.

Lemma keeps_proxy_set_value i v : keeps data o d (proxy_set_value i v).
Proof.
  unfold proxy_set_value. apply keeps_try_clauses.
  - keeps_step. apply keeps_source_model_set_value.
  - intros cs h [[= <- <-]|[]] e. now apply keeps_pure.
Qed.

Lemma keeps_serve r : keeps data o d (serve r).
Proof.
  destruct r; cbn [serve].
  - apply keeps_remove_item.
  - apply keeps_copy_item.
  - apply keeps_copy_item.
  - apply keeps_insert_item.
  - apply keeps_remove_values.
  - apply keeps_copy_value.
  - apply keeps_new_value.
  - apply keeps_source_model_set_value.
  - apply keeps_proxy_set_value.
  - apply keeps_sort.
  - apply keeps_fetchMore.
Qed.

Lemma serve_all_guarded rs :
  forall w, guarded data o d w -> guarded data o d (serve_all rs w).
Proof.
  induction rs as [|r rs IH]; intros w HG; cbn [serve_all]; [exact HG|].
  apply IH. now apply keeps_serve.
Qed.
End ReadOnlyRequests.

Section ReadOnlyInit.
Context {ext : Externals}.

Lemma fixed_is_plain o :
  is_tuple o || is_set o || is_frozenset o = true -> plain_collection o.
Proof. destruct o; try discriminate; intros _; exact I. Qed.

(** Building the editor over a tuple, a set or a frozenset. *)
Lemma CollectionsEditorTableView_init_fixed w data o ro t nm :
  view w = CollectionsEditorTableView ->
  nth_error (heap w) data = Some o ->
  is_tuple o || is_set o || is_frozenset o = true ->
  wp (CollectionsEditorTableView_init (Some data) ro t nm)
    (fun r w' =>
       r = Ok tt /\ guarded data o (working_loc (heap w) data o) w') w.
Proof.
  intros Hv Hd Hfixed. unfold CollectionsEditorTableView_init.
  unfold isinstance_opt, isinstance.
  repeat lazymatch goal with
         | |- wp (model_init _ _ _ _) _ _ => fail
         | |- wp (deref _) _ _ =>
             apply (wp_deref_known _ o); [exact Hd|]; cbn beta
         | _ => wp_step
         end.
  rewrite Hfixed, Bool.orb_true_r.
  eapply wp_conseq.
  { apply (model_init_returns data _ o); [exact Hd|].
    now apply fixed_is_plain. }
  intros r w'. simpl_world.
  intros (-> & _ & _ & _ & _ & _ & Hr & _ & Hv' & Hro & Hm & Hf & Hafter).
  assert (Hd' : nth_error (heap w') data = Some o).
  { destruct o; try discriminate; cbn [data_after] in Hafter;
      destruct Hafter as [_ ->]; try exact Hd;
      rewrite nth_error_app1 by (eapply nth_error_lt; eauto); exact Hd. }
  assert (HG : guarded data o (working_loc (heap w) data o) w').
  { unfold guarded.
    split; [exact Hd'|]. split; [exact Hm|]. split; [congruence|].
    split; [exact Hf|]. split; [exact Hr|]. split; [exact Hro|].
    unfold working_loc.
    destruct o; try discriminate; cbn [data_after] in Hafter;
      destruct Hafter as [Hdat Hheap];
      cbn [is_set is_frozenset is_tuple orb];
      (split; [exact Hdat|]).
    - left. split; reflexivity.
    - right. split.
      + apply nth_error_lt in Hd. lia.
      + exists l. rewrite Hheap. apply nth_error_new.
    - right. split.
      + apply nth_error_lt in Hd. lia.
      + exists l. rewrite Hheap. apply nth_error_new. }
  repeat lazymatch goal with
         | |- wp (deref _) _ _ =>
             apply (wp_deref_known _ o); [exact Hd'|]; cbn beta
         | |- _ /\ _ => fail
         | _ => wp_step
         end.
  all: split; [reflexivity|exact HG].
Qed.
End ReadOnlyInit.

(** C10: a [CollectionsEditorTableView] built over a tuple, a set or a
    frozenset is read-only whatever [readonly] argument it is given: the
    constructor returns, [readonly] is true and the model is
    [ReadOnlyCollectionsModel], whose missing [set_value] makes an edit
    raise [AttributeError] (which the proxy's [set_value] swallows) and
    change nothing; and after any sequence of remove, rename, duplicate,
    insert, edit, sort and fetch requests, returning or raising, the
    object the editor was built over is unchanged, the editor is still
    read-only and the menu has its editing actions disabled. *)
Theorem fixed_collections_are_read_only {ext : Externals} :
  forall w data o readonly_arg title_arg names_arg,
    view w = CollectionsEditorTableView ->
    nth_error (heap w) data = Some o ->
    is_tuple o || is_set o || is_frozenset o = true ->
    exists w0,
      run (CollectionsEditorTableView_init (Some data) readonly_arg
             title_arg names_arg) w = (Ok tt, w0)
      /\ read_only_for_good data o w0.
Proof.
  intros w data o ro t nm Hv Hd Hfixed.
  destruct (wp_returns _ _ _ _
              (CollectionsEditorTableView_init_fixed w data o ro t nm
                 Hv Hd Hfixed)) as [w0 [Hrun HG]].
  exists w0. split; [exact Hrun|].
  pose proof HG as (_ & Hm & _ & _ & _ & Hro & _).
  assert (Hset : forall index value,
             run (source_model_set_value index value) w0
             = (Raise attribute_error, w0)).
  { intros i v. unfold run, source_model_set_value, bind, gets.
    rewrite Hm. reflexivity. }
  split; [exact Hro|]. split; [exact Hm|]. split; [exact Hset|].
  split.
  { intros i v. unfold run, proxy_set_value, try_clauses, bind, gets.
    unfold run in Hset. rewrite Hset. reflexivity. }
  intros requests w1.
  pose proof (serve_all_guarded data o _ requests w0 HG) as HG1.
  fold w1 in HG1.
  pose proof HG1 as (Ho1 & Hm1 & _ & _ & _ & Hro1 & _).
  split; [exact Ho1|]. split; [exact Hro1|]. split; [exact Hm1|].
  intros sel m. unfold run, refresh_menu, get_data, bind, gets, ret.
  destruct (deref (_data w1) w1) as [[o'|e] w2] eqn:Hderef;
    cbn [fst]; [|discriminate].
  assert (w2 = w1) as ->.
  { unfold deref in Hderef.
    destruct (nth_error (heap w1) (_data w1)); now inversion Hderef. }
  rewrite Hro1. intros [= <-]. unfold editing_disabled. cbn.
  rewrite !Bool.andb_false_r. repeat split.
Qed.

Lemma fixed_collections_are_read_only_witness :
  exists w0,
    run (CollectionsEditorTableView_init (Some 0%nat) false EmptyString false)
      (fresh [three_set] CollectionsEditorTableView true None) = (Ok tt, w0)
    /\ read_only_for_good 0%nat three_set w0.
Proof.
  apply (fixed_collections_are_read_only
           (fresh [three_set] CollectionsEditorTableView true None)
           0%nat three_set false EmptyString false);
    vm_compute; reflexivity.
Defined.

(** Over a set the model works on a list made from it: a removal asked
    of the editor shortens that list, and the set stays as it was. *)
Lemma remove_values_on_set_editor :
  let w := editor_of three_set false in
  heap w = [three_set; OList [VInt 10; VInt 11; VInt 12]]
  /\ run (remove_values [VInt 0]) w
     = (Ok tt, snd (run (remove_values [VInt 0]) w))
  /\ heap (snd (run (remove_values [VInt 0]) w))
     = [three_set; OList [VInt 11; VInt 12]].
Proof. vm_compute. repeat split. Qed.

(** * Further properties *)

(** ** The natural order *)

(** X1: on a text of ASCII characters in which no run of digits is
    longer than the 4300 digits [int] takes, [natsort] returns, and gives
    a list of an odd number of pieces that are in turn texts and numbers,
    starting with a text, the texts in lower case.  On a text with a
    longer run of digits it raises ValueError. *)
Theorem natsort_returns_on_ascii_text :
  forall t,
    ascii_text t = true ->
    (short_runs 0 t = true ->
     exists l,
       natsort (VStr t) = Ok (VList l)
       /\ alternating false l = true
       /\ Nat.odd (List.length l) = true
       /\ Forall lower_case l)
    /\ (short_runs 0 t = false ->
        exists e, natsort (VStr t) = Raise e /\ exn_class e = ValueError).
Proof.
  intros t Ht. split; intros Hshort.
  - destruct (natsort_pieces t EmptyString false Ht eq_refl
                ltac:(discriminate) Hshort)
      as (l & Hl & Halt & Hodd & Hlow).
    exists l. cbn. rewrite Hl. auto.
  - destruct (natsort_pieces_long t EmptyString false
                ltac:(discriminate) Hshort) as [e He].
    assert (Hr : natsort (VStr t) = Raise e) by (cbn; now rewrite He).
    exists e. split; [exact Hr|]. eapply natsort_str_raises; eauto.
Qed.

Lemma natsort_returns_on_ascii_text_witness :
  ascii_text "a10B" = true
  /\ short_runs 0 "a10B" = true
  /\ exists l,
       natsort (VStr "a10B") = Ok (VList l)
       /\ alternating false l = true
       /\ Nat.odd (List.length l) = true
       /\ Forall lower_case l.
Proof.
  split; [reflexivity|]. split; [reflexivity|].
  apply (proj1 (natsort_returns_on_ascii_text "a10B" eq_refl)).
  reflexivity.
Defined.

(** X2: on two texts of ASCII characters without a run of more than 4300
    digits [lessThan] returns what the comparison of the [natsort] keys
    gives, without needing its [except] branch; a text is not less than
    itself, and of two texts at most one is less than the other. *)
Theorem lessThan_orders_ascii_text :
  forall a b,
    ascii_text a = true -> ascii_text b = true ->
    short_runs 0 a = true -> short_runs 0 b = true ->
    exists r,
      lessThan_body (VStr a) (VStr b) = Ok r
      /\ lessThan (VStr a) (VStr b) = Ok r
      /\ lessThan (VStr a) (VStr a) = Ok false
      /\ (r = true -> lessThan (VStr b) (VStr a) = Ok false).
Proof.
  intros a b Ha Hb Sa Sb.
  destruct (natsort_ascii a Ha Sa) as (la & Hla & Aa & _).
  destruct (natsort_ascii b Hb Sb) as (lb & Hlb & Ab & _).
  destruct (seq_lt_alternating la lb false Aa Ab) as [r Hr].
  destruct (seq_lt_alternating la la false Aa Aa) as [r0 Hr0].
  exists r. unfold lessThan, lessThan_body, try_except.
  cbn [is_str andb]. rewrite Hla, Hlb. cbn [res_bind].
  rewrite !py_lt_list, Hr, Hr0.
  split; [reflexivity|]. split; [reflexivity|]. split.
  - f_equal. apply (py_lt_equal (VList la) (VList la));
      [apply pyval_eqb_refl|exact Hr0].
  - intros ->.
    destruct (pyval_eqb (VList la) (VList lb)) eqn:E.
    + pose proof (py_lt_equal _ _ _ E Hr). discriminate.
    + rewrite <- py_lt_list.
      now rewrite (py_lt_flip _ _ _ E Hr).
Qed.

Lemma lessThan_orders_ascii_text_witness :
  exists r,
    lessThan_body (VStr "b2") (VStr "B10") = Ok r
    /\ lessThan (VStr "b2") (VStr "B10") = Ok r
    /\ lessThan (VStr "b2") (VStr "b2") = Ok false
    /\ (r = true -> lessThan (VStr "B10") (VStr "b2") = Ok false).
Proof.
  apply (lessThan_orders_ascii_text "b2" "B10"); reflexivity.
Defined.

Lemma re_split_no_digit p : forall cur rest,
  no_digit p = true ->
  re_split_digits cur false (String.append p rest)
  = re_split_digits (String.append cur p) false rest.
Proof.
  induction p as [|c p IH]; intros cur rest Hp; cbn [String.append].
  - now rewrite append_empty_r.
  - cbn in Hp. apply andb_true_iff in Hp. destruct Hp as [Hc Hp].
    apply negb_true_iff in Hc. cbn [re_split_digits]. rewrite Hc.
    cbn [Bool.eqb]. rewrite (IH _ _ Hp). now rewrite append_snoc.
Qed.

Lemma re_split_digit_run d : forall cur,
  forallb_string is_ascii_digit d = true ->
  re_split_digits cur true d = [String.append cur d; EmptyString].
Proof.
  induction d as [|c d IH]; intros cur Hd; cbn [re_split_digits].
  - now rewrite append_empty_r.
  - cbn in Hd. apply andb_true_iff in Hd. destruct Hd as [Hc Hd].
    rewrite Hc. cbn [Bool.eqb]. rewrite (IH _ Hd). now rewrite append_snoc.
Qed.

(** A name made of a text without digits and a final run of digits. *)
Lemma natsort_name_number p d :
  no_digit p = true -> str_isdigit p = false -> digit_run d = true ->
  short_runs 0 d = true ->
  natsort (VStr (String.append p d))
  = Ok (VList [VStr (str_lower p); VInt (decimal_value 0 d);
               VStr EmptyString]).
Proof.
  intros Hp Hnd Hd Hshort. cbn [natsort].
  rewrite (re_split_no_digit p EmptyString d Hp). cbn [String.append].
  pose proof Hd as Hd'. unfold digit_run in Hd'.
  apply andb_true_iff in Hd'. destruct Hd' as [Hall Hne].
  assert (Hlen : leading_digits d <= int_max_str_digits).
  { pose proof (short_runs_leading d 0 Hall ltac:(discriminate) Hshort).
    lia. }
  destruct d as [|c d]; [discriminate|].
  pose proof Hall as Hall'.
  cbn in Hall. apply andb_true_iff in Hall. destruct Hall as [Hc Hrest].
  cbn [re_split_digits]. rewrite Hc. cbn [Bool.eqb].
  rewrite (re_split_digit_run d _ Hrest). cbn [String.append res_map].
  rewrite (natsort_piece_text p Hnd), (natsort_piece_digit_run _ Hd Hlen).
  reflexivity.
Qed.

(** X3: names that are the same text without digits, up to case,
    followed by a run of at most 4300 digits are ordered by the number
    the digits write: [lessThan] returns whether the first number is the
    smaller. *)
Theorem lessThan_orders_numbered_names :
  forall p1 p2 d1 d2,
    no_digit p1 = true -> str_isdigit p1 = false ->
    no_digit p2 = true -> str_isdigit p2 = false ->
    str_lower p1 = str_lower p2 ->
    digit_run d1 = true -> digit_run d2 = true ->
    short_runs 0 d1 = true -> short_runs 0 d2 = true ->
    lessThan (VStr (String.append p1 d1)) (VStr (String.append p2 d2))
    = Ok (decimal_value 0 d1 <? decimal_value 0 d2).
Proof.
  intros p1 p2 d1 d2 H1 N1 H2 N2 Hlow D1 D2 S1 S2.
  unfold lessThan, lessThan_body, try_except. cbn [is_str andb].
  rewrite (natsort_name_number p1 d1 H1 N1 D1 S1).
  rewrite (natsort_name_number p2 d2 H2 N2 D2 S2).
  cbn [res_bind py_lt pyval_eqb]. rewrite Hlow, String.eqb_refl.
  destruct (decimal_value 0 d1 =? decimal_value 0 d2) eqn:E.
  - apply Z.eqb_eq in E. rewrite E, Z.ltb_irrefl. reflexivity.
  - reflexivity.
Qed.

Lemma lessThan_orders_numbered_names_witness :
  lessThan (VStr "Test3") (VStr "test100") = Ok true.
Proof.
  apply (lessThan_orders_numbered_names "Test" "test" "3" "100");
    reflexivity.
Defined.

(** ** Loading rows *)

Section Loading.
Context {ext : Externals}.

(** What a [fetchMore] that returns has done. *)
Lemma fetchMore_returns n w :
  wp (fetchMore n)
    (fun r w' =>
       r = Ok tt ->
       total_rows w' = total_rows w
       /\ keys w' = keys w
       /\ (total_rows w <= rows_loaded w -> w' = w)
       /\ (rows_loaded w < total_rows w ->
           let items :=
             Z.min (total_rows w - rows_loaded w)
               match n with Some k => k | None => ROWS_TO_LOAD end in
           rows_loaded w' = rows_loaded w + items
           /\ log w' = log w ++ [InsertRows (rows_loaded w)
                                   (rows_loaded w + items - 1)]
           /\ len (sizes w') = len (sizes w) + Z.max 0 items
           /\ len (types w') = len (types w) + Z.max 0 items)) w.
Proof.
  unfold fetchMore. wp_model.
  all: try discriminate.
  - intros _. rewrite Z.leb_le in *.
    split; [reflexivity|]. split; [reflexivity|].
    split; [reflexivity|]. intros; lia.
  - intros _. rewrite Z.leb_gt in *. simpl_world.
    split; [reflexivity|]. split; [reflexivity|].
    split; [lia|]. intros _.
    assert (E : match n with
                | Some n0 => Z.min (total_rows w - rows_loaded w) n0
                | None => Z.min (total_rows w - rows_loaded w) ROWS_TO_LOAD
                end
                = Z.min (total_rows w - rows_loaded w)
                    match n with Some k => k | None => ROWS_TO_LOAD end)
      by (destruct n; reflexivity).
    rewrite E in *.
    split; [reflexivity|]. split; [reflexivity|].
    rewrite !len_app. unfold len. rewrite Hns, Hnt. split; lia.
Qed.

Lemma readable_after_set_data w data o w1 :
  nth_error (heap w) data = Some o ->
  plain_collection o ->
  keys w1 = keys_of o ->
  data_after w data o w1 ->
  readable (heap w1) (_data w1) (keys w1) (size_of o).
Proof.
  intros Hd Hplain Hk Hafter. rewrite Hk.
  destruct o; try contradiction; cbn [data_after keys_of size_of] in *;
    destruct Hafter as [-> ->].
  - apply readable_sequence. now right.
  - apply readable_sequence. now left.
  - apply readable_sequence. left. apply nth_error_new.
  - apply readable_sequence. left. apply nth_error_new.
  - now apply readable_dict.
Qed.

(** Loading more rows returns when the model is local and the keys of
    the rows asked for can be read. *)
Lemma set_size_and_type_more_returns a b Q w :
  remote w = false ->
  0 <= a ->
  readable (heap w) (_data w) (keys w) b ->
  (forall ns nt,
      List.length ns = Z.to_nat (b - a) ->
      List.length nt = Z.to_nat (b - a) ->
      Q (Ok tt) (set_types (types w ++ nt) (set_sizes (sizes w ++ ns) w))) ->
  wp (set_size_and_type (Some a) (Some b)) Q w.
Proof.
  intros Hlocal Ha Hread Hok. unfold set_size_and_type.
  wp_steps. rewrite Hlocal.
  apply wp_mapM_total with (P := fun _ => True).
  { intros x w0; apply (load_size_pure false (keys w) (_data w) x w0). }
  { intros i Hi. apply in_range in Hi.
    destruct (Hread i) as [k [v [Hk Hv]]]; [lia|].
    exists (get_size v). split; [|exact I].
    unfold bind, lift. rewrite Hk.
    pose proof (py_getitem_pure (_data w) k w) as Hp.
    specialize (Hv w eq_refl).
    destruct (py_getitem (_data w) k w) as [r w1]; cbn in *. now subst. }
  intros ns Hlen _. wp_steps.
  apply wp_mapM_total with (P := fun _ => True).
  { intros x w0; apply (load_type_pure false (keys w) (_data w) x w0). }
  { intros i Hi. apply in_range in Hi.
    destruct (Hread i) as [k [v [Hk Hv]]]; [lia|].
    exists (VStr (get_human_readable_type v)). split; [|exact I].
    unfold bind, lift. rewrite Hk.
    pose proof (py_getitem_pure (_data w) k w) as Hp.
    specialize (Hv w eq_refl).
    destruct (py_getitem (_data w) k w) as [r w1]; cbn in *. now subst. }
  intros nt Hlen' _. wp_steps.
  rewrite range_length in *. now apply Hok.
Qed.

Lemma load_all_returns w :
  remote w = false ->
  0 <= rows_loaded w ->
  readable (heap w) (_data w) (keys w) (total_rows w) ->
  exists w', run load_all w = (Ok tt, w').
Proof.
  intros Hlocal Hpos Hread.
  assert (H : wp load_all (fun r _ => r = Ok tt) w).
  { unfold load_all, fetchMore.
    repeat (first
      [ wp_step
      | lazymatch goal with
        | |- wp (set_size_and_type (Some _) (Some _)) _ _ =>
            apply set_size_and_type_more_returns;
            [exact Hlocal|exact Hpos| |intros ?ns ?nt ?Hns ?Hnt]
        end ]); try reflexivity.
    rewrite Z.leb_gt in *. eapply readable_fewer; [|exact Hread]. lia. }
  unfold wp in H. unfold run. destruct (load_all w) as [r w'].
  cbn in H. subst r. eauto.
Qed.
End Loading.

(** X4: when no more rows are loaded than there are, a [load_all] that
    returns has loaded every row: [rows_loaded] is [total_rows],
    [canFetchMore] answers False, [rowCount] is the number of rows, and
    a further [fetchMore] changes nothing. *)
Theorem load_all_loads_every_row {ext : Externals} :
  forall w w',
    0 <= rows_loaded w <= total_rows w ->
    run load_all w = (Ok tt, w') ->
    rows_loaded w' = total_rows w
    /\ total_rows w' = total_rows w
    /\ keys w' = keys w
    /\ run canFetchMore w' = (Ok false, w')
    /\ run rowCount w' = (Ok (total_rows w), w')
    /\ forall n, run (fetchMore n) w' = (Ok tt, w').
Proof.
  intros w w' Hrange Hrun. unfold load_all in Hrun.
  change (run (fetchMore (Some (total_rows w))) w = (Ok tt, w')) in Hrun.
  use_wp (fetchMore_returns (Some (total_rows w)) w) Hrun X.
  destruct (X eq_refl) as (Ht & Hk & Hsame & Hmore).
  assert (Hl : rows_loaded w' = total_rows w).
  { destruct (Z.eq_dec (rows_loaded w) (total_rows w)) as [E|E].
    - rewrite (Hsame ltac:(lia)). exact E.
    - destruct (Hmore ltac:(lia)) as (-> & _). lia. }
  split; [exact Hl|]. split; [exact Ht|]. split; [exact Hk|].
  unfold run, canFetchMore, rowCount, fetchMore, bind, gets, ret.
  rewrite Hl, Ht.
  replace (total_rows w >? total_rows w) with false
    by (symmetry; rewrite Z.gtb_ltb; apply Z.ltb_irrefl).
  rewrite Z.leb_refl, Z.sub_diag. cbn. auto.
Qed.

Lemma load_all_loads_every_row_witness :
  let w' := snd (run load_all large_model) in
  rows_loaded large_model = 50
  /\ rows_loaded w' = total_rows large_model
  /\ total_rows w' = total_rows large_model
  /\ keys w' = keys large_model
  /\ run canFetchMore w' = (Ok false, w')
  /\ run rowCount w' = (Ok (total_rows large_model), w')
  /\ forall n, run (fetchMore n) w' = (Ok tt, w').
Proof.
  intros w'. split; [vm_compute; reflexivity|].
  apply (load_all_loads_every_row large_model w').
  - vm_compute. split; discriminate.
  - vm_compute. reflexivity.
Defined.

(** X5: calls of [fetchMore] without a count load fifty rows at a time
    and stop at the last row: after [k] calls that return,
    [rows_loaded] is the smaller of [total_rows] and the former
    [rows_loaded] plus [50 * k]. *)
Theorem fetchMore_loads_by_pages {ext : Externals} :
  forall k w w',
    rows_loaded w <= total_rows w ->
    run (repeatM k (fetchMore None)) w = (Ok tt, w') ->
    total_rows w' = total_rows w
    /\ rows_loaded w' =
         Z.min (total_rows w) (rows_loaded w + ROWS_TO_LOAD * Z.of_nat k).
Proof.
  induction k as [|k IH]; intros w w' Hle Hrun.
  - cbn in Hrun. injection Hrun as <-. split; [reflexivity|]. lia.
  - cbn [repeatM] in Hrun. unfold run, bind in Hrun.
    destruct (fetchMore None w) as [[[]|e] w1] eqn:E; [|discriminate].
    use_wp (fetchMore_returns None w) E X.
    destruct (X eq_refl) as (Ht & _ & Hsame & Hmore).
    assert (Hl1 : rows_loaded w1 =
                  Z.min (total_rows w) (rows_loaded w + ROWS_TO_LOAD)).
    { destruct (Z.eq_dec (rows_loaded w) (total_rows w)) as [E1|E1].
      - rewrite (Hsame ltac:(lia)). unfold ROWS_TO_LOAD. lia.
      - destruct (Hmore ltac:(lia)) as (-> & _). lia. }
    destruct (IH w1 w') as [Ht' Hl']; [lia|exact Hrun|].
    split; [congruence|]. rewrite Hl', Ht, Hl1.
    unfold ROWS_TO_LOAD. lia.
Qed.

Lemma fetchMore_loads_by_pages_witness :
  let w' := snd (run (repeatM 2 (fetchMore None)) large_model) in
  total_rows w' = total_rows large_model
  /\ rows_loaded w' =
       Z.min (total_rows large_model)
         (rows_loaded large_model + ROWS_TO_LOAD * Z.of_nat 2).
Proof.
  intros w'.
  apply (fetchMore_loads_by_pages 2 large_model w').
  - vm_compute. discriminate.
  - vm_compute. reflexivity.
Defined.

(** X6: on a local model, [set_data] on a built-in collection followed
    by [load_all] returns, whatever the size of the collection, with
    every row loaded: [sizes] and [types] have as many entries as the
    collection. *)
Theorem load_all_after_set_data {ext : Externals} :
  forall w data o,
    remote w = false ->
    nth_error (heap w) data = Some o ->
    plain_collection o ->
    exists w1 w2,
      run (set_data data None) w = (Ok tt, w1)
      /\ run load_all w1 = (Ok tt, w2)
      /\ keys w2 = keys_of o
      /\ total_rows w2 = size_of o
      /\ rows_loaded w2 = size_of o
      /\ len (sizes w2) = size_of o
      /\ len (types w2) = size_of o.
Proof.
  intros w data o Hlocal Hd Hplain.
  destruct (wp_returns _ _ _ _ (set_data_returns data w o Hlocal Hd Hplain))
    as [w1 [Hrun1 (Hin & Hk & Ht & Hr & _ & _ & Hsetup & Hafter)]].
  destruct Hsetup as (Hlocal1 & _).
  destruct Hin as [(Hs & Hty & Hle & Hkl) _].
  assert (Hpos : 0 <= rows_loaded w1).
  { rewrite <- Hs. apply len_nonneg. }
  pose proof (readable_after_set_data w data o w1 Hd Hplain Hk Hafter)
    as Hread.
  rewrite <- Ht in Hread.
  destruct (load_all_returns w1) as [w2 Hrun2];
    [congruence|exact Hpos|exact Hread|].
  exists w1, w2. split; [exact Hrun1|]. split; [exact Hrun2|].
  unfold load_all, run, bind, gets in Hrun2.
  use_wp (fetchMore_returns (Some (total_rows w1)) w1) Hrun2 X.
  destruct (X eq_refl) as (Ht2 & Hk2 & Hsame & Hmore).
  destruct (Z.eq_dec (rows_loaded w1) (total_rows w1)) as [E|E].
  - rewrite (Hsame ltac:(lia)).
    repeat split; try congruence.
  - destruct (Hmore ltac:(lia)) as (Hl & _ & Hs2 & Hty2).
    cbv zeta in *.
    repeat split; try congruence; lia.
Qed.

Lemma load_all_after_set_data_witness :
  exists w1 w2,
    run (set_data 0%nat None)
      (fresh [large_list] CollectionsEditorTableView true None) = (Ok tt, w1)
    /\ run load_all w1 = (Ok tt, w2)
    /\ keys w2 = keys_of large_list
    /\ total_rows w2 = size_of large_list
    /\ rows_loaded w2 = size_of large_list
    /\ len (sizes w2) = size_of large_list
    /\ len (types w2) = size_of large_list.
Proof.
  apply (load_all_after_set_data
           (fresh [large_list] CollectionsEditorTableView true None)
           0%nat large_list); [reflexivity|reflexivity|exact I].
Defined.

(** ** Sorting moves whole rows *)

Section SortMap.
Context {T U : Type}.
Variables (ltT : T -> T -> res bool) (ltU : U -> U -> res bool) (f : T -> U).
Hypothesis lt_map : forall x y, ltU (f x) (f y) = ltT x y.

Lemma insert_sorted_map x s :
  insert_sorted ltU (f x) (map f s) = res_fmap (map f) (insert_sorted ltT x s).
Proof.
  induction s as [|y ys IH]; cbn; [reflexivity|].
  rewrite lt_map. destruct (ltT x y) as [[|]|]; cbn; try reflexivity.
  rewrite IH. destruct (insert_sorted ltT x ys); reflexivity.
Qed.

Lemma sort_into_map l : forall acc,
  sort_into ltU (map f acc) (map f l) = res_fmap (map f) (sort_into ltT acc l).
Proof.
  induction l as [|x xs IH]; intros acc; cbn; [reflexivity|].
  rewrite insert_sorted_map.
  destruct (insert_sorted ltT x acc); cbn; [apply IH|reflexivity].
Qed.

Lemma sort_reverse_map reverse l :
  sort_reverse ltU reverse (map f l)
  = res_fmap (map f) (sort_reverse ltT reverse l).
Proof.
  unfold sort_reverse, stable_sort. destruct reverse.
  - rewrite <- map_rev.
    change (@nil U) with (map f []). rewrite sort_into_map.
    destruct (sort_into ltT [] (rev l)); cbn; [|reflexivity].
    now rewrite map_rev.
  - change (@nil U) with (map f []). apply sort_into_map.
Qed.
End SortMap.

Lemma combine_map_map {T A B} (f : T -> A) (g : T -> B) l :
  combine (map f l) (map g l) = map (fun x => (f x, g x)) l.
Proof. induction l as [|x l IH]; cbn; [reflexivity|now rewrite IH]. Qed.

Lemma combine_map_app {T A B} (f : T -> A) (g : T -> B) l extra :
  combine (map f l) (map g l ++ extra) = map (fun x => (f x, g x)) l.
Proof. induction l as [|x l IH]; cbn; [reflexivity|now rewrite IH]. Qed.

Lemma res_map_identity_key l : res_map identity_key l = Ok l.
Proof. induction l as [|x l IH]; cbn; [reflexivity|now rewrite IH]. Qed.

Section RowSorting.
Context {T : Type}.
Variable kf : T -> pyval.
Variable X R : list T.
Variable reverse : bool.
Hypothesis sorted_rows :
  sort_reverse (fun x y => py_lt (kf x) (kf y)) reverse X = Ok R.

(** Sorting one column against the key column gives that column of the
    sorted rows. *)
Lemma sort_against_rows {P} (pf : T -> P) extra :
  sort_against (map pf X ++ extra) (map kf X) reverse None = map pf R.
Proof.
  unfold sort_against, py_sorted.
  rewrite res_map_fst_ok. cbn [res_bind].
  rewrite combine_map_app, map_map. cbn [fst].
  rewrite combine_map_map.
  rewrite (sort_reverse_map (fun x y => py_lt (kf x) (kf y))
             (fun p q : pyval * (pyval * P) => py_lt (fst p) (fst q))
             (fun x => (kf x, (kf x, pf x)))) by reflexivity.
  rewrite sorted_rows. cbn [res_fmap res_bind].
  now rewrite !map_map.
Qed.

Lemma py_sorted_rows :
  py_sorted (map kf X) identity_key reverse = Ok (map kf R).
Proof.
  unfold py_sorted. rewrite res_map_identity_key. cbn [res_bind].
  rewrite combine_map_map.
  rewrite (sort_reverse_map (fun x y => py_lt (kf x) (kf y))
             (fun p q : pyval * pyval => py_lt (fst p) (fst q))
             (fun x => (kf x, kf x))) by reflexivity.
  rewrite sorted_rows. cbn [res_fmap res_bind].
  now rewrite map_map.
Qed.
End RowSorting.

Lemma rows_columns {A B C} (l1 : list A) : forall (l2 : list B) (l3 : list C),
  List.length l2 = List.length l3 ->
  (List.length l2 <= List.length l1)%nat ->
  l1 = map fst (combine l1 (combine l2 l3)) ++ skipn (List.length l2) l1
  /\ l2 = map (fun r => fst (snd r)) (combine l1 (combine l2 l3))
  /\ l3 = map (fun r => snd (snd r)) (combine l1 (combine l2 l3)).
Proof.
  induction l1 as [|x l1 IH]; intros [|y l2] [|z l3]; cbn;
    try discriminate; try lia; auto.
  intros [= Hlen] Hle. destruct (IH l2 l3 Hlen ltac:(lia)) as (H1 & H2 & H3).
  repeat split; f_equal; assumption.
Qed.

Lemma rows_rebuilt {A B C} (R : list (A * (B * C))) extra :
  combine (map fst R ++ extra)
    (combine (map (fun r => fst (snd r)) R) (map (fun r => snd (snd r)) R))
  = R.
Proof.
  induction R as [|[a [b c]] R IH]; cbn; [now destruct extra|].
  now rewrite IH.
Qed.

Lemma skipn_prefix {A} (l e : list A) n :
  n = List.length l -> skipn n (l ++ e) = e.
Proof.
  intros ->. rewrite skipn_app, Nat.sub_diag, skipn_all. reflexivity.
Qed.

Section RowsTogether.
Context {ext : Externals}.

(** Sorting by a column whose loaded entries can be ordered rearranges
    the loaded rows as wholes and leaves the other keys in place. *)
Lemma sort_by_column_rows (kf : pyval * (pyval * pyval) -> pyval) c ord w :
  in_step w ->
  (c = 1 /\ kf = row_type_of \/ c = 2 /\ kf = row_size_of) ->
  orderable (map kf (rows w)) = true ->
  wp (sort c ord)
    (fun _ w' =>
       Permutation (rows w) (rows w')
       /\ skipn (Z.to_nat (rows_loaded w)) (keys w')
          = skipn (Z.to_nat (rows_loaded w)) (keys w)) w.
Proof.
  intros [(Hs & Ht & Hle & Hk) Hstr] Hc Hord.
  set (reverse := SortOrder_eqb ord DescendingOrder).
  destruct (sort_reverse_ok
              (fun x y : pyval * (pyval * pyval) => py_lt (kf x) (kf y))
              (fun r => In (kf r) (map kf (rows w)))
              ltac:(intros x y Hx Hy; eapply orderable_spec; eauto)
              reverse (rows w)) as [R HR].
  { apply Forall_forall. intros r Hr. now apply in_map. }
  assert (Hn : Z.to_nat (rows_loaded w) = List.length (types w))
    by (unfold len in *; lia).
  destruct (rows_columns (keys w) (types w) (sizes w)) as (Ek & Et & Es);
    [unfold len in *; lia|unfold len in *; lia|].
  fold (rows w) in Ek, Et, Es. rewrite <- Hn in Ek.
  assert (Hperm : Permutation (rows w) R)
    by (eapply sort_reverse_perm; exact HR).
  assert (Hlen : List.length (map fst R) = Z.to_nat (rows_loaded w)).
  { rewrite length_map, <- (Permutation_length Hperm).
    unfold rows. rewrite !length_combine. unfold len in *. lia. }
  assert (Hprefix : forall new,
            assign_prefix (keys w) (rows_loaded w) new
            = new ++ skipn (Z.to_nat (rows_loaded w)) (keys w)).
  { intros new. unfold assign_prefix.
    pose proof (len_nonneg (types w)).
    replace (rows_loaded w <? 0) with false by (symmetry; apply Z.ltb_ge; lia).
    now rewrite Z.min_l by lia. }
  assert (E1 : sort_against (keys w) (map kf (rows w)) reverse None
               = map fst R).
  { rewrite Ek at 1. apply (sort_against_rows kf (rows w) R reverse HR fst). }
  assert (E2 : forall pf : pyval * (pyval * pyval) -> pyval,
            sort_against (map pf (rows w)) (map kf (rows w)) reverse None
            = map pf R).
  { intros pf. rewrite <- (app_nil_r (map pf (rows w))).
    apply (sort_against_rows kf (rows w) R reverse HR pf). }
  pose proof (py_sorted_rows kf (rows w) R reverse HR) as E3.
  assert (Hdone : forall w',
            keys w' = map fst R ++ skipn (Z.to_nat (rows_loaded w)) (keys w) ->
            types w' = map row_type_of R ->
            sizes w' = map row_size_of R ->
            Permutation (rows w) (rows w')
            /\ skipn (Z.to_nat (rows_loaded w)) (keys w')
               = skipn (Z.to_nat (rows_loaded w)) (keys w)).
  { intros w' Hk' Ht' Hs'. unfold rows at 2. rewrite Hk', Ht', Hs'.
    unfold row_type_of, row_size_of. rewrite rows_rebuilt.
    split; [exact Hperm|]. apply skipn_prefix. now rewrite Hlen. }
  unfold sort.
  destruct Hc as [[-> ->]|[-> ->]].
  - change (map row_type_of (rows w)) with
      (map (fun r : pyval * (pyval * pyval) => fst (snd r)) (rows w)) in *.
    rewrite <- Et in *.
    repeat lazymatch goal with
           | |- wp (try_pass _) _ _ => fail
           | _ => wp_step
           end.
    + split; reflexivity.
    + apply wp_try_pass. unfold sort_in_place.
      wp_step. wp_step. fold reverse. rewrite E3. wp_steps.
      apply Hdone; simpl_world.
      * fold reverse. now rewrite E1, Hprefix.
      * reflexivity.
      * fold reverse. rewrite Es at 1.
        apply (E2 (fun r => snd (snd r))).
    + split; reflexivity.
  - change (map row_size_of (rows w)) with
      (map (fun r : pyval * (pyval * pyval) => snd (snd r)) (rows w)) in *.
    rewrite <- Es in *.
    repeat lazymatch goal with
           | |- wp (try_pass _) _ _ => fail
           | _ => wp_step
           end.
    + split; reflexivity.
    + apply wp_try_pass. unfold sort_in_place.
      wp_step. wp_step. fold reverse. rewrite E3. wp_steps.
      apply Hdone; simpl_world.
      * fold reverse. now rewrite E1, Hprefix.
      * fold reverse. rewrite Et at 1.
        apply (E2 (fun r => fst (snd r))).
      * reflexivity.
    + split; reflexivity.
Qed.
End RowsTogether.

(** X7: sorting by the Type column, or by the Size column when the
    loaded sizes can be ordered, moves whole rows: the loaded rows after
    the sort, each with its key, type and size, are a rearrangement of
    the loaded rows before, and the keys of the rows not yet loaded stay
    where they were.  This holds whether [sort] returns or raises. *)
Theorem sort_moves_whole_rows {ext : Externals} :
  forall w c ord,
    in_step w ->
    c = 1 \/ (c = 2 /\ orderable (sizes w) = true) ->
    let w' := snd (run (sort c ord) w) in
    Permutation (rows w) (rows w')
    /\ skipn (Z.to_nat (rows_loaded w)) (keys w')
       = skipn (Z.to_nat (rows_loaded w)) (keys w).
Proof.
  intros w c ord Hin Hc w'.
  pose proof Hin as [(Hs & Ht & Hle & Hk) Hstr].
  destruct (rows_columns (keys w) (types w) (sizes w)) as (_ & Et & Es);
    [unfold len in *; lia|unfold len in *; lia|].
  fold (rows w) in Et, Es.
  destruct Hc as [->|[-> Hord]].
  - apply (sort_by_column_rows row_type_of 1 ord w Hin); [now left|].
    unfold row_type_of. rewrite <- Et. now apply all_string_orderable.
  - apply (sort_by_column_rows row_size_of 2 ord w Hin); [now right|].
    unfold row_size_of. now rewrite <- Es.
Qed.

Lemma sort_moves_whole_rows_witness :
  let w := editor_of typed_dict false in
  let w' := snd (run (sort 1 AscendingOrder) w) in
  rows w = [(VStr "b", (VStr "int", VInt 1)); (VStr "a", (VStr "str", VInt 1));
            (VStr "c", (VStr "int", VInt 1))]
  /\ rows w' = [(VStr "b", (VStr "int", VInt 1));
                (VStr "c", (VStr "int", VInt 1));
                (VStr "a", (VStr "str", VInt 1))]
  /\ Permutation (rows w) (rows w')
  /\ skipn (Z.to_nat (rows_loaded w)) (keys w')
     = skipn (Z.to_nat (rows_loaded w)) (keys w).
Proof.
  intros w w'. split; [vm_compute; reflexivity|].
  split; [vm_compute; reflexivity|].
  apply (sort_moves_whole_rows w 1 AscendingOrder); [|now left].
  vm_compute. repeat split; discriminate.
Defined.

(** ** Sorting keeps the keys *)

Lemma map_snd_combine_firstn {A B} (l2 : list A) : forall (l1 : list B),
  map snd (combine l2 l1) = firstn (List.length l2) l1.
Proof.
  induction l2 as [|x l2 IH]; intros [|y l1]; cbn; try reflexivity.
  now rewrite IH.
Qed.

(** [sort_against] gives its first list back, or a rearrangement of as
    many of its first items as the second list has. *)
Lemma sort_against_perm {A} (l1 : list A) l2 reverse key :
  sort_against l1 l2 reverse key = l1
  \/ Permutation (firstn (List.length l2) l1)
       (sort_against l1 l2 reverse key).
Proof.
  unfold sort_against.
  destruct (py_sorted _ _ reverse) as [r|] eqn:E; [right|now left].
  apply py_sorted_perm in E.
  rewrite <- map_snd_combine_firstn. now apply Permutation_map.
Qed.

Lemma sort_against_orderable_perm {A} (l1 : list A) l2 reverse :
  orderable l2 = true ->
  Permutation (firstn (List.length l2) l1)
    (sort_against l1 l2 reverse None).
Proof.
  intros Hord. unfold sort_against, py_sorted.
  rewrite res_map_fst_ok. cbn [res_bind].
  destruct (sort_reverse_ok
              (fun p q : pyval * (pyval * A) => py_lt (fst p) (fst q))
              (fun p => In (fst p) l2)
              ltac:(intros x y Hx Hy; eapply orderable_spec; eauto)
              reverse
              (combine (map fst (combine l2 l1)) (combine l2 l1)))
    as [r Hr].
  { apply Forall_forall. intros [k p] Hin. cbn.
    apply in_combine_l in Hin. apply in_map_iff in Hin as [[a b] [<- Hin]].
    now apply in_combine_l in Hin. }
  rewrite Hr. cbn [res_bind].
  apply sort_reverse_perm in Hr.
  rewrite <- map_snd_combine_firstn.
  apply Permutation_map.
  rewrite <- (map_snd_combine (map fst (combine l2 l1)) (combine l2 l1))
    at 1 by apply length_map.
  now apply Permutation_map.
Qed.

Lemma assign_prefix_perm {A} (l : list A) n new :
  0 <= n <= len l ->
  Permutation (firstn (Z.to_nat n) l) new ->
  Permutation l (assign_prefix l n new).
Proof.
  intros Hn Hp. unfold assign_prefix.
  replace (n <? 0) with false by (symmetry; apply Z.ltb_ge; lia).
  rewrite Z.min_l by lia.
  rewrite <- (firstn_skipn (Z.to_nat n) l) at 1.
  now apply Permutation_app_tail.
Qed.

Lemma assign_prefix_same {A} (l : list A) :
  assign_prefix l (len l) l = l.
Proof.
  unfold assign_prefix. pose proof (len_nonneg l).
  replace (len l <? 0) with false by (symmetry; apply Z.ltb_ge; lia).
  rewrite Z.min_id. unfold len. rewrite Nat2Z.id, skipn_all.
  apply app_nil_r.
Qed.

Section SortKeys.
Context {ext : Externals}.

Lemma sort_keys_perm c ord w :
  in_step w ->
  admissible (Sort c ord) w ->
  c <> -1 ->
  wp (sort c ord) (fun _ w' => Permutation (keys w) (keys w')) w.
Proof.
  intros [(Hs & Ht & Hle & Hk) Hstr] [Hsize _] Hc. unfold sort.
  pose proof (len_nonneg (sizes w)) as Hpos.
  wp_sort.
  all: simpl_world_all; rewrite ?Z.eqb_eq in *; try reflexivity;
    try assumption; try lia.
  - (* column 1 *)
    apply assign_prefix_perm; [lia|].
    replace (Z.to_nat (rows_loaded w)) with (List.length (types w))
      by (unfold len in *; lia).
    apply sort_against_orderable_perm. now apply all_string_orderable.
  - (* column 2 *)
    assert (Hn : Z.to_nat (rows_loaded w) = List.length (sizes w))
      by (unfold len in *; lia).
    destruct (Hsize ltac:(assumption)) as [Hfull|Hord].
    + destruct (sort_against_perm (keys w) (sizes w)
                  (SortOrder_eqb ord DescendingOrder) None) as [E|E].
      * rewrite E, Hfull, <- Hk, assign_prefix_same. reflexivity.
      * apply assign_prefix_perm; [lia|]. now rewrite Hn.
    + apply assign_prefix_perm; [lia|]. rewrite Hn.
      now apply sort_against_orderable_perm.
  - (* columns 3 and 4 *)
    destruct (sort_against_perm (keys w) values
                (SortOrder_eqb ord DescendingOrder) None) as [E|E].
    + rewrite E. reflexivity.
    + rewrite Hvalues, firstn_all in E. exact E.
Qed.
End SortKeys.

(** X8: [sort] by any column but -1 neither loses nor repeats a key:
    the keys after the call are a rearrangement of the keys before,
    whether the call returns or raises.  For the Size column of a partly
    loaded model this needs loaded sizes that can be ordered. *)
Theorem sort_rearranges_keys {ext : Externals} :
  forall w c ord,
    in_step w ->
    (c = 2 -> rows_loaded w = total_rows w \/ orderable (sizes w) = true) ->
    c <> -1 ->
    Permutation (keys w) (keys (snd (run (sort c ord) w))).
Proof.
  intros w c ord Hin Hsize Hc.
  apply (sort_keys_perm c ord w Hin); [|exact Hc].
  split; [exact Hsize|]. intros E. contradiction.
Qed.

Lemma sort_rearranges_keys_witness :
  let w := editor_of typed_dict false in
  keys w = [VStr "b"; VStr "a"; VStr "c"]
  /\ keys (snd (run (sort 3 DescendingOrder) w)) = keys w
  /\ Permutation (keys w) (keys (snd (run (sort 0 DescendingOrder) w))).
Proof.
  intros w. split; [vm_compute; reflexivity|].
  split; [vm_compute; reflexivity|].
  apply (sort_rearranges_keys w 0 DescendingOrder).
  - vm_compute. repeat split; discriminate.
  - discriminate.
  - discriminate.
Defined.

(** ** Editing a value *)

Lemma norm_index_some n i :
  - n <= i < n -> exists j, norm_index n i = Some j /\ (j < Z.to_nat n)%nat.
Proof.
  intros H. unfold norm_index. destruct (i <? 0) eqn:E.
  - rewrite Z.ltb_lt in E.
    replace ((0 <=? i + n) && (i + n <? n)) with true
      by (symmetry; apply andb_true_iff; split;
          [apply Z.leb_le|apply Z.ltb_lt]; lia).
    eexists. split; [reflexivity|lia].
  - rewrite Z.ltb_ge in E.
    replace ((0 <=? i) && (i <? n)) with true
      by (symmetry; apply andb_true_iff; split;
          [apply Z.leb_le|apply Z.ltb_lt]; lia).
    eexists. split; [reflexivity|lia].
Qed.

(** Assigning to a position, then reading it. *)
Lemma seq_set_get {A} (l : list A) i x :
  - len l <= i < len l ->
  exists l',
    seq_set l i x = Ok l'
    /\ len l' = len l
    /\ seq_get l' i = Ok x
    /\ seq_set l' i x = Ok l'.
Proof.
  intros Hi. destruct (norm_index_some (len l) i Hi) as [j [Hj Hlt]].
  exists (replace_nth j x l). unfold seq_set, seq_get, len in *.
  rewrite replace_nth_length, Hj.
  rewrite nth_error_replace_nth by lia.
  repeat split.
  f_equal. clear Hj Hi. revert j Hlt.
  induction l as [|h t IH]; intros [|j] Hlt; cbn in *; try reflexivity;
    try lia.
  f_equal. apply IH. lia.
Qed.

Lemma dict_get_set d k v : dict_get (dict_set d k v) k = Some v.
Proof.
  induction d as [|[k0 v0] d IH]; cbn.
  - now rewrite pyval_eqb_refl.
  - destruct (pyval_eqb k0 k) eqn:E; cbn; rewrite E; auto.
Qed.

Lemma dict_set_twice d k v : dict_set (dict_set d k v) k v = dict_set d k v.
Proof.
  induction d as [|[k0 v0] d IH]; cbn.
  - now rewrite pyval_eqb_refl.
  - destruct (pyval_eqb k0 k) eqn:E; cbn; rewrite E; [reflexivity|].
    now rewrite IH.
Qed.

Lemma replace_nth_twice {A} (l : list A) j x y :
  replace_nth j x (replace_nth j y l) = replace_nth j x l.
Proof.
  revert j. induction l as [|h t IH]; intros [|j]; cbn; auto.
  now rewrite IH.
Qed.

Section Editing.
Context {ext : Externals}.

(** [data[k] = v] on an object that takes the key, and what reading and
    assigning again give afterwards. *)
Lemma py_setitem_settable d o k v w :
  nth_error (heap w) d = Some o ->
  settable o k ->
  py_setitem d k v w
  = (Ok tt, set_heap (replace_nth d (with_item o k v) (heap w)) w)
  /\ settable (with_item o k v) k
  /\ with_item (with_item o k v) k v = with_item o k v
  /\ forall w2, nth_error (heap w2) d = Some (with_item o k v) ->
       py_getitem d k w2 = (Ok v, w2).
Proof.
  intros Hd Hset. unfold py_setitem, bind, deref. rewrite Hd.
  destruct o; try contradiction; cbn [settable with_item] in *.
  - destruct Hset as (i & -> & Hi).
    destruct (seq_set_get l i v Hi) as (l' & E & Hlen & Hget & Hagain).
    unfold lift. rewrite E.
    assert (El : with_item (OList l) (VInt i) v = OList l').
    { cbn. unfold seq_set in E.
      destruct (norm_index (len l) i); [|discriminate]. now injection E as <-. }
    cbn [with_item] in El. rewrite El.
    split; [reflexivity|]. split; [exists i; split; [reflexivity|lia]|].
    split.
    + cbn. unfold seq_set in Hagain.
      destruct (norm_index (len l') i); [|discriminate].
      now injection Hagain as ->.
    + intros w2 H2. unfold py_getitem, bind, deref. rewrite H2. cbn.
      unfold lift. now rewrite Hget.
  - rewrite Hset. split; [reflexivity|]. split; [reflexivity|].
    split; [now rewrite dict_set_twice|].
    intros w2 H2. unfold py_getitem, bind, deref. rewrite H2, Hset.
    now rewrite dict_get_set.
Qed.
End Editing.

(** X9: on a model whose data is a list or a dictionary shown without
    filter, [set_value] on a loaded row whose key the data takes
    returns; afterwards [get_value] gives the new value in the Value
    column, its size and type in the Size and Type columns and the same
    key as before; the data holds the value under that key and
    [sig_setting_data] is emitted once. *)
Theorem set_value_then_get_value {ext : Externals} :
  forall w index value k o,
    nth_error (heap w) (_data w) = Some o ->
    showndata w = _data w ->
    seq_get (keys w) (row index) = Ok k ->
    settable o k ->
    len (types w) = len (sizes w) ->
    0 <= row index < len (sizes w) ->
    exists w',
      run (set_value index value) w = (Ok tt, w')
      /\ heap w' = replace_nth (_data w) (with_item o k value) (heap w)
      /\ log w' = log w ++ [sig_setting_data]
      /\ (forall c valid,
            run (get_value (mkIndex (row index) c valid)) w'
            = (Ok (if c =? 0 then k
                   else if c =? 1 then VStr (get_human_readable_type value)
                   else if c =? 2 then get_size value
                   else value), w')).
Proof.
  intros w index value k o Hd Hshown Hk Hset Hlen Hrow.
  destruct (py_setitem_settable (_data w) o k value w Hd Hset)
    as (E1 & Hset' & Hidem & _).
  set (o' := with_item o k value) in *.
  set (w1 := set_heap (replace_nth (_data w) o' (heap w)) w) in *.
  assert (Hd1 : nth_error (heap w1) (_data w) = Some o').
  { subst w1. cbn. apply nth_error_replace_nth. eapply nth_error_lt; eauto. }
  destruct (py_setitem_settable (_data w) o' k value w1 Hd1 Hset')
    as (E2 & _ & _ & Hget).
  rewrite Hidem in E2. fold o' in E2.
  assert (Eh : set_heap (replace_nth (_data w) o' (heap w1)) w1 = w1).
  { subst w1. cbn. now rewrite replace_nth_twice. }
  rewrite Eh in E2.
  destruct (seq_set_get (sizes w) (row index) (get_size value))
    as (ss & Ess & _ & Gss & _); [lia|].
  destruct (seq_set_get (types w) (row index)
              (VStr (get_human_readable_type value)))
    as (ts & Ets & _ & Gts & _); [lia|].
  exists (set_log (log w ++ [sig_setting_data])
            (set_types ts (set_sizes ss w1))).
  split.
  { unfold run, set_value, bind, gets, lift, modify, emit.
    rewrite Hk, E1. cbn [fst snd]. fold w1.
    replace (keys w1) with (keys w) by reflexivity. rewrite Hk.
    replace (_data w1) with (_data w) by reflexivity.
    replace (showndata w1) with (_data w) by (symmetry; exact Hshown).
    rewrite E2.
    replace (sizes w1) with (sizes w) by reflexivity. rewrite Ess.
    change (types (set_sizes ss w1)) with (types w). rewrite Ets.
    reflexivity. }
  split; [reflexivity|]. split; [reflexivity|].
  intros c valid. unfold run, get_value, bind, gets, lift.
  cbn [column row].
  destruct (c =? 0); [|destruct (c =? 1); [|destruct (c =? 2)]];
    cbv beta; simpl_world.
  - change (keys w1) with (keys w). now rewrite Hk.
  - now rewrite Gts.
  - now rewrite Gss.
  - change (keys w1) with (keys w). change (_data w1) with (_data w).
    rewrite Hk. apply Hget. rewrite Hidem. exact Hd1.
Qed.

Lemma set_value_then_get_value_witness :
  let w := editor_of four_list false in
  exists w',
    run (set_value (index_at 1) (VStr "new")) w = (Ok tt, w')
    /\ heap w' = [OList [VInt 10; VStr "new"; VInt 12; VInt 13]]
    /\ run (get_value (mkIndex 1 3 true)) w' = (Ok (VStr "new"), w').
Proof.
  intros w.
  destruct (set_value_then_get_value w (index_at 1) (VStr "new") (VInt 1)
              four_list) as (w' & Hrun & Hheap & _ & Hget);
    try (vm_compute; reflexivity).
  - exists 1. split; [reflexivity|]. vm_compute.
    split; [discriminate|reflexivity].
  - vm_compute. split; [discriminate|reflexivity].
  - exists w'. split; [exact Hrun|]. split; [exact Hheap|].
    exact (Hget 3 true).
Defined.

(** ** Keys and indexes *)

Lemma list_index_found l x i :
  list_index l x = Some i ->
  0 <= i < len l /\ seq_get l i = Ok x.
Proof.
  revert i. induction l as [|y l IH]; cbn; intros i; [discriminate|].
  destruct (pyval_eqb y x) eqn:E.
  - intros [= <-]. apply pyval_eqb_eq in E. subst y.
    split; [unfold len; cbn; lia|reflexivity].
  - destruct (list_index l x) as [j|]; [|discriminate].
    intros [= <-]. destruct (IH j eq_refl) as [Hj Hget].
    split; [unfold len in *; cbn [List.length]; lia|].
    destruct (nth_error_seq_get l j Hj) as [x' [Hn Hg]].
    rewrite Hget in Hg. injection Hg as <-.
    destruct (nth_error_seq_get (y :: l) (j + 1)) as [x'' [Hn' ->]].
    { unfold len in *. cbn [List.length]. lia. }
    replace (Z.to_nat (j + 1)) with (S (Z.to_nat j)) in Hn' by lia.
    cbn in Hn'. congruence.
Qed.

(** No earlier position holds the item. *)
Lemma list_index_first l x : forall i,
  list_index l x = Some i ->
  forall j, 0 <= j < i -> seq_get l j <> Ok x.
Proof.
  induction l as [|y l IH]; cbn [list_index]; intros i; [discriminate|].
  destruct (pyval_eqb y x) eqn:E.
  - intros [= <-] j Hj. lia.
  - destruct (list_index l x) as [i'|] eqn:E'; [|discriminate].
    intros [= <-] j Hj.
    destruct (list_index_found l x i' E') as [Hi' _].
    destruct (nth_error_seq_get (y :: l) j) as [z [Hn ->]].
    { unfold len in *. cbn [List.length]. lia. }
    intros [= ->].
    destruct (Z.eq_dec j 0) as [->|Hj0].
    + cbn in Hn. injection Hn as ->.
      now rewrite pyval_eqb_refl in E.
    + replace (Z.to_nat j) with (S (Z.to_nat (j - 1))) in Hn by lia.
      cbn [nth_error] in Hn.
      destruct (nth_error_seq_get l (j - 1)) as [z [Hn' Hg]]; [lia|].
      apply (IH i' eq_refl (j - 1)); [lia|]. congruence.
Qed.

Lemma list_index_missing l x : list_index l x = None <-> ~ In x l.
Proof.
  induction l as [|y l IH]; cbn; [tauto|].
  destruct (pyval_eqb y x) eqn:E.
  - apply pyval_eqb_eq in E. subst. split; [discriminate|tauto].
  - assert (y <> x) by (intros ->; now rewrite pyval_eqb_refl in E).
    destruct (list_index l x) as [j|].
    + split; [discriminate|]. intros Hnot.
      assert (Hout : ~ In x l) by tauto.
      apply IH in Hout. discriminate.
    + split; [|reflexivity]. intros _ [Hy|Hin]; [contradiction|].
      now apply (proj1 IH).
Qed.

Lemma list_index_nodup l : forall i x,
  NoDup l -> nth_error l i = Some x -> list_index l x = Some (Z.of_nat i).
Proof.
  induction l as [|y l IH]; intros [|i] x Hnd Hn; cbn in *;
    try discriminate.
  - injection Hn as ->. now rewrite pyval_eqb_refl.
  - inversion Hnd as [|? ? Hnotin Hnd']; subst.
    destruct (pyval_eqb y x) eqn:E.
    + apply pyval_eqb_eq in E. subst. apply nth_error_In in Hn. tauto.
    + rewrite (IH i x Hnd' Hn). f_equal. lia.
Qed.

(** X10: [get_index_from_key] never raises and changes nothing.  For a
    key of the model it gives a valid index in column 0 whose row is the
    first one with that key: [get_key] on it gives the key back, and on
    no earlier row does [get_key] give that key.  For any other key it
    gives the invalid index.  When no key occurs twice, the index of the
    key of a row is the index of that row. *)
Theorem get_index_from_key_finds_the_row {ext : Externals} :
  forall w key,
    (exists idx,
       run (get_index_from_key key) w = (Ok idx, w)
       /\ (In key (keys w) ->
           idx = createIndex (row idx) 0
           /\ isValid idx = true
           /\ 0 <= row idx < len (keys w)
           /\ run (get_key idx) w = (Ok key, w)
           /\ (forall earlier,
                 0 <= row earlier < row idx ->
                 run (get_key earlier) w <> (Ok key, w)))
       /\ (~ In key (keys w) -> idx = invalid_index))
    /\ (forall index,
          NoDup (keys w) ->
          0 <= row index ->
          run (get_key index) w = (Ok key, w) ->
          run (get_index_from_key key) w
          = (Ok (createIndex (row index) 0), w)).
Proof.
  intros w key. split.
  - unfold run, get_index_from_key, try_clauses, bind, gets.
    destruct (list_index (keys w) key) as [i|] eqn:E.
    + destruct (list_index_found _ _ _ E) as [Hi Hget].
      exists (createIndex i 0). split; [reflexivity|]. split.
      * intros _. cbn [row isValid createIndex].
        split; [reflexivity|]. split.
        -- replace (0 <=? i) with true
             by (symmetry; apply Z.leb_le; lia).
           reflexivity.
        -- split; [exact Hi|]. split.
           ++ unfold get_key, bind, gets, lift. cbn [row createIndex].
              now rewrite Hget.
           ++ intros earlier Hj.
              unfold get_key, bind, gets, lift.
              pose proof (list_index_first _ _ _ E (row earlier) Hj) as Hne.
              destruct (seq_get (keys w) (row earlier)) as [k|e];
                cbn; congruence.
      * intros Hnot. apply list_index_missing in Hnot. congruence.
    + exists invalid_index. split; [reflexivity|]. split; [|reflexivity].
      intros Hin. apply list_index_missing in E. contradiction.
  - intros index Hnd Hrow Hget.
    unfold run, get_key, bind, gets, lift in Hget.
    assert (Hk : seq_get (keys w) (row index) = Ok key).
    { destruct (seq_get (keys w) (row index)); now inversion Hget. }
    assert (Hn : nth_error (keys w) (Z.to_nat (row index)) = Some key).
    { unfold seq_get, norm_index in Hk.
      replace (row index <? 0) with false in Hk
        by (symmetry; apply Z.ltb_ge; lia).
      destruct ((0 <=? row index) && (row index <? len (keys w)));
        [|discriminate].
      destruct (nth_error (keys w) (Z.to_nat (row index)));
        [congruence|discriminate]. }
    unfold run, get_index_from_key, try_clauses, bind, gets.
    rewrite (list_index_nodup _ _ _ Hnd Hn), Z2Nat.id by lia.
    reflexivity.
Qed.

Lemma get_index_from_key_finds_the_row_witness :
  let w := editor_of typed_dict false in
  run (get_index_from_key (VStr "a")) w = (Ok (createIndex 1 0), w).
Proof.
  intros w.
  apply (proj2 (get_index_from_key_finds_the_row w (VStr "a"))
           (index_at 1)).
  - vm_compute. repeat constructor; cbn; intuition discriminate.
  - discriminate.
  - vm_compute. reflexivity.
Defined.

(** ** Title and headers *)

Lemma string_append_assoc a b c :
  String.append (String.append a b) c = String.append a (String.append b c).
Proof. induction a as [|x a IH]; cbn; [reflexivity|now rewrite IH]. Qed.

Section Labels.
Context {ext : Externals}.

(** The end of [set_data] leaves the first header alone and adds the
    count to the title. *)
Lemma set_data_rows_label data w od :
  nth_error (heap w) (_data w) = Some od ->
  is_proxy od = false ->
  wp (d <- gets _data ;;
      od <- deref d ;;
      ks <- gets keys ;;
      (if negb (is_proxy od)
       then
         let elements :=
           (if len ks >? 1 then "elements" else "element")%string in
         append_title (String.append " ("
                         (String.append (to_text_string (VInt (len ks)))
                            (String.append " "
                               (String.append elements ")"))))
       else
         op <- deref data ;;
         append_title (get_type_string op)) ;;
      modify (set_total_rows (len ks)) ;;
      total <- gets total_rows ;;
      (if total >? LARGE_NROWS
       then modify (set_rows_loaded ROWS_TO_LOAD)
       else modify (set_rows_loaded total)) ;;
      emit sig_setting_data ;;
      set_size_and_type None None ;;
      ks <- gets keys ;;
      when (negb (len ks =? 0)) (update_search_letters EmptyString) ;;
      reset)
    (returning (fun _ w' =>
       header0 w' = header0 w
       /\ title w' = String.append (title w) (count_text (len (keys w))))) w.
Proof.
  intros Hd Hnp.
  wp_step. wp_step. wp_step. apply (wp_deref_known _ od); [exact Hd|].
  cbn beta iota. rewrite Hnp. cbn [negb].
  wp_model.
  all: unfold returning, count_text; simpl_world; split; reflexivity.
Qed.

Lemma set_data_rows_header data w :
  wp (d <- gets _data ;;
      od <- deref d ;;
      ks <- gets keys ;;
      (if negb (is_proxy od)
       then
         let elements :=
           (if len ks >? 1 then "elements" else "element")%string in
         append_title (String.append " ("
                         (String.append (to_text_string (VInt (len ks)))
                            (String.append " "
                               (String.append elements ")"))))
       else
         op <- deref data ;;
         append_title (get_type_string op)) ;;
      modify (set_total_rows (len ks)) ;;
      total <- gets total_rows ;;
      (if total >? LARGE_NROWS
       then modify (set_rows_loaded ROWS_TO_LOAD)
       else modify (set_rows_loaded total)) ;;
      emit sig_setting_data ;;
      set_size_and_type None None ;;
      ks <- gets keys ;;
      when (negb (len ks =? 0)) (update_search_letters EmptyString) ;;
      reset)
    (returning (fun _ w' => header0 w' = header0 w)) w.
Proof.
  wp_model.
  all: unfold returning; simpl_world; reflexivity.
Qed.

Lemma set_data_labels data coll_filter w o :
  nth_error (heap w) data = Some o ->
  wp (set_data data coll_filter)
    (returning (fun _ w' =>
       let shown := shown_object w coll_filter o in
       header0 w' = first_header (names w) shown
       /\ (is_collection shown = true ->
           title w' =
             String.append (title w)
               (String.append (kind_name shown)
                  (count_text (size_of shown)))))) w.
Proof.
  intros Hd. unfold set_data.
  pose proof (nth_error_lt _ _ _ Hd) as Hlt.
  wp_step. wp_step. wp_step. wp_step. wp_step.
  apply (wp_deref_known _ o); [exact Hd|]. cbn beta iota.
  wp_step. unfold shown_object.
  destruct coll_filter as [f|];
    [destruct (negb (remote w) && is_collection o) eqn:Ec;
     [apply andb_true_iff in Ec; destruct Ec as [_ Ec];
      remember (f o) as s eqn:Ef; destruct o; try discriminate Ec;
      destruct s
     |destruct o]
    |destruct o].
  all: repeat (first
    [ lazymatch goal with
      | |- wp (bind (gets _data) _) _ ?w1 =>
          eapply wp_conseq;
          [first [ eapply (set_data_rows_label _ w1 _);
                   [simpl_world;
                    first [ exact Hd
                          | rewrite nth_error_new; reflexivity
                          | rewrite nth_error_app1 by
                              (rewrite ?length_app; cbn; lia);
                            first [ exact Hd
                                  | rewrite nth_error_new; reflexivity ] ]
                   |reflexivity]
                 | apply set_data_rows_header ]
          |]
      | |- wp (deref _) _ _ =>
          eapply wp_deref_known;
          [simpl_world; rewrite ?nth_error_new;
           first [exact Hd|reflexivity]|];
          cbn beta iota
      end
    | wp_step ]).
  all: intros [[]|e] w'; unfold returning; try (intros; exact I).
  all: simpl_world; cbn [first_header kind_name size_of is_collection
                          is_tuple is_list is_dict is_set is_frozenset orb].
  all: try (intros ->; split; [reflexivity|discriminate]).
  all: intros [-> ->]; split; [reflexivity|intros _].
  all: rewrite string_append_assoc.
  all: try (change (map VInt (range 0 (len ?l))) with (keys_of (OList l)));
    try (change (map fst ?d) with (keys_of (ODict d)));
    rewrite len_keys_of; reflexivity.
Qed.
End Labels.

(** X11: a [set_data] that returns names the first column after what is
    shown: "Name" when the model was built with [names], otherwise "Key"
    for a dictionary, "Index" for a tuple, list, set or frozenset and
    "Attribute" for any other object; [headerData] gives that text for
    section 0 and "Type", "Size", "Value", "Score" for the next four.
    For a built-in collection the title gets the name of the kind and the
    count added, with "element" for a count of 0 or 1. *)
Theorem set_data_labels_the_model {ext : Externals} :
  forall w data coll_filter o w',
    nth_error (heap w) data = Some o ->
    run (set_data data coll_filter) w = (Ok tt, w') ->
    let shown := shown_object w coll_filter o in
    header0 w' = first_header (names w) shown
    /\ map (fun section => fst (run (headerData section Horizontal DisplayRole)
                                  w'))
         [0; 1; 2; 3; 4]
       = map (fun h => Ok (Some h))
           [first_header (names w) shown; "Type"; "Size"; "Value";
            "Score"]%string
    /\ (is_collection shown = true ->
        title w' =
          String.append (title w)
            (String.append (kind_name shown) (count_text (size_of shown)))).
Proof.
  intros w data coll_filter o w' Hd Hrun shown.
  use_wp (set_data_labels data coll_filter w o Hd) Hrun X.
  destruct X as [Hh Ht]. fold shown in Hh, Ht.
  split; [exact Hh|]. split; [|exact Ht].
  unfold run, headerData, bind, gets, lift. cbn. now rewrite Hh.
Qed.

Lemma set_data_labels_the_model_witness :
  let w := fresh [typed_dict] CollectionsEditorTableView true None in
  let w' := snd (run (set_data 0%nat None) w) in
  header0 w' = "Key"%string
  /\ map (fun section => fst (run (headerData section Horizontal DisplayRole)
                                w'))
       [0; 1; 2; 3; 4]
     = map (fun h => Ok (Some h)) ["Key"; "Type"; "Size"; "Value"; "Score"]%string
  /\ (true = true -> title w' = "Dictionary (3 elements)"%string).
Proof.
  intros w w'.
  assert (Hd : nth_error (heap w) 0%nat = Some typed_dict) by reflexivity.
  assert (Hrun : run (set_data 0%nat None) w = (Ok tt, w'))
    by (vm_compute; reflexivity).
  exact (set_data_labels_the_model w 0%nat None typed_dict w' Hd Hrun).
Defined.

(** ** What the requests of a local editor do to a list or a dictionary *)

Lemma dict_set_keys d k v :
  forallb hashable (map fst d) = true -> hashable k = true ->
  forallb hashable (map fst (dict_set d k v)) = true.
Proof.
  intros Hd Hk. induction d as [|[k0 v0] d IH]; cbn in *.
  - now rewrite Hk.
  - apply andb_true_iff in Hd. destruct Hd as [H0 Hd].
    destruct (pyval_eqb k0 k); cbn; rewrite H0; cbn; auto.
Qed.

Lemma dict_del_keys d k :
  forallb hashable (map fst d) = true ->
  forallb hashable (map fst (dict_del d k)) = true.
Proof.
  intros Hd. induction d as [|[k0 v0] d IH]; cbn in *; [reflexivity|].
  apply andb_true_iff in Hd. destruct Hd as [H0 Hd].
  destruct (pyval_eqb k0 k); cbn; [exact Hd|]. rewrite H0. cbn. auto.
Qed.

Lemma with_item_list_or_dict o k v :
  list_or_dict o -> settable o k -> list_or_dict (with_item o k v).
Proof.
  destruct o; cbn; try contradiction.
  - intros _ (i & -> & _). now destruct (norm_index (len l) i).
  - intros Hd Hk. now apply dict_set_keys.
Qed.

Lemma without_item_list_or_dict o k :
  list_or_dict o -> list_or_dict (without_item o k).
Proof.
  destruct o; cbn; try contradiction.
  - intros _. destruct k; try exact I. now destruct (norm_index (len l) z).
  - intros Hd. now apply dict_del_keys.
Qed.

Lemma list_or_dict_plain o : list_or_dict o -> plain_collection o.
Proof. destruct o; cbn; auto. Qed.

Section Requests.
Context {ext : Externals}.

(** Storing a new state of the object the model works on. *)
Lemma editing_store w d o o' :
  editing w d o ->
  editing (set_heap (replace_nth d o' (heap w)) w) d o'
  /\ others_kept w (set_heap (replace_nth d o' (heap w)) w) d.
Proof.
  intros (Hv & Hr & Hf & Hd & Ho). split.
  - repeat split; try assumption. cbn.
    apply nth_error_replace_nth. eapply nth_error_lt; eauto.
  - intros d' Hne. cbn. apply nth_error_replace_nth_other. congruence.
Qed.

(** [BaseTableView.set_data] on the object the model works on. *)
Lemma BaseTableView_set_data_reloads w d o :
  editing w d o ->
  list_or_dict o ->
  wp (BaseTableView_set_data (Some d))
    (fun r w' =>
       r = Ok tt
       /\ showing w' d o
       /\ heap w' = heap w
       /\ log w' = log (snd (run (set_data d None) w))
                     ++ [ResetModel; setSortingEnabled true]
       /\ source_model w' = source_model w
       /\ readonly w' = readonly w
       /\ proxy_model w' = proxy_model w) w.
Proof.
  intros (Hv & Hr & Hf & Hd & Ho) Hkind. unfold BaseTableView_set_data.
  wp_step. wp_step. cbn beta iota. rewrite Hf.
  wp_step.
  pose proof (set_data_returns d w o Hr Ho (list_or_dict_plain o Hkind)) as H.
  unfold wp in H |- *. unfold run.
  destruct (set_data d None w) as [r w1]. cbn [fst snd] in *.
  destruct H as (-> & _ & Hk & Ht & _ & _ & _ & Hsetup & Hafter).
  destruct Hsetup as (S1 & _ & _ & S4 & S5 & S6 & S7 & S8).
  assert (Hsame : _data w1 = d /\ heap w1 = heap w)
    by (destruct o; try contradiction; exact Hafter).
  destruct Hsame as [Hd1 Hh1].
  unfold bind, reset, emit, modify. cbn [fst snd]. simpl_world.
  split; [reflexivity|]. split.
  - split; [|split; assumption].
    repeat split; simpl_world; congruence.
  - rewrite <- app_assoc. cbn [app]. repeat split; congruence.
Qed.
End Requests.

Section RequestResults.
Context {ext : Externals}.

(** Reloading the view after the object was given a new state. *)
Lemma reload_leaves w0 w d o' :
  editing w d o' ->
  list_or_dict o' ->
  others_kept w0 w d ->
  source_model w = source_model w0 ->
  readonly w = readonly w0 ->
  proxy_model w = proxy_model w0 ->
  wp (BaseTableView_set_data (Some d)) (leaves w0 d o') w.
Proof.
  intros He Hkind Hothers Hm Hro Hpm.
  eapply wp_conseq; [apply (BaseTableView_set_data_reloads w d o' He Hkind)|].
  intros r w' (-> & Hshow & Hheap & _ & Hm' & Hro' & Hpm').
  split; [reflexivity|]. split; [exact Hshow|]. split.
  - intros d' Hne. rewrite Hheap. now apply Hothers.
  - repeat split; congruence.
Qed.

Lemma py_pop_present d o k w :
  nth_error (heap w) d = Some o ->
  present o k ->
  exists x,
    py_pop d k w
    = (Ok x, set_heap (replace_nth d (without_item o k) (heap w)) w).
Proof.
  intros Hd Hp. unfold py_pop, bind, deref. rewrite Hd.
  destruct o; try contradiction; cbn [present without_item] in *.
  - destruct Hp as (i & -> & Hi).
    destruct (norm_index_some (len l) i Hi) as [j [Hj Hlt]].
    rewrite Hj. unfold lift, seq_get. rewrite Hj.
    destruct (nth_error l j) as [x|] eqn:E.
    + exists x. reflexivity.
    + apply nth_error_None in E. unfold len in Hlt. lia.
  - destruct Hp as (Hh & v & Hv). rewrite Hh, Hv. exists v. reflexivity.
Qed.

Lemma py_sorted_single k :
  py_sorted [k] identity_key true = Ok [k].
Proof. reflexivity. Qed.

(** Removing one key. *)
Lemma remove_values_one w d o k :
  editing w d o -> list_or_dict o -> present o k ->
  wp (remove_values [k]) (leaves w d (without_item o k)) w.
Proof.
  intros He Hkind Hp.
  pose proof He as (Hv & Hr & Hf & Hd & Ho).
  unfold remove_values.
  wp_step. wp_step. cbn beta iota. rewrite Hv.
  wp_step. wp_step. cbn beta iota. rewrite Hd.
  wp_step. wp_step. rewrite py_sorted_single. cbn beta iota. cbn [forM_].
  destruct (py_pop_present d o k w Ho Hp) as [x Hpop].
  wp_step. wp_step. wp_step.
  eapply wp_eq; [exact Hpop|]. cbn beta iota.
  wp_step. wp_step.
  destruct (editing_store w d o (without_item o k) He) as [He' Hk'].
  apply (reload_leaves w _ d (without_item o k)); auto.
  now apply without_item_list_or_dict.
Qed.

(** Assigning under a key. *)
Lemma new_value_sets w d o sel k v :
  editing w d o -> list_or_dict o -> settable o k ->
  wp (new_value sel k v) (leaves w d (with_item o k v)) w.
Proof.
  intros He Hkind Hs.
  pose proof He as (Hv & Hr & Hf & Hd & Ho).
  unfold new_value.
  wp_step. wp_step. cbn beta iota. rewrite Hv.
  wp_step. wp_step. cbn beta iota. rewrite Hd.
  destruct (py_setitem_settable d o k v w Ho Hs) as (Hset & _).
  wp_step. eapply wp_eq; [exact Hset|]. cbn beta iota.
  destruct (editing_store w d o (with_item o k v) He) as [He' Hk'].
  wp_step.
  eapply wp_conseq.
  { apply (reload_leaves w _ d (with_item o k v)); auto.
    now apply with_item_list_or_dict. }
  intros r w' (-> & Hshow & Hothers & Hrest).
  wp_step.
  split; [reflexivity|]. split; [exact Hshow|]. split; [exact Hothers|].
  exact Hrest.
Qed.
End RequestResults.

Lemma dict_get_set_other d k v k' :
  pyval_eqb k k' = false -> dict_get (dict_set d k v) k' = dict_get d k'.
Proof.
  intros Hne. induction d as [|[k0 v0] d IH]; cbn.
  - now rewrite Hne.
  - destruct (pyval_eqb k0 k) eqn:E; cbn.
    + apply pyval_eqb_eq in E. subst k0. now rewrite Hne.
    + now rewrite IH.
Qed.

Lemma seq_get_app_l {A} (l e : list A) i :
  0 <= i < len l -> seq_get (l ++ e) i = seq_get l i.
Proof.
  intros Hi.
  destruct (nth_error_seq_get l i Hi) as [x [Hn ->]].
  destruct (nth_error_seq_get (l ++ e) i) as [y [Hn' ->]].
  { rewrite len_app. pose proof (len_nonneg e). lia. }
  rewrite nth_error_app1 in Hn' by (unfold len in Hi; lia).
  congruence.
Qed.

Lemma replace_nth_last {A} (l : list A) x :
  replace_nth (List.length l) x (l ++ [x]) = l ++ [x].
Proof. induction l as [|h t IH]; cbn; [reflexivity|now rewrite IH]. Qed.

Section CopyResults.
Context {ext : Externals}.

Lemma leaves_then w d o1 w1 o2 r w2 :
  leaves w d o1 (Ok tt) w1 -> leaves w1 d o2 r w2 -> leaves w d o2 r w2.
Proof.
  intros (_ & _ & K1 & M1 & R1 & P1) (-> & S2 & K2 & M2 & R2 & P2).
  split; [reflexivity|]. split; [exact S2|]. split.
  - intros d' Hne. rewrite (K2 d' Hne). now apply K1.
  - repeat split; congruence.
Qed.

(** [copy_value] on a list, with the key that [copy_item] gives it:
    the entry is appended. *)
Lemma copy_value_list w d l i x :
  editing w d (OList l) ->
  0 <= i < len l ->
  seq_get l i = Ok x ->
  wp (copy_value (VInt i) (VInt (len l))) (leaves w d (OList (l ++ [x]))) w.
Proof.
  intros He Hi Hx.
  pose proof He as (Hv & Hr & Hf & Hd & Ho).
  unfold copy_value.
  wp_step. wp_step. cbn beta iota. rewrite Hv.
  wp_step. wp_step. cbn beta iota. rewrite Hd.
  wp_step. eapply wp_deref_known; [exact Ho|]. cbn beta iota.
  wp_step. cbn [is_list when].
  assert (Hget : py_getitem d (VInt i) w = (Ok x, w)).
  { unfold py_getitem, bind, deref, lift. rewrite Ho. cbn. now rewrite Hx. }
  wp_step. eapply wp_eq; [exact Hget|]. cbn beta iota.
  unfold list_append. wp_step.
  eapply wp_deref_known; [exact Ho|]. cbn beta iota. wp_step.
  destruct (editing_store w d (OList l) (OList (l ++ [x])) He) as [He1 Hk1].
  set (w1 := set_heap (replace_nth d (OList (l ++ [x])) (heap w)) w) in *.
  pose proof He1 as (_ & _ & _ & _ & Ho1).
  wp_step. eapply wp_deref_known; [exact Ho1|]. cbn beta iota.
  wp_step. cbn [is_set is_frozenset orb].
  assert (Hget1 : py_getitem d (VInt i) w1 = (Ok x, w1)).
  { unfold py_getitem, bind, deref, lift. rewrite Ho1. cbn.
    now rewrite seq_get_app_l, Hx. }
  wp_step. eapply wp_eq; [exact Hget1|]. cbn beta iota.
  assert (Hset : py_setitem d (VInt (len l)) x w1 = (Ok tt, w1)).
  { unfold py_setitem, bind, deref, lift, store, modify. rewrite Ho1.
    unfold seq_set. rewrite norm_index_in_range
      by (rewrite len_app; unfold len; cbn; lia).
    unfold len. rewrite Nat2Z.id, replace_nth_last. cbn.
    unfold w1. cbn. rewrite replace_nth_twice. reflexivity. }
  eapply wp_eq; [exact Hset|]. cbn beta iota.
  apply (reload_leaves w w1 d (OList (l ++ [x]))); auto. exact I.
Qed.

(** [copy_value] on a dictionary: the value is stored under the new
    key. *)
Lemma copy_value_dict w d dd a b v :
  editing w d (ODict dd) ->
  forallb hashable (map fst dd) = true ->
  hashable a = true -> hashable b = true ->
  dict_get dd a = Some v ->
  wp (copy_value a b) (leaves w d (ODict (dict_set dd b v))) w.
Proof.
  intros He Hkeys Ha Hb Hv0.
  pose proof He as (Hv & Hr & Hf & Hd & Ho).
  unfold copy_value.
  wp_step. wp_step. cbn beta iota. rewrite Hv.
  wp_step. wp_step. cbn beta iota. rewrite Hd.
  wp_step. eapply wp_deref_known; [exact Ho|]. cbn beta iota.
  wp_step. cbn [is_list when]. wp_step.
  wp_step. eapply wp_deref_known; [exact Ho|]. cbn beta iota.
  wp_step. cbn [is_set is_frozenset orb].
  assert (Hget : py_getitem d a w = (Ok v, w)).
  { unfold py_getitem, bind, deref. now rewrite Ho, Ha, Hv0. }
  wp_step. eapply wp_eq; [exact Hget|]. cbn beta iota.
  destruct (py_setitem_settable d (ODict dd) b v w Ho Hb) as (Hset & _).
  eapply wp_eq; [exact Hset|]. cbn beta iota.
  destruct (editing_store w d (ODict dd) (ODict (dict_set dd b v)) He)
    as [He1 Hk1].
  apply (reload_leaves w _ d (ODict (dict_set dd b v))); auto.
  now apply dict_set_keys.
Qed.

(** [copy_item] up to the point where the kind of the data matters,
    when one valid row is selected. *)
Lemma copy_item_start w sel first rest r0 orig_key erase new_name dialog Q :
  selectedIndexes sel = first :: rest ->
  isValid first = true ->
  source_rows w (first :: rest) = [r0] ->
  seq_get (keys w) r0 = Ok orig_key ->
  wp (if erase && negb (is_str orig_key)
      then emit rename_warning
      else
        data <- get_data ;;
        o <- deref data ;;
        answer <-
          (if is_list o || is_set o || is_frozenset o
           then n <- py_len data ;; ret (VInt n, true)
           else match new_name with
                | Some n => ret (n, true)
                | None => ret dialog
                end) ;;
        let '(new_key, valid) := answer in
        if valid && negb (String.eqb (to_text_string new_key) EmptyString)
        then
          new_key <- lift (try_to_eval (to_text_string new_key)) ;;
          if pyval_eqb new_key orig_key then ret tt
          else
            copy_value orig_key new_key ;;
            when erase (remove_values [orig_key]) ;;
            emit (deselect_index (currentIndex sel))
        else emit (deselect_index (currentIndex sel))) Q w ->
  wp (copy_item sel erase new_name dialog) Q w.
Proof.
  intros Hsel Hvalid Hrows Hkey H. unfold copy_item. rewrite Hsel.
  wp_step. eapply wp_eq; [apply selected_source_rows_eq|].
  rewrite Hrows. cbn beta iota.
  change (len [r0] >? 1) with false. rewrite Hvalid. cbn [orb negb].
  wp_step. wp_step. cbn beta iota.
  wp_step. wp_step. rewrite seq_get_single. cbn beta iota.
  wp_step. wp_step. rewrite Hkey. cbn beta iota.
  exact H.
Qed.
End CopyResults.

(** X12: with one valid row selected in a local editor over a list,
    whose key is the position [i], [duplicate_item] returns with a copy
    of the entry at [i] appended to the list and the model reloaded:
    one row more, keys [0 .. len].  No dialog is shown: the answer plays
    no part.  The text of the new position has to evaluate back to it. *)
Theorem duplicate_item_appends_to_list {ext : Externals} :
  forall w d l sel first rest r0 i x dialog,
    editing w d (OList l) ->
    selectedIndexes sel = first :: rest ->
    isValid first = true ->
    source_rows w (first :: rest) = [r0] ->
    seq_get (keys w) r0 = Ok (VInt i) ->
    0 <= i < len l ->
    seq_get l i = Ok x ->
    String.eqb (to_text_string (VInt (len l))) EmptyString = false ->
    try_to_eval (to_text_string (VInt (len l))) = Ok (VInt (len l)) ->
    exists w',
      run (duplicate_item sel dialog) w = (Ok tt, w')
      /\ nth_error (heap w') d = Some (OList (l ++ [x]))
      /\ _data w' = d
      /\ keys w' = map VInt (range 0 (len l + 1))
      /\ total_rows w' = len l + 1
      /\ others_kept w w' d.
Proof.
  intros w d l sel first rest r0 i x dialog He Hsel Hvalid Hrows Hkey Hi Hx
         Htext Heval.
  pose proof He as (Hv & Hr & Hf & Hd & Ho).
  assert (H : wp (duplicate_item sel dialog)
                (leaves w d (OList (l ++ [x]))) w).
  { unfold duplicate_item.
    apply (copy_item_start w sel first rest r0 (VInt i)); auto.
    cbn [andb]. wp_step. wp_step. cbn beta iota. rewrite Hd.
    wp_step. eapply wp_deref_known; [exact Ho|]. cbn beta iota.
    cbn [is_list orb]. wp_step. wp_step.
    unfold py_len. wp_step. eapply wp_deref_known; [exact Ho|].
    cbn beta iota. wp_step. wp_step. cbn beta iota.
    cbn [andb]. rewrite Htext. cbn [negb].
    wp_step. wp_step. rewrite Heval. cbn beta iota.
    replace (pyval_eqb (VInt (len l)) (VInt i)) with false
      by (symmetry; cbn; apply Z.eqb_neq; lia).
    wp_step.
    eapply wp_conseq; [apply (copy_value_list w d l i x He Hi Hx)|].
    intros r w1 Hl. pose proof Hl as (-> & _).
    wp_step. wp_step. wp_step.
    destruct Hl as (_ & Hshow & Hrest).
    split; [reflexivity|]. split; [exact Hshow|]. exact Hrest. }
  unfold wp in H. unfold run.
  destruct (duplicate_item sel dialog w) as [r w']. cbn [fst snd] in H.
  destruct H as (-> & ((_ & _ & _ & Hd' & Ho') & Hk & Ht) & Hothers & _).
  exists w'. split; [reflexivity|]. split; [exact Ho'|].
  split; [exact Hd'|]. cbn [keys_of size_of] in Hk, Ht.
  rewrite len_app in Hk, Ht. change (len [x]) with 1 in Hk, Ht.
  repeat split; assumption.
Qed.

Lemma duplicate_item_appends_to_list_witness :
  let w := editor_of four_list false in
  exists w',
    run (duplicate_item (select_row 1) (VNone, false)) w = (Ok tt, w')
    /\ nth_error (heap w') 0%nat
       = Some (OList [VInt 10; VInt 11; VInt 12; VInt 13; VInt 11])
    /\ _data w' = 0%nat
    /\ keys w' = map VInt (range 0 (4 + 1))
    /\ total_rows w' = 4 + 1
    /\ others_kept w w' 0%nat.
Proof.
  intros w.
  refine (duplicate_item_appends_to_list w 0%nat
            [VInt 10; VInt 11; VInt 12; VInt 13] (select_row 1)
            (index_at 1) [] 1 1 (VInt 11) (VNone, false) _ _ _ _ _ _ _ _ _);
    try (vm_compute; reflexivity).
  - vm_compute. repeat split.
  - vm_compute. split; [discriminate|reflexivity].
Defined.

Lemma dict_set_keys_in d k v x :
  In x (map fst (dict_set d k v)) -> x = k \/ In x (map fst d).
Proof.
  induction d as [|[k0 v0] d IH]; cbn.
  - intros [<-|[]]. now left.
  - destruct (pyval_eqb k0 k); cbn; intros [<-|H]; auto.
    destruct (IH H); auto.
Qed.

Lemma dict_get_absent d k : ~ In k (map fst d) -> dict_get d k = None.
Proof.
  induction d as [|[k0 v0] d IH]; cbn; [reflexivity|].
  intros H. destruct (pyval_eqb k0 k) eqn:E.
  - apply pyval_eqb_eq in E. tauto.
  - apply IH. tauto.
Qed.

Lemma dict_set_nodup d k v :
  NoDup (map fst d) -> NoDup (map fst (dict_set d k v)).
Proof.
  induction d as [|[k0 v0] d IH]; cbn; intros Hnd.
  - constructor; [tauto|constructor].
  - inversion Hnd as [|? ? Hnotin Hnd']; subst.
    destruct (pyval_eqb k0 k) eqn:E; cbn; [now constructor|].
    constructor; [|now apply IH].
    intros Hin. apply dict_set_keys_in in Hin as [->|Hin]; [|tauto].
    now rewrite pyval_eqb_refl in E.
Qed.

(** A key that is deleted from a dictionary is no longer in it. *)
Lemma dict_get_del_same d k :
  NoDup (map fst d) -> dict_get (dict_del d k) k = None.
Proof.
  induction d as [|[k0 v0] d IH]; cbn; intros Hnd; [reflexivity|].
  inversion Hnd as [|? ? Hnotin Hnd']; subst.
  destruct (pyval_eqb k0 k) eqn:E.
  - apply pyval_eqb_eq in E. subst. now apply dict_get_absent.
  - cbn. rewrite E. now apply IH.
Qed.

(** X13: with one valid row selected in a local editor over a
    dictionary, [rename_item] of a text key to a new name that evaluates
    to another hashable key returns with the value stored under the new
    key and the old key removed; every other key keeps its value, the
    model is reloaded from the new dictionary and no other object is
    touched.  A new name that is already a key gets its value replaced. *)
Theorem rename_item_moves_the_value {ext : Externals} :
  forall w d dd sel first rest r0 k v new_name dialog n k',
    editing w d (ODict dd) ->
    forallb hashable (map fst dd) = true ->
    selectedIndexes sel = first :: rest ->
    isValid first = true ->
    source_rows w (first :: rest) = [r0] ->
    seq_get (keys w) r0 = Ok k ->
    is_str k = true ->
    dict_get dd k = Some v ->
    match new_name with Some n' => (n', true) | None => dialog end
      = (n, true) ->
    String.eqb (to_text_string n) EmptyString = false ->
    try_to_eval (to_text_string n) = Ok k' ->
    hashable k' = true ->
    pyval_eqb k' k = false ->
    let dd' := dict_del (dict_set dd k' v) k in
    exists w',
      run (rename_item sel new_name dialog) w = (Ok tt, w')
      /\ nth_error (heap w') d = Some (ODict dd')
      /\ keys w' = map fst dd'
      /\ total_rows w' = len dd'
      /\ others_kept w w' d
      /\ dict_get dd' k' = Some v
      /\ (NoDup (map fst dd) -> dict_get dd' k = None)
      /\ (forall k2, pyval_eqb k k2 = false -> pyval_eqb k' k2 = false ->
            dict_get dd' k2 = dict_get dd k2).
Proof.
  intros w d dd sel first rest r0 k v new_name dialog n k' He Hkeys Hsel
         Hvalid Hrows Hkey Hstr Hv Hanswer Htext Heval Hk' Hne dd'.
  pose proof He as (Hview & Hr & Hf & Hd & Ho).
  assert (Hhk : hashable k = true) by (destruct k; try discriminate; reflexivity).
  assert (Hne' : pyval_eqb k k' = false) by (now rewrite pyval_eqb_sym).
  assert (H : wp (rename_item sel new_name dialog) (leaves w d (ODict dd')) w).
  { unfold rename_item.
    apply (copy_item_start w sel first rest r0 k); auto.
    rewrite Hstr. cbn [andb negb]. wp_step. wp_step. cbn beta iota.
    rewrite Hd. wp_step. eapply wp_deref_known; [exact Ho|].
    cbn beta iota. cbn [is_list is_set is_frozenset orb]. wp_step.
    apply wp_eq with (r := Ok (n, true)) (w' := w).
    { destruct new_name; unfold ret; congruence. }
    cbn beta iota. cbn [andb]. rewrite Htext. cbn [negb].
    wp_step. wp_step. rewrite Heval. cbn beta iota. rewrite Hne. wp_step.
    eapply wp_conseq;
      [apply (copy_value_dict w d dd k k' v He Hkeys Hhk Hk' Hv)|].
    intros r w1 Hl. pose proof Hl as (-> & (He1 & _) & _).
    wp_step. cbn [when].
    eapply wp_conseq.
    { apply (remove_values_one w1 d (ODict (dict_set dd k' v)) k He1).
      - now apply dict_set_keys.
      - split; [exact Hhk|]. exists v.
        now rewrite dict_get_set_other. }
    intros r w2 Hl2. pose proof Hl2 as (-> & _).
    pose proof (leaves_then _ _ _ _ _ _ _ Hl Hl2) as (_ & Hshow & Hrest).
    wp_step.
    split; [reflexivity|]. split; [exact Hshow|]. exact Hrest. }
  unfold wp in H. unfold run.
  destruct (rename_item sel new_name dialog w) as [r w']. cbn [fst snd] in H.
  destruct H as (-> & ((_ & _ & _ & Hd' & Ho') & Hk & Ht) & Hothers & _).
  exists w'. split; [reflexivity|]. split; [exact Ho'|].
  split; [exact Hk|]. split; [exact Ht|]. split; [exact Hothers|].
  split; [|split].
  - unfold dd'. rewrite dict_get_del_other by exact Hne'.
    apply dict_get_set.
  - intros Hnd. unfold dd'. apply dict_get_del_same.
    now apply dict_set_nodup.
  - intros k2 H1 H2. unfold dd'.
    now rewrite dict_get_del_other, dict_get_set_other.
Qed.

Lemma rename_item_moves_the_value_witness :
  let w := editor_of typed_dict false in
  exists w',
    run (rename_item (select_row 1) (Some (VStr "z")) (VNone, false)) w
    = (Ok tt, w')
    /\ nth_error (heap w') 0%nat
       = Some (ODict [(VStr "b", VInt 1); (VStr "c", VInt 3);
                      (VStr "z", VStr "x")])
    /\ keys w' = [VStr "b"; VStr "c"; VStr "z"].
Proof.
  intros w.
  destruct (rename_item_moves_the_value w 0%nat
              [(VStr "b", VInt 1); (VStr "a", VStr "x"); (VStr "c", VInt 3)]
              (select_row 1) (index_at 1) [] 1 (VStr "a") (VStr "x")
              (Some (VStr "z")) (VNone, false) (VStr "z") (VStr "z"))
    as (w' & Hrun & Hheap & Hkeys & _);
    try (vm_compute; reflexivity).
  - vm_compute. repeat split.
  - exists w'. split; [exact Hrun|]. split; [exact Hheap|exact Hkeys].
Defined.

Lemma seq_insert_in_range {A} (l : list A) r x :
  0 <= r <= len l ->
  seq_insert l r x = firstn (Z.to_nat r) l ++ x :: skipn (Z.to_nat r) l.
Proof.
  intros Hr. unfold seq_insert.
  replace (r <? 0) with false by (symmetry; apply Z.ltb_ge; lia).
  now rewrite Z.min_l by lia.
Qed.

Lemma replace_nth_middle {A} (a b : list A) x y :
  replace_nth (List.length a) y (a ++ x :: b) = a ++ y :: b.
Proof. induction a as [|h t IH]; cbn; [reflexivity|now rewrite IH]. Qed.

Lemma seq_insert_then_set {A} (l : list A) r x y :
  0 <= r <= len l ->
  seq_set (seq_insert l r x) r y = Ok (seq_insert l r y)
  /\ len (seq_insert l r x) = len l + 1.
Proof.
  intros Hr. rewrite !seq_insert_in_range by exact Hr.
  assert (Hlen : List.length (firstn (Z.to_nat r) l) = Z.to_nat r)
    by (rewrite length_firstn; unfold len in Hr; lia).
  assert (Hl : len (firstn (Z.to_nat r) l ++ x :: skipn (Z.to_nat r) l)
               = len l + 1).
  { unfold len. rewrite length_app. cbn [List.length].
    rewrite length_firstn, length_skipn. unfold len in Hr. lia. }
  split; [|exact Hl].
  unfold seq_set. rewrite Hl, norm_index_in_range by lia.
  rewrite <- Hlen at 1. now rewrite replace_nth_middle.
Qed.

(** X14: [insert_item] in a local editor over a list, at a row within
    the list, first inserts an empty text at that row.  When the value
    dialog is accepted with a text that is not empty and [try_to_eval]
    returns a value for it, that value is in the list at that row, the
    entries from there on have moved up by one, and the model is
    reloaded.  When the evaluation raises, [insert_item] raises the same
    exception; when the dialog is cancelled or left empty it returns; in
    both cases the list keeps the empty text at that row and the model
    still shows the rows it had. *)
Theorem insert_item_into_list {ext : Externals} :
  forall w d l sel below key_dialog value valid,
    editing w d (OList l) ->
    let r := insert_row w sel below in
    let accepted :=
      valid && negb (String.eqb (to_text_string value) EmptyString) in
    let left_behind :=
      set_heap (replace_nth d (OList (seq_insert l r (VStr EmptyString)))
                  (heap w)) w in
    0 <= r <= len l ->
    (forall v,
       accepted = true ->
       try_to_eval (to_text_string value) = Ok v ->
       exists w',
         run (insert_item sel below key_dialog (value, valid)) w = (Ok tt, w')
         /\ nth_error (heap w') d = Some (OList (seq_insert l r v))
         /\ keys w' = map VInt (range 0 (len l + 1))
         /\ total_rows w' = len l + 1
         /\ others_kept w w' d)
    /\ (forall e,
          accepted = true ->
          try_to_eval (to_text_string value) = Raise e ->
          run (insert_item sel below key_dialog (value, valid)) w
          = (Raise e, left_behind))
    /\ (accepted = false ->
        run (insert_item sel below key_dialog (value, valid)) w
        = (Ok tt, left_behind)).
Proof.
  intros w d l sel below key_dialog value valid He r accepted w1 Hr.
  pose proof He as (Hview & Hlocal & Hf & Hd & Ho).
  destruct (editing_store w d (OList l)
              (OList (seq_insert l r (VStr EmptyString))) He) as [He1 Hk1].
  fold w1 in He1, Hk1.
  assert (Hstart : forall Q,
    wp (let '(value, valid) := (value, valid) in
        when (valid && negb (String.eqb (to_text_string value) EmptyString))
          (v <- lift (try_to_eval (to_text_string value)) ;;
           new_value sel (VInt r) v))
       Q w1 ->
    wp (insert_item sel below key_dialog (value, valid)) Q w).
  { intros Q H. unfold insert_item.
    wp_step. wp_step. cbn beta iota. wp_step.
    apply wp_eq with (r := Ok r) (w' := w).
    { unfold r, insert_row, rowCount, bind, gets, ret.
      destruct (negb (isValid (currentIndex sel))); reflexivity. }
    cbn beta iota. wp_step. wp_step. cbn beta iota. rewrite Hd.
    wp_step. eapply wp_deref_known; [exact Ho|]. cbn beta iota.
    cbn [is_list]. wp_step.
    unfold list_insert. wp_step.
    eapply wp_deref_known; [exact Ho|]. cbn beta iota. wp_step.
    exact H. }
  split; [|split].
  - intros v Hanswer Heval.
    destruct (seq_insert_then_set l r (VStr EmptyString) v Hr)
      as [Hset Hlen].
    assert (H : wp (insert_item sel below key_dialog (value, valid))
                  (leaves w d (OList (seq_insert l r v))) w).
    { apply Hstart. cbn beta iota. fold accepted. rewrite Hanswer.
      cbn [when]. wp_step. wp_step. rewrite Heval. cbn beta iota.
      eapply wp_conseq.
      { apply (new_value_sets w1 d
                 (OList (seq_insert l r (VStr EmptyString))) sel (VInt r)
                 v He1 I).
        exists r. split; [reflexivity|]. lia. }
      intros res w2 (-> & Hshow & Hothers & Hm & Hro & Hpm).
      assert (E : with_item (OList (seq_insert l r (VStr EmptyString)))
                    (VInt r) v
                  = OList (seq_insert l r v)).
      { cbn [with_item]. unfold seq_set in Hset.
        destruct (norm_index _ r); [|discriminate]. now injection Hset as ->. }
      rewrite E in Hshow.
      split; [reflexivity|]. split; [exact Hshow|]. split.
      - intros d' Hne. rewrite (Hothers d' Hne). now apply Hk1.
      - repeat split; assumption. }
    unfold wp in H. unfold run.
    destruct (insert_item sel below key_dialog (value, valid) w) as [res w'].
    cbn [fst snd] in H.
    destruct H as (-> & ((_ & _ & _ & Hd' & Ho') & Hk & Ht) & Hothers & _).
    exists w'. split; [reflexivity|]. split; [exact Ho'|].
    cbn [keys_of size_of] in Hk, Ht.
    destruct (seq_insert_then_set l r v (VStr EmptyString) Hr) as [_ Hlen'].
    rewrite Hlen' in Hk, Ht. repeat split; assumption.
  - intros e Hanswer Heval.
    assert (H : wp (insert_item sel below key_dialog (value, valid))
                  (fun res w' => (res, w') = (Raise e, w1)) w).
    { apply Hstart. cbn beta iota. fold accepted. rewrite Hanswer.
      cbn [when]. unfold wp, bind, lift. rewrite Heval. reflexivity. }
    unfold wp in H. unfold run.
    destruct (insert_item sel below key_dialog (value, valid) w). exact H.
  - intros Hanswer.
    assert (H : wp (insert_item sel below key_dialog (value, valid))
                  (fun res w' => (res, w') = (Ok tt, w1)) w).
    { apply Hstart. cbn beta iota. fold accepted. rewrite Hanswer.
      cbn [when]. wp_step. reflexivity. }
    unfold wp in H. unfold run.
    destruct (insert_item sel below key_dialog (value, valid) w). exact H.
Qed.

Lemma insert_item_into_list_witness :
  let w := editor_of four_list false in
  let left_behind :=
    set_heap [OList [VInt 10; VInt 11; VStr EmptyString; VInt 12; VInt 13]]
      w in
  (exists w',
     run (insert_item (select_row 1) true (VNone, false) (VStr "7", true)) w
     = (Ok tt, w')
     /\ nth_error (heap w') 0%nat
        = Some (OList [VInt 10; VInt 11; VInt 7; VInt 12; VInt 13])
     /\ total_rows w' = 5)
  /\ run (insert_item (select_row 1) true (VNone, false) (VStr "1/0", true)) w
     = (Raise (mkExn ZeroDivisionError "division by zero"), left_behind)
  /\ run (insert_item (select_row 1) true (VNone, false) (VStr "7", false)) w
     = (Ok tt, left_behind)
  /\ total_rows left_behind = 4.
Proof.
  intros w left_behind.
  assert (He : editing w 0%nat (OList [VInt 10; VInt 11; VInt 12; VInt 13]))
    by (vm_compute; repeat split).
  assert (Hr : 0 <= insert_row w (select_row 1) true
               <= len [VInt 10; VInt 11; VInt 12; VInt 13])
    by (vm_compute; split; discriminate).
  split; [|split; [|split; [|reflexivity]]].
  - destruct (insert_item_into_list w 0%nat _ (select_row 1) true
                (VNone, false) (VStr "7") true He Hr) as (Hok & _ & _).
    destruct (Hok (VInt 7)) as (w' & Hrun & Hheap & _ & Ht & _);
      [vm_compute; reflexivity|vm_compute; reflexivity|].
    exists w'. split; [exact Hrun|]. split; [exact Hheap|exact Ht].
  - destruct (insert_item_into_list w 0%nat _ (select_row 1) true
                (VNone, false) (VStr "1/0") true He Hr) as (_ & Hraise & _).
    apply Hraise; vm_compute; reflexivity.
  - destruct (insert_item_into_list w 0%nat _ (select_row 1) true
                (VNone, false) (VStr "7") false He Hr) as (_ & _ & Hno).
    apply Hno. vm_compute. reflexivity.
Defined.

Lemma without_item_size o k : present o k ->
  size_of (without_item o k) = size_of o - 1.
Proof.
  destruct o; cbn [present without_item size_of]; try contradiction.
  - intros (i & -> & Hi).
    destruct (norm_index_some (len l) i Hi) as [j [-> Hj]].
    cbn [size_of]. unfold len in *. rewrite remove_nth_length by lia. lia.
  - intros (_ & v & Hv). unfold len.
    rewrite (dict_del_length _ _ _ Hv).
    destruct d; [discriminate|]. cbn [List.length]. lia.
Qed.

(** X15: with one valid row selected in a local editor over a list or a
    dictionary, a [remove_item] that is forced or confirmed returns with
    the entry of that row removed from the data, the model reloaded with
    one row fewer and no other object touched; when the user declines,
    nothing changes but the selection. *)
Theorem remove_item_removes_the_selected_row {ext : Externals} :
  forall w d o sel first rest r0 k force answer_yes under_pytest,
    editing w d o ->
    list_or_dict o ->
    selectedIndexes sel = first :: rest ->
    forallb isValid (first :: rest) = true ->
    source_rows w (first :: rest) = [r0] ->
    seq_get (keys w) r0 = Ok k ->
    present o k ->
    (force || answer_yes = true ->
     exists w',
       run (remove_item sel force answer_yes under_pytest) w = (Ok tt, w')
       /\ nth_error (heap w') d = Some (without_item o k)
       /\ keys w' = keys_of (without_item o k)
       /\ total_rows w' = size_of o - 1
       /\ others_kept w w' d)
    /\ (force || answer_yes = false ->
        run (remove_item sel force answer_yes under_pytest) w
        = (Ok tt,
           if under_pytest then w
           else set_log (log w ++ [deselect_index (currentIndex sel)]) w)).
Proof.
  intros w d o sel first rest r0 k force yes pytest He Hkind Hsel Hvalid
         Hrows Hkey Hp.
  split.
  - intros Hyes.
    assert (H : wp (remove_item sel force yes pytest)
                  (leaves w d (without_item o k)) w).
    { unfold remove_item. rewrite Hsel, Hvalid. cbn [negb].
      rewrite Hyes. cbn [when].
      wp_step. wp_step.
      eapply wp_eq; [apply selected_source_rows_eq|].
      rewrite Hrows. cbn beta iota.
      wp_step. wp_step. cbn beta iota. wp_step.
      apply wp_eq with (r := Ok [k]) (w' := w).
      { cbn [mapM]. unfold bind, lift, ret. now rewrite Hkey. }
      cbn beta iota.
      eapply wp_conseq; [apply (remove_values_one w d o k He Hkind Hp)|].
      intros r w1 (-> & Hshow & Hrest).
      destruct pytest; cbn [negb]; wp_step;
        (split; [reflexivity|]; split; [exact Hshow|exact Hrest]). }
    unfold wp in H. unfold run.
    destruct (remove_item sel force yes pytest w) as [r w'].
    cbn [fst snd] in H.
    destruct H as (-> & ((_ & _ & _ & Hd' & Ho') & Hk & Ht) & Hothers & _).
    exists w'. rewrite without_item_size in Ht by exact Hp.
    repeat split; assumption.
  - intros Hno. unfold run, remove_item. rewrite Hsel, Hvalid, Hno.
    cbn [negb when]. destruct pytest; reflexivity.
Qed.

Lemma remove_item_removes_the_selected_row_witness :
  let w := editor_of typed_dict false in
  (exists w',
     run (remove_item (select_row 1) false true true) w = (Ok tt, w')
     /\ nth_error (heap w') 0%nat
        = Some (ODict [(VStr "b", VInt 1); (VStr "c", VInt 3)])
     /\ total_rows w' = 2)
  /\ run (remove_item (select_row 1) false false true) w = (Ok tt, w).
Proof.
  intros w.
  assert (He : editing w 0%nat typed_dict) by (vm_compute; repeat split).
  assert (Hp : present typed_dict (VStr "a"))
    by (split; [reflexivity|exists (VStr "x"); reflexivity]).
  pose proof (remove_item_removes_the_selected_row w 0%nat typed_dict
                (select_row 1) (index_at 1) [] 1 (VStr "a")) as H.
  split.
  - destruct (proj1 (H false true true He eq_refl eq_refl eq_refl eq_refl
                       eq_refl Hp) eq_refl)
      as (w' & Hrun & Hheap & _ & Ht & _).
    exists w'. split; [exact Hrun|]. split; [exact Hheap|exact Ht].
  - exact (proj2 (H false false true He eq_refl eq_refl eq_refl eq_refl
                    eq_refl Hp) eq_refl).
Defined.

(** ** The remote view *)

(** X17: [next_row] and [previous_row] walk round the rows: from a row
    of the table each gives a row of the table, past the last row comes
    the first and before the first the last, and each undoes the other.
    With no current row (row -1) [next_row] asks for row 0 and
    [previous_row] for row -2. *)
Theorem next_and_previous_row_wrap_around :
  forall row rows,
    0 <= row < rows ->
    0 <= next_row row rows < rows
    /\ 0 <= previous_row row rows < rows
    /\ previous_row (next_row row rows) rows = row
    /\ next_row (previous_row row rows) rows = row
    /\ next_row (rows - 1) rows = 0
    /\ previous_row 0 rows = rows - 1
    /\ next_row (-1) rows = 0
    /\ previous_row (-1) rows = -2.
Proof.
  intros row rows H. unfold next_row, previous_row.
  repeat match goal with
         | |- context [?a =? ?b] =>
             let E := fresh in
             destruct (a =? b) eqn:E;
             [apply Z.eqb_eq in E|apply Z.eqb_neq in E]
         end; lia.
Qed.

Lemma next_and_previous_row_wrap_around_witness :
  0 <= next_row 2 3 < 3
  /\ 0 <= previous_row 2 3 < 3
  /\ previous_row (next_row 2 3) 3 = 2
  /\ next_row (previous_row 2 3) 3 = 2
  /\ next_row (3 - 1) 3 = 0
  /\ previous_row 0 3 = 3 - 1
  /\ next_row (-1) 3 = 0
  /\ previous_row (-1) 3 = -2.
Proof. apply (next_and_previous_row_wrap_around 2 3). lia. Defined.

(** ** Attributes through the proxy *)





(** ** Building the editor *)

(** X19: [CollectionsEditorTableView.__init__] over a tuple, list, set,
    frozenset or dictionary returns.  The editor is read-only when asked
    to be or when the data is a tuple, a set or a frozenset, and only
    then; a read-only editor gets [ReadOnlyCollectionsModel], any other
    [CollectionsModel]; no filter is set; the model has one row for each
    entry.  The last calls made are [setSortIndicator], with -1 for a
    dictionary (left unsorted) and 0 for anything else, then
    [setSortingEnabled(True)], then [hideSection(0)] for a set or a
    frozenset. *)
Theorem CollectionsEditorTableView_init_sets_up {ext : Externals} :
  forall w data o readonly_arg title_arg names_arg,
    nth_error (heap w) data = Some o ->
    plain_collection o ->
    let fixed := is_tuple o || is_set o || is_frozenset o in
    exists w',
      run (CollectionsEditorTableView_init (Some data) readonly_arg
             title_arg names_arg) w = (Ok tt, w')
      /\ readonly w' = readonly_arg || fixed
      /\ source_model w' =
           (if readonly_arg || fixed then ReadOnlyCollectionsModel
            else CollectionsModel)
      /\ dictfilter w' = None
      /\ keys w' = keys_of o
      /\ total_rows w' = size_of o
      /\ nth_error (heap w') data = Some o
      /\ exists before,
           log w' =
             before
             ++ [setSortIndicator (if is_dict o then -1 else 0)
                   AscendingOrder;
                 setSortingEnabled true]
             ++ (if is_set o || is_frozenset o then [hideSection 0] else []).
Proof.
  intros w data o ro t nm Hd Hplain fixed.
  apply (wp_returns (CollectionsEditorTableView_init (Some data) ro t nm)
           (fun w' =>
              readonly w' = ro || fixed
              /\ source_model w' =
                   (if ro || fixed then ReadOnlyCollectionsModel
                    else CollectionsModel)
              /\ dictfilter w' = None
              /\ keys w' = keys_of o
              /\ total_rows w' = size_of o
              /\ nth_error (heap w') data = Some o
              /\ exists before,
                   log w' =
                     before
                     ++ [setSortIndicator (if is_dict o then -1 else 0)
                           AscendingOrder;
                         setSortingEnabled true]
                     ++ (if is_set o || is_frozenset o then [hideSection 0]
                         else []))).
  unfold CollectionsEditorTableView_init, isinstance_opt, isinstance.
  repeat lazymatch goal with
         | |- wp (model_init _ _ _ _) _ _ => fail
         | |- wp (deref _) _ _ =>
             apply (wp_deref_known _ o); [exact Hd|]; cbn beta
         | _ => wp_step
         end.
  fold fixed.
  eapply wp_conseq.
  { apply (model_init_returns data _ o); [exact Hd|exact Hplain]. }
  intros r w1. simpl_world.
  intros (-> & _ & Hk & Ht & _ & _ & _ & _ & _ & Hro & Hm & Hf & Hafter).
  assert (Hd1 : nth_error (heap w1) data = Some o).
  { destruct o; try contradiction; cbn [data_after] in Hafter;
      destruct Hafter as [_ ->]; try exact Hd;
      rewrite nth_error_app1 by (eapply nth_error_lt; eauto); exact Hd. }
  repeat lazymatch goal with
         | |- wp (deref _) _ _ =>
             apply (wp_deref_known _ o); [exact Hd1|]; cbn beta
         | |- _ /\ _ => fail
         | _ => wp_step
         end.
  all: simpl_world.
  all: split; [reflexivity|]; split; [exact Hro|]; split; [exact Hm|].
  all: split; [exact Hf|]; split; [exact Hk|]; split; [exact Ht|].
  all: split; [exact Hd1|]; exists (log w1).
  all: repeat match goal with
              | H : ?b = _ |- context [if ?b then _ else _] => rewrite H
              end.
  all: rewrite <- ?app_assoc; reflexivity.
Qed.

Lemma CollectionsEditorTableView_init_sets_up_witness :
  exists w',
    run (CollectionsEditorTableView_init (Some 0%nat) false EmptyString false)
      (fresh [typed_dict] CollectionsEditorTableView true None) = (Ok tt, w')
    /\ readonly w' = false
    /\ source_model w' = CollectionsModel
    /\ dictfilter w' = None
    /\ keys w' = [VStr "b"; VStr "a"; VStr "c"]
    /\ total_rows w' = 3
    /\ nth_error (heap w') 0%nat = Some typed_dict
    /\ exists before,
         log w' =
           before
           ++ [setSortIndicator (-1) AscendingOrder; setSortingEnabled true]
           ++ [].
Proof.
  exact (CollectionsEditorTableView_init_sets_up
           (fresh [typed_dict] CollectionsEditorTableView true None)
           0%nat typed_dict false EmptyString false eq_refl eq_refl).
Defined.

(** ** Searching *)

Lemma lower_char_space c :
  Ascii.eqb c " " = false -> Ascii.eqb (lower_char c) " " = false.
Proof.
  intros Hc. apply Ascii.eqb_neq. apply Ascii.eqb_neq in Hc.
  intros Hl. destruct (lower_char_cases c) as [[E _]|[E Hup]].
  - congruence.
  - rewrite Hl in E. change (code " ") with 32%N in E. lia.
Qed.

Lemma remove_spaces_lower_twice t :
  str_lower (remove_spaces (str_lower (remove_spaces t)))
  = str_lower (remove_spaces t).
Proof.
  induction t as [|c t IH]; cbn; [reflexivity|].
  destruct (Ascii.eqb c " ") eqn:E; [exact IH|].
  cbn [str_lower remove_spaces].
  rewrite (lower_char_space c E). cbn [str_lower].
  now rewrite lower_char_twice, IH.
Qed.

Section Finding.
Context {ext : Externals}.

Lemma do_find_does text w :
  0 <= rows_loaded w <= total_rows w ->
  wp (do_find text)
    (fun r w' =>
       r = Ok tt ->
       let sought := str_lower (remove_spaces text) in
       rows_loaded w' = total_rows w
       /\ total_rows w' = total_rows w
       /\ keys w' = keys w
       /\ letters w' = sought
       /\ (sought <> EmptyString ->
           exists before,
             log w' = before ++ [sortByColumn 4 DescendingOrder])
       /\ (sought = EmptyString ->
           forall c o, In (sortByColumn c o) (log w') ->
                       In (sortByColumn c o) (log w))) w.
Proof.
  intros Hrange. unfold do_find, load_all.
  wp_step. wp_step. wp_step. cbn beta iota.
  eapply wp_conseq;
    [apply (fetchMore_returns (Some (total_rows w)) w)|].
  intros r w1 H1. cbv beta in H1.
  destruct r as [[]|e]; [|discriminate].
  destruct (H1 eq_refl) as (Ht & Hk & Hsame & Hmore).
  assert (Hl : rows_loaded w1 = total_rows w).
  { destruct (Z.eq_dec (rows_loaded w) (total_rows w)) as [E|E].
    - rewrite (Hsame ltac:(lia)). exact E.
    - destruct (Hmore ltac:(lia)) as (-> & _). lia. }
  assert (Hlog : forall c o, In (sortByColumn c o) (log w1) ->
                             In (sortByColumn c o) (log w)).
  { intros c o. destruct (Z.eq_dec (rows_loaded w) (total_rows w)) as [E|E].
    - now rewrite (Hsame ltac:(lia)).
    - destruct (Hmore ltac:(lia)) as (_ & -> & _).
      rewrite in_app_iff. intros [H|[H|[]]]; [exact H|discriminate]. }
  unfold set_filter, update_search_letters.
  repeat (wp_step; try exact I).
  all: intros _; simpl_world.
  all: rewrite ?negb_true_iff, ?negb_false_iff in *.
  all: rewrite ?String.eqb_eq, ?String.eqb_neq in *.
  all: split; [exact Hl|]; split; [exact Ht|]; split; [exact Hk|].
  all: split; [reflexivity|].
  all: split;
    [intros Hne; try contradiction;
     try (eexists; reflexivity)
    |intros Hempty; try congruence; intros c o].
  all: rewrite ?in_app_iff; cbn [In].
  all: intros Hin;
    repeat match type of Hin with
           | _ \/ _ => destruct Hin as [Hin|Hin]
           end;
    try discriminate; try contradiction; auto.
Qed.
End Finding.

(** X20: [do_find] looks for the text without its spaces and in lower
    case, so that texts that differ only there give the same search.
    When no more rows are loaded than there are, a [do_find] that
    returns has loaded every row and recorded the text sought; it asks
    for a sort by the score column, descending, as its last call when
    the text sought is not empty, and for no sort at all when it is. *)
Theorem do_find_loads_and_sorts {ext : Externals} :
  forall w text w',
    0 <= rows_loaded w <= total_rows w ->
    run (do_find text) w = (Ok tt, w') ->
    let sought := str_lower (remove_spaces text) in
    do_find text = do_find sought
    /\ rows_loaded w' = total_rows w
    /\ total_rows w' = total_rows w
    /\ keys w' = keys w
    /\ letters w' = sought
    /\ (sought <> EmptyString ->
        exists before, log w' = before ++ [sortByColumn 4 DescendingOrder])
    /\ (sought = EmptyString ->
        forall c o, In (sortByColumn c o) (log w') ->
                    In (sortByColumn c o) (log w)).
Proof.
  intros w text w' Hrange Hrun sought.
  split.
  - unfold do_find. fold sought. unfold sought.
    now rewrite remove_spaces_lower_twice.
  - use_wp (do_find_does text w Hrange) Hrun X. exact (X eq_refl).
Qed.

Lemma do_find_loads_and_sorts_witness :
  let w' := snd (run (do_find "A b") large_model) in
  do_find "A b" = do_find "ab"
  /\ rows_loaded w' = 101
  /\ letters w' = "ab"%string.
Proof.
  intros w'.
  destruct (do_find_loads_and_sorts large_model "A b" w')
    as (H1 & H2 & _ & _ & H5 & _).
  - vm_compute. split; discriminate.
  - vm_compute. reflexivity.
  - split; [exact H1|]. split; [exact H2|exact H5].
Defined.

(** ** The natural order ignores case *)

Lemma is_ascii_digit_lower c :
  is_ascii_digit (lower_char c) = is_ascii_digit c.
Proof.
  destruct (lower_char_cases c) as [[-> _]|[E Hup]]; [reflexivity|].
  unfold is_ascii_digit. rewrite E.
  destruct ((48 <=? code c) && (code c <=? 57))%N eqn:H1.
  - rewrite andb_true_iff, !N.leb_le in H1. lia.
  - apply andb_false_iff. rewrite !N.leb_gt. lia.
Qed.

Lemma is_digit_char_lower c :
  is_digit_char (lower_char c) = is_digit_char c.
Proof.
  destruct (lower_char_cases c) as [[-> _]|[E Hup]]; [reflexivity|].
  unfold is_digit_char. rewrite is_ascii_digit_lower, E.
  f_equal.
  repeat match goal with
         | |- context [(?a =? ?b)%N] =>
             let H := fresh in
             destruct (a =? b)%N eqn:H;
             [apply N.eqb_eq in H|apply N.eqb_neq in H]
         end; try reflexivity; lia.
Qed.

Lemma digit_char_not_lowered c :
  is_digit_char c = true -> lower_char c = c.
Proof.
  intros H. destruct (lower_char_cases c) as [[E _]|[_ Hup]]; [exact E|].
  unfold is_digit_char, is_ascii_digit in H.
  rewrite !orb_true_iff, andb_true_iff, !N.leb_le, !N.eqb_eq in H. lia.
Qed.

Lemma str_lower_snoc s c :
  str_lower (snoc s c) = snoc (str_lower s) (lower_char c).
Proof.
  unfold snoc. induction s as [|a s IH]; cbn; [reflexivity|now rewrite IH].
Qed.

Lemma re_split_digits_lower s : forall cur in_run,
  re_split_digits (str_lower cur) in_run (str_lower s)
  = map str_lower (re_split_digits cur in_run s).
Proof.
  induction s as [|c s IH]; intros cur in_run; cbn [str_lower re_split_digits].
  - now destruct in_run.
  - rewrite is_ascii_digit_lower.
    destruct (Bool.eqb (is_ascii_digit c) in_run).
    + rewrite <- str_lower_snoc. apply IH.
    + cbn [map]. f_equal.
      change (String (lower_char c) EmptyString)
        with (str_lower (String c EmptyString)).
      apply IH.
Qed.

Lemma forallb_digit_char_lower s :
  forallb_string is_digit_char (str_lower s) = forallb_string is_digit_char s.
Proof.
  induction s as [|a s IH]; cbn; [reflexivity|].
  now rewrite is_digit_char_lower, IH.
Qed.

Lemma str_isdigit_lower t : str_isdigit (str_lower t) = str_isdigit t.
Proof.
  destruct t as [|c t]; [reflexivity|].
  apply (forallb_digit_char_lower (String c t)).
Qed.

Lemma str_lower_digits t :
  forallb_string is_digit_char t = true -> str_lower t = t.
Proof.
  induction t as [|c t IH]; cbn; [reflexivity|].
  rewrite andb_true_iff. intros [Hc Ht].
  now rewrite (digit_char_not_lowered c Hc), IH.
Qed.

Lemma natsort_piece_lower t :
  natsort_piece (str_lower t) = natsort_piece t.
Proof.
  unfold natsort_piece. rewrite str_isdigit_lower.
  destruct (str_isdigit t) eqn:E.
  - f_equal. apply str_lower_digits.
    destruct t; [discriminate|exact E].
  - now rewrite str_lower_twice.
Qed.

Lemma res_map_natsort_piece_lower l :
  res_map natsort_piece (map str_lower l) = res_map natsort_piece l.
Proof.
  induction l as [|t l IH]; cbn; [reflexivity|].
  now rewrite natsort_piece_lower, IH.
Qed.

(** X21: the natural order takes no account of letter case: [natsort]
    gives the same key for a text and for the text in lower case, so
    [lessThan] on two texts gives what it gives on their lower-case
    forms, a ValueError included. *)
Theorem natural_order_ignores_case :
  forall a b,
    natsort (VStr (str_lower a)) = natsort (VStr a)
    /\ lessThan (VStr a) (VStr b)
       = lessThan (VStr (str_lower a)) (VStr (str_lower b)).
Proof.
  assert (H : forall t, natsort (VStr (str_lower t)) = natsort (VStr t)).
  { intros t. cbn [natsort].
    change EmptyString with (str_lower EmptyString) at 1.
    now rewrite re_split_digits_lower, res_map_natsort_piece_lower. }
  intros a b. split; [apply H|].
  unfold lessThan, lessThan_body. cbn [is_str andb].
  now rewrite !H.
Qed.

(** ** Removing several positions of a list *)

Lemma insert_sorted_ascending x s r :
  ascending s -> insert_sorted lt_position x s = Ok r -> ascending r.
Proof.
  revert r. induction s as [|y ys IH]; cbn; intros r Hs.
  - intros [= <-]. cbn. auto.
  - destruct Hs as [Hy Hs]. destruct (x <? y) eqn:E.
    + intros [= <-]. apply Z.ltb_lt in E. cbn. split; [|split; assumption].
      constructor; [lia|]. eapply Forall_impl; [|exact Hy].
      cbn. intros; lia.
    + destruct (insert_sorted lt_position x ys) as [r'|] eqn:Er; cbn;
        [|discriminate].
      intros [= <-]. apply Z.ltb_ge in E. cbn. split; [|now apply IH].
      apply insert_sorted_perm in Er.
      eapply Permutation_Forall; [exact Er|]. now constructor.
Qed.

Lemma sort_into_ascending l : forall acc r,
  ascending acc -> sort_into lt_position acc l = Ok r -> ascending r.
Proof.
  induction l as [|x xs IH]; cbn; intros acc r Hacc.
  - now intros [= <-].
  - destruct (insert_sorted lt_position x acc) as [acc'|] eqn:E; cbn;
      [|discriminate].
    apply IH. eapply insert_sorted_ascending; eauto.
Qed.

Lemma ascending_app a : forall b,
  ascending a -> ascending b ->
  (forall x y, In x a -> In y b -> x <= y) -> ascending (a ++ b).
Proof.
  induction a as [|x a IH]; cbn; intros b Ha Hb Hab; [exact Hb|].
  destruct Ha as [Hx Ha]. split.
  - apply Forall_app. split; [exact Hx|].
    apply Forall_forall. intros y Hy. apply Hab; auto.
  - apply IH; auto.
Qed.

Lemma descending_rev l : NoDup l -> ascending l -> descending (rev l).
Proof.
  induction l as [|x l IH]; cbn; intros Hnd Hasc; [exact I|].
  destruct Hasc as [Hx Hasc]. inversion Hnd as [|? ? Hnotin Hnd']; subst.
  specialize (IH Hnd' Hasc).
  assert (Hlt : Forall (fun j => x < j) l).
  { apply Forall_forall. intros j Hj.
    rewrite Forall_forall in Hx. specialize (Hx j Hj).
    assert (j <> x) by (intros ->; contradiction). lia. }
  clear Hx Hnotin Hnd Hnd' Hasc.
  assert (Hlt' : Forall (fun j => x < j) (rev l))
    by (eapply Permutation_Forall; [apply Permutation_rev|exact Hlt]).
  clear Hlt. induction (rev l) as [|y m IHm]; cbn.
  - split; [constructor|exact I].
  - destruct IH as [Hy Hm]. inversion Hlt' as [|? ? Hxy Hlt'']; subst.
    split.
    + apply Forall_app. split; [exact Hy|]. constructor; [lia|constructor].
    + now apply IHm.
Qed.

(** A list of different items has one descending arrangement. *)
Lemma descending_unique a : forall b,
  Permutation a b -> descending a -> descending b -> a = b.
Proof.
  induction a as [|x a IH]; intros b Hp Ha Hb.
  - apply Permutation_nil in Hp. now subst.
  - destruct b as [|y b];
      [apply Permutation_sym, Permutation_nil in Hp; discriminate|].
    destruct Ha as [Hx Ha], Hb as [Hy Hb].
    assert (x = y).
    { assert (Hin1 : In x (y :: b))
        by (eapply Permutation_in; [exact Hp|now left]).
      assert (Hin2 : In y (x :: a))
        by (eapply Permutation_in; [apply Permutation_sym; exact Hp|now left]).
      rewrite Forall_forall in Hx, Hy.
      destruct Hin1 as [->|H1]; [reflexivity|].
      destruct Hin2 as [->|H2]; [reflexivity|].
      specialize (Hx y H2). specialize (Hy x H1). lia. }
    subst y. f_equal. apply IH; auto.
    now apply Permutation_cons_inv in Hp.
Qed.

(** [sorted(keys, reverse=True)] on different positions. *)
Lemma sorted_positions ks :
  NoDup ks ->
  exists r,
    py_sorted (map VInt ks) identity_key true = Ok (map VInt r)
    /\ Permutation ks r
    /\ descending r.
Proof.
  intros Hnd.
  destruct (sort_reverse_ok lt_position (fun _ => True)
              ltac:(intros x y _ _; unfold lt_position; cbn; eauto)
              true ks) as [r Hr].
  { apply Forall_forall. auto. }
  exists r. split; [|split].
  - apply (py_sorted_rows VInt ks r true). exact Hr.
  - eapply sort_reverse_perm. exact Hr.
  - unfold sort_reverse, stable_sort in Hr.
    destruct (sort_into lt_position [] (rev ks)) as [s|] eqn:Es;
      cbn in Hr; [|discriminate].
    injection Hr as <-.
    apply descending_rev.
    + apply sort_into_perm in Es. cbn in Es.
      eapply Permutation_NoDup; [exact Es|].
      eapply Permutation_NoDup; [apply Permutation_rev|exact Hnd].
    + eapply sort_into_ascending; [|exact Es]. exact I.
Qed.

Lemma sorted_positions_same ks ks2 :
  NoDup ks -> Permutation ks ks2 ->
  py_sorted (map VInt ks2) identity_key true
  = py_sorted (map VInt ks) identity_key true.
Proof.
  intros Hnd Hp.
  destruct (sorted_positions ks Hnd) as (r & -> & Hpr & Hdr).
  destruct (sorted_positions ks2) as (r2 & -> & Hpr2 & Hdr2).
  { eapply Permutation_NoDup; eauto. }
  f_equal. f_equal. symmetry. apply descending_unique; auto.
  rewrite <- Hpr, <- Hpr2. exact Hp.
Qed.

Lemma replace_nth_same {A} (h : list A) : forall d o,
  nth_error h d = Some o -> replace_nth d o h = h.
Proof.
  induction h as [|x h IH]; intros [|d] o; cbn; try discriminate.
  - now intros [= ->].
  - intros H. now rewrite IH.
Qed.

Section RemoveSeveral.
Context {ext : Externals}.

(** Popping positions from the highest down. *)
Lemma pop_descending r : forall l d w,
  nth_error (heap w) d = Some (OList l) ->
  descending r ->
  Forall (fun k => 0 <= k < len l) r ->
  forM_ (map VInt r) (fun key => py_pop d key ;; ret tt) w
  = (Ok tt, set_heap (replace_nth d (OList (drop_each r l)) (heap w)) w)
  /\ len (drop_each r l) = len l - len r.
Proof.
  induction r as [|k r IH]; intros l d w Hd Hdesc Hrange;
    cbn [map forM_ drop_each].
  - split; [|unfold len; cbn; lia].
    unfold ret. now rewrite (replace_nth_same _ _ _ Hd), set_heap_same.
  - destruct Hdesc as [Hk Hdesc].
    inversion Hrange as [|? ? Hk0 Hrange']; subst.
    destruct (py_pop_list d l k w Hd Hk0) as [x Hpop].
    set (l1 := remove_nth (Z.to_nat k) l) in *.
    set (w1 := set_heap (replace_nth d (OList l1) (heap w)) w) in *.
    assert (Hlen1 : len l1 = len l - 1).
    { unfold l1, len in *. rewrite remove_nth_length by lia. lia. }
    assert (Hd1 : nth_error (heap w1) d = Some (OList l1)).
    { unfold w1. cbn. apply nth_error_replace_nth.
      eapply nth_error_lt; eauto. }
    destruct (IH l1 d w1 Hd1 Hdesc) as [Hrun Hlen].
    { rewrite Forall_forall in *. intros j Hj.
      specialize (Hk j Hj). specialize (Hrange' j Hj). lia. }
    split.
    + unfold bind at 1. unfold bind at 1. rewrite Hpop. cbn [fst snd].
      unfold ret at 1. fold w1. rewrite Hrun. f_equal.
      unfold w1. cbn. now rewrite replace_nth_twice.
    + rewrite Hlen, Hlen1. unfold len. cbn [List.length]. lia.
Qed.
End RemoveSeveral.

(** X22: [remove_values] on a local editor over a list, given different
    positions of the list in any order, returns with exactly those
    entries removed: it pops the positions from the highest down, so
    that no removal moves an entry still to be removed.  The outcome is
    the same for every order of the positions, the model is reloaded
    with as many rows fewer as there were positions, and no other object
    is touched. *)
Theorem remove_values_takes_positions_in_any_order {ext : Externals} :
  forall w d l ks,
    editing w d (OList l) ->
    NoDup ks ->
    Forall (fun k => 0 <= k < len l) ks ->
    (forall ks2,
       Permutation ks ks2 ->
       run (remove_values (map VInt ks2)) w
       = run (remove_values (map VInt ks)) w)
    /\ exists w' highest_first,
         run (remove_values (map VInt ks)) w = (Ok tt, w')
         /\ Permutation ks highest_first
         /\ descending highest_first
         /\ nth_error (heap w') d = Some (OList (drop_each highest_first l))
         /\ total_rows w' = len l - len ks
         /\ keys w' = map VInt (range 0 (len l - len ks))
         /\ others_kept w w' d.
Proof.
  intros w d l ks He Hnd Hrange.
  pose proof He as (Hv & Hr & Hf & Hd & Ho).
  split.
  - intros ks2 Hp. unfold run, remove_values, bind, gets, get_data, lift.
    rewrite Hv. now rewrite (sorted_positions_same ks ks2 Hnd Hp).
  - destruct (sorted_positions ks Hnd) as (r & Hsorted & Hperm & Hdesc).
    assert (Hrange' : Forall (fun k => 0 <= k < len l) r)
      by (eapply Permutation_Forall; eauto).
    destruct (pop_descending r l d w Ho Hdesc Hrange') as [Hpops Hlen].
    destruct (editing_store w d (OList l) (OList (drop_each r l)) He)
      as [He1 Hk1].
    assert (H : wp (remove_values (map VInt ks))
                  (leaves w d (OList (drop_each r l))) w).
    { unfold remove_values.
      wp_step. wp_step. cbn beta iota. rewrite Hv.
      wp_step. wp_step. cbn beta iota. rewrite Hd.
      wp_step. wp_step. rewrite Hsorted. cbn beta iota.
      wp_step. eapply wp_eq; [exact Hpops|]. cbn beta iota.
      apply (reload_leaves w _ d (OList (drop_each r l))); auto. exact I. }
    unfold wp in H. unfold run.
    destruct (remove_values (map VInt ks) w) as [res w']. cbn [fst snd] in H.
    destruct H as (-> & ((_ & _ & _ & Hd' & Ho') & Hk & Ht) & Hothers & _).
    exists w', r. cbn [keys_of size_of] in Hk, Ht.
    rewrite Hlen in Hk, Ht.
    rewrite (perm_len _ _ Hperm) in Hk, Ht.
    repeat split; assumption.
Qed.

Lemma remove_values_takes_positions_in_any_order_witness :
  let w := editor_of four_list false in
  run (remove_values [VInt 0; VInt 3; VInt 1]) w
  = run (remove_values [VInt 1; VInt 0; VInt 3]) w
  /\ nth_error (heap (snd (run (remove_values [VInt 1; VInt 0; VInt 3]) w)))
       0%nat
     = Some (OList [VInt 12]).
Proof.
  intros w.
  assert (He : editing w 0%nat (OList [VInt 10; VInt 11; VInt 12; VInt 13]))
    by (vm_compute; repeat split).
  assert (Hnd : NoDup [1; 0; 3])
    by (repeat constructor; cbn; intuition discriminate).
  assert (Hrange : Forall (fun k => 0 <= k < len [VInt 10; VInt 11; VInt 12;
                                                  VInt 13]) [1; 0; 3])
    by (repeat constructor; vm_compute; discriminate).
  destruct (remove_values_takes_positions_in_any_order w 0%nat _ [1; 0; 3]
              He Hnd Hrange) as [Hany _].
  split.
  - apply (Hany [0; 3; 1]).
    change (Permutation (1 :: [0; 3]) ([0; 3] ++ 1 :: [])).
    apply Permutation_cons_app. reflexivity.
  - vm_compute. reflexivity.
Defined.
